(** * n8n-nodes-celo: transport client and helper utilities

    A shallow embedding of [nodes/Celo/transport/celoClient.ts] and
    [nodes/Celo/utils/helpers.ts]: the JSON-RPC and explorer transports,
    the ABI word encoder and decoder, and the unit conversions.

    - A JavaScript string is the list of its characters; the code units
      are those below 256, which covers every string the functions
      build or inspect (digits, hexadecimal words, URLs, messages).
    - A BigInt is a [Z]; [/] and [%] on BigInt are [Z.quot] and [Z.rem].
    - A Number is integer-valued and carried as the integer it
      denotes.  It is printed as [Number::toString] prints it: every
      digit of a safe integer, beyond that the fewest digits that
      identify the Number, in exponent form from [10^21] on.  The one
      floating-point expression of the sources, [10 ** decimals], is
      modelled by the binary64 value it denotes.
    - A thrown exception is the [Throw] case of [result].
    - The two asynchronous transport functions run in a small monad
      that threads the log of the HTTP requests performed so far. *)

From Stdlib Require Import ZArith Ascii String List Bool Lia.
Import ListNotations.
Open Scope Z_scope.

(** ** JavaScript strings *)

Module JsString.

Definition jsstring := list ascii.

Definition str (s : string) : jsstring := list_ascii_of_string s.

Fixpoint eqb (a b : jsstring) : bool :=
  match a, b with
  | [], [] => true
  | x :: a', y :: b' => Ascii.eqb x y && eqb a' b'
  | _, _ => false
  end.

(** [s.padStart(len, fill)] and [s.padEnd(len, fill)] for a
    one-character filler: a string already [len] long is unchanged. *)
Definition padStart (len : nat) (fill : ascii) (s : jsstring) : jsstring :=
  repeat fill (len - length s) ++ s.

Definition padEnd (len : nat) (fill : ascii) (s : jsstring) : jsstring :=
  s ++ repeat fill (len - length s).

(** Relative indices of [slice]: a negative index counts from the end,
    and every index is clamped to [0 .. length]. *)
Definition relIndex (len : nat) (i : Z) : nat :=
  if i <? 0 then Z.to_nat (Z.max (Z.of_nat len + i) 0)
  else Z.to_nat (Z.min i (Z.of_nat len)).

Definition slice (s : jsstring) (from to : Z) : jsstring :=
  let a := relIndex (length s) from in
  let b := relIndex (length s) to in
  firstn (b - a) (skipn a s).

(** [s.slice(from)] *)
Definition sliceFrom (s : jsstring) (from : Z) : jsstring :=
  slice s from (Z.of_nat (length s)).

Fixpoint startsWith (p s : jsstring) : bool :=
  match p, s with
  | [], _ => true
  | x :: p', y :: s' => Ascii.eqb x y && startsWith p' s'
  | _ :: _, [] => false
  end.

(** [s.replace(pat, rep)] for a string pattern: only the first
    occurrence is replaced. *)
Fixpoint replace (pat rep s : jsstring) : jsstring :=
  if startsWith pat s then rep ++ skipn (length pat) s
  else match s with
       | [] => []
       | c :: r => c :: replace pat rep r
       end.

(** [s.replace(/c+$/, '')] *)
Fixpoint stripTrailing (c : ascii) (s : jsstring) : jsstring :=
  match s with
  | [] => []
  | x :: r =>
      match stripTrailing c r with
      | [] => if Ascii.eqb x c then [] else [x]
      | r' => x :: r'
      end
  end.

(** [s.split(sep)] for a one-character separator. *)
Fixpoint split (sep : ascii) (s : jsstring) : list jsstring :=
  match s with
  | [] => [[]]
  | c :: r =>
      if Ascii.eqb c sep then [] :: split sep r
      else match split sep r with
           | h :: t => (c :: h) :: t
           | [] => [[c]]
           end
  end.

Definition lowerChar (c : ascii) : ascii :=
  let n := N_of_ascii c in
  if ((65 <=? n) && (n <=? 90))%N then ascii_of_N (n + 32)
  else if ((192 <=? n) && (n <=? 222) && negb (n =? 215))%N
       then ascii_of_N (n + 32)
       else c.

Definition toLowerCase (s : jsstring) : jsstring := map lowerChar s.

Definition isWhiteSpace (c : ascii) : bool :=
  let n := N_of_ascii c in
  ((9 <=? n) && (n <=? 13) || (n =? 32) || (n =? 160))%N.

Fixpoint trimStart (s : jsstring) : jsstring :=
  match s with
  | c :: r => if isWhiteSpace c then trimStart r else s
  | [] => []
  end.

Definition trim (s : jsstring) : jsstring :=
  rev (trimStart (rev (trimStart s))).

Fixpoint join (sep : jsstring) (l : list jsstring) : jsstring :=
  match l with
  | [] => []
  | [x] => x
  | x :: r => x ++ sep ++ join sep r
  end.

End JsString.
Import JsString.

(** ** Exceptions *)

Inductive JsError : Type :=
| Error (message : jsstring)
| TypeError (message : jsstring)
| RangeError (message : jsstring)
| SyntaxError (message : jsstring).

Inductive result (A : Type) : Type :=
| Ok (a : A)
| Throw (e : JsError).
Arguments Ok {A} a.
Arguments Throw {A} e.

Definition rbind {A B} (r : result A) (k : A -> result B) : result B :=
  match r with
  | Ok a => k a
  | Throw e => Throw e
  end.

Declare Scope result_scope.
Delimit Scope result_scope with result.
Notation "'let?' x ':=' r 'in' k" := (rbind r (fun x => k))
  (at level 10, x name, r at level 100, k at level 200) : result_scope.
Open Scope result_scope.

(** ** BigInt *)

Module BigInt.

(** Digit characters of [toString(radix)]: [0-9a-z]. *)
Definition digitChar (d : Z) : ascii :=
  if d <? 10 then ascii_of_N (Z.to_N (48 + d))
  else ascii_of_N (Z.to_N (87 + d)).

(** Value of a digit character when parsing; letters in either case. *)
Definition digitVal (c : ascii) : option Z :=
  let n := Z.of_N (N_of_ascii c) in
  if (48 <=? n) && (n <=? 57) then Some (n - 48)
  else if (97 <=? n) && (n <=? 122) then Some (n - 87)
  else if (65 <=? n) && (n <=? 90) then Some (n - 55)
  else None.

(** Big-endian digits of a non-negative integer, most significant
    first; [fuel] bounds the number of digits. *)
Fixpoint digitsFuel (fuel : nat) (radix n : Z) : list Z :=
  match fuel with
  | O => []
  | S f =>
      if n <? radix then [n]
      else digitsFuel f radix (n / radix) ++ [n mod radix]
  end.

Definition digits (radix n : Z) : list Z :=
  digitsFuel (S (Z.to_nat (Z.log2 n))) radix n.

(** [n.toString(radix)] *)
Definition toString (radix : Z) (n : Z) : jsstring :=
  if n <? 0 then "-"%char :: map digitChar (digits radix (- n))
  else map digitChar (digits radix n).

Fixpoint parseDigitsFrom (radix : Z) (s : jsstring) (acc : Z) : option Z :=
  match s with
  | [] => Some acc
  | c :: r =>
      match digitVal c with
      | Some d =>
          if d <? radix then parseDigitsFrom radix r (acc * radix + d)
          else None
      | None => None
      end
  end.

(** One or more digits of the given radix. *)
Definition parseDigits (radix : Z) (s : jsstring) : option Z :=
  match s with
  | [] => None
  | _ => parseDigitsFrom radix s 0
  end.

(** A [0x], [0o] or [0b] prefix (either case) and the digits after it. *)
Definition radixPrefix (t : jsstring) : option (Z * jsstring) :=
  match t with
  | c0 :: c1 :: r =>
      if Ascii.eqb c0 "0" then
        if Ascii.eqb c1 "x" || Ascii.eqb c1 "X" then Some (16, r)
        else if Ascii.eqb c1 "o" || Ascii.eqb c1 "O" then Some (8, r)
        else if Ascii.eqb c1 "b" || Ascii.eqb c1 "B" then Some (2, r)
        else None
      else None
  | _ => None
  end.

(** StringToBigInt: surrounding white space is ignored, the empty
    string is zero, a radix prefix admits no sign, a decimal literal
    may carry one sign. *)
Definition ofString (s : jsstring) : option Z :=
  let t := trim s in
  match t with
  | [] => Some 0
  | c :: r =>
      match radixPrefix t with
      | Some (radix, ds) => parseDigits radix ds
      | None =>
          if Ascii.eqb c "-" then option_map Z.opp (parseDigits 10 r)
          else if Ascii.eqb c "+" then parseDigits 10 r
          else parseDigits 10 t
      end
  end.

(** [BigInt(s)] for a string argument. *)
Definition fromString (s : jsstring) : result Z :=
  match ofString s with
  | Some n => Ok n
  | None => Throw (SyntaxError (str "Cannot convert " ++ s ++ str " to a BigInt"))
  end.

(** The Number nearest to a non-negative integer, as the integer it
    denotes: the binary64 value nearest to [n] (ties to even), and
    [None] once that overflows to [Infinity]. *)
Definition roundToDouble (n : Z) : option Z :=
  let e := Z.log2 n - 52 in
  if e <=? 0 then Some n
  else
    let q := n / 2 ^ e in
    let r := n mod 2 ^ e in
    let half := 2 ^ (e - 1) in
    let q' := if r <? half then q
              else if half <? r then q + 1
              else if Z.even q then q else q + 1 in
    let m := q' * 2 ^ e in
    if m <? 2 ^ 1024 then Some m else None.

(** The Number [10 ** d].  Every power up to [10^22] is exactly
    representable and is the value of [10 ** d]; no larger one is
    representable.  ECMAScript leaves [**] implementation-approximated
    there: the nearest Number is taken here, and an engine may return a
    neighbour of it for some [d] above 23.  What is proved below rests
    on the exact range, on [d = 23] and on the overflow from [d = 309]
    on. *)
Definition numberPow10 (d : nat) : option Z :=
  roundToDouble (10 ^ Z.of_nat d).

(** [BigInt(10 ** d)] *)
Definition ofPow10 (d : nat) : result Z :=
  match numberPow10 d with
  | Some n => Ok n
  | None =>
      Throw (RangeError
        (str "The number Infinity cannot be converted to a BigInt because it is not an integer"))
  end.

End BigInt.

(** ** Number

    An integral Number is carried as the integer it denotes, so a
    [Z] stands for a Number when it is a binary64 value.  Printing
    follows [Number::toString] at radix 10. *)

Module Number.

(** Whether the decimal [v] reads back as the Number [x]. *)
Definition readsAs (v x : Z) : bool :=
  match BigInt.roundToDouble v with
  | Some m => m =? x
  | None => false
  end.

(** The multiples of [p] next to [x], below and above: the one that
    reads back as [x], the nearer one when both do, the one with the
    even quotient when they are equally near. *)
Definition candidate (x p : Z) : option Z :=
  let lo := x / p * p in
  let hi := lo + p in
  match readsAs lo x, readsAs hi x with
  | true, true =>
      Some (if x - lo <? hi - x then lo
            else if hi - x <? x - lo then hi
            else if Z.even (x / p) then lo else hi)
  | true, false => Some lo
  | false, true => Some hi
  | false, false => None
  end.

(** The decimal with the fewest significant digits that reads back as
    [x]: [p] runs down the powers of ten, from one significant digit
    on. *)
Fixpoint shortestFrom (fuel : nat) (x p : Z) : Z :=
  match fuel with
  | O => x
  | S fuel' =>
      match candidate x p with
      | Some v => v
      | None => shortestFrom fuel' x (p / 10)
      end
  end.

Definition shortest (x : Z) : Z :=
  let places := (length (BigInt.toString 10 x) - 1)%nat in
  shortestFrom places x (10 ^ Z.of_nat places).

(** Number::toString for a positive [x]: the digits of the shortest
    decimal, in full up to 21 of them and in exponent form beyond. *)
Definition print (x : Z) : jsstring :=
  let digits := BigInt.toString 10 (shortest x) in
  let n := length digits in
  if (n <=? 21)%nat then digits
  else
    let exponent := str "e+" ++ BigInt.toString 10 (Z.of_nat n - 1) in
    match stripTrailing "0" digits with
    | [] => digits
    | [d] => d :: exponent
    | d :: rest => d :: "."%char :: rest ++ exponent
    end.

(** [String(x)], [x.toString()] and a template literal hole. *)
Definition toString (x : Z) : jsstring :=
  if x <? 0 then "-"%char :: print (- x) else print x.

End Number.

(** ** JavaScript values

    The values that reach the transport and the codec: arguments typed
    [unknown] and parsed JSON bodies.  A Number is integer-valued here
    (error codes, block numbers, ids), and an object is the list of its
    own properties in insertion order. *)

#[warnings="-register-all"]
Inductive JsValue : Type :=
| VUndefined
| VNull
| VBool (b : bool)
| VNumber (n : Z)
| VBigInt (n : Z)
| VString (s : jsstring)
| VArray (items : list JsValue)
| VObject (fields : list (jsstring * JsValue)).

Module Js.

(** [String(v)], also the conversion of a template literal hole. *)
Fixpoint toString (v : JsValue) : jsstring :=
  match v with
  | VUndefined => str "undefined"
  | VNull => str "null"
  | VBool true => str "true"
  | VBool false => str "false"
  | VNumber n => Number.toString n
  | VBigInt n => BigInt.toString 10 n
  | VString s => s
  | VArray items =>
      join (str ",")
           (map (fun x => match x with
                          | VUndefined | VNull => []
                          | _ => toString x
                          end) items)
  | VObject _ => str "[object Object]"
  end.

(** ToBoolean *)
Definition truthy (v : JsValue) : bool :=
  match v with
  | VUndefined | VNull => false
  | VBool b => b
  | VNumber n | VBigInt n => negb (n =? 0)
  | VString s => negb (eqb s [])
  | VArray _ | VObject _ => true
  end.

Fixpoint lookup (name : jsstring) (fields : list (jsstring * JsValue))
  : option JsValue :=
  match fields with
  | [] => None
  | (k, v) :: rest => if eqb k name then Some v else lookup name rest
  end.

(** The value read from an object: a missing property is [undefined]. *)
Definition field (fields : list (jsstring * JsValue)) (name : jsstring)
  : JsValue :=
  match lookup name fields with
  | Some x => x
  | None => VUndefined
  end.

(** What [v.name] reads for a data property name: a primitive has no
    such property. *)
Definition read (v : JsValue) (name : jsstring) : JsValue :=
  match v with
  | VObject fields => field fields name
  | _ => VUndefined
  end.

(** [v.name]: reading from [null] or [undefined] throws. *)
Definition getProp (v : JsValue) (name : jsstring) : result JsValue :=
  match v with
  | VUndefined =>
      Throw (TypeError (str "Cannot read properties of undefined (reading '"
                          ++ name ++ str "')"))
  | VNull =>
      Throw (TypeError (str "Cannot read properties of null (reading '"
                          ++ name ++ str "')"))
  | _ => Ok (read v name)
  end.

(** [v === s] for a string literal [s] *)
Definition isString (v : JsValue) (s : jsstring) : bool :=
  match v with
  | VString t => eqb t s
  | _ => false
  end.

(** [a || b] *)
Definition or (a b : JsValue) : JsValue := if truthy a then a else b.

(** [BigInt(v)] *)
Definition toBigInt (v : JsValue) : result Z :=
  match v with
  | VUndefined =>
      Throw (TypeError (str "Cannot convert undefined to a BigInt"))
  | VNull => Throw (TypeError (str "Cannot convert null to a BigInt"))
  | VBool b => Ok (if b then 1 else 0)
  | VNumber n | VBigInt n => Ok n
  | VString s => BigInt.fromString s
  | VArray _ | VObject _ => BigInt.fromString (toString v)
  end.

(** [obj.name = v] on the list of own properties. *)
Fixpoint setProp (name : jsstring) (v : jsstring)
         (fields : list (jsstring * jsstring)) : list (jsstring * jsstring) :=
  match fields with
  | [] => [(name, v)]
  | (k, x) :: rest =>
      if eqb k name then (k, v) :: rest else (k, x) :: setProp name v rest
  end.

End Js.

(** ** constants/celo.constants.ts and utils/types.ts *)

Record NetworkConfig : Type := {
  name : jsstring;
  chainId : Z;
  rpcUrl : jsstring;
  explorerUrl : jsstring;
  explorerApiUrl : jsstring
}.

(** The table is read at the values of [CeloNetwork], which the
    [network] option of the credential ranges over.  A name that the
    object literal inherits from [Object.prototype] ([constructor],
    [toString], ...) is no [CeloNetwork] and is not modelled: there the
    source finds a value without URLs where this table has none. *)
Definition CELO_NETWORKS (key : jsstring) : option NetworkConfig :=
  if eqb key (str "mainnet") then
    Some {| name := str "Celo Mainnet";
            chainId := 42220;
            rpcUrl := str "https://forno.celo.org";
            explorerUrl := str "https://celoscan.io";
            explorerApiUrl := str "https://api.celoscan.io/api" |}
  else if eqb key (str "alfajores") then
    Some {| name := str "Alfajores Testnet";
            chainId := 44787;
            rpcUrl := str "https://alfajores-forno.celo-testnet.org";
            explorerUrl := str "https://alfajores.celoscan.io";
            explorerApiUrl := str "https://api-alfajores.celoscan.io/api" |}
  else if eqb key (str "baklava") then
    Some {| name := str "Baklava Testnet";
            chainId := 62320;
            rpcUrl := str "https://baklava-forno.celo-testnet.org";
            explorerUrl := str "https://baklava-blockscout.celo-testnet.org";
            explorerApiUrl := str "https://baklava-blockscout.celo-testnet.org/api" |}
  else None.

Record CeloCredentials : Type := {
  network : jsstring;
  rpcEndpoint : option jsstring;
  privateKey : option jsstring;
  celoscanApiKey : option jsstring
}.

Record UnitConversion : Type := {
  wei : jsstring;
  gwei : jsstring;
  celo : jsstring
}.

(** An optional string property is falsy when absent or empty. *)
Definition present (o : option jsstring) : bool :=
  match o with
  | Some (_ :: _) => true
  | _ => false
  end.

(** ** The calling context

    [context.getCredentials], [context.helpers.httpRequest] and
    [Date.now] are supplied by the host.  A computation receives them
    and the log of the HTTP requests issued so far, and returns its
    outcome with the extended log. *)

Record HttpRequest : Type := {
  method : jsstring;
  url : jsstring;
  headers : list (jsstring * jsstring);
  qs : list (jsstring * jsstring);
  body : option JsValue;
  json : bool
}.

Record Context : Type := {
  getCredentials : jsstring -> CeloCredentials;
  httpRequest : HttpRequest -> result JsValue;
  now : Z
}.

Module Async.

Definition M (A : Type) : Type :=
  Context -> list HttpRequest -> result A * list HttpRequest.

Definition ret {A} (a : A) : M A := fun _ log => (Ok a, log).

Definition throw {A} (e : JsError) : M A := fun _ log => (Throw e, log).

Definition bind {A B} (m : M A) (k : A -> M B) : M B :=
  fun ctx log =>
    match m ctx log with
    | (Ok a, log') => k a ctx log'
    | (Throw e, log') => (Throw e, log')
    end.

Definition lift {A} (r : result A) : M A := fun _ log => (r, log).

Definition credentials (name : jsstring) : M CeloCredentials :=
  fun ctx log => (Ok (getCredentials ctx name), log).

Definition dateNow : M Z := fun ctx log => (Ok (now ctx), log).

(** One network round trip: the request is logged, then answered. *)
Definition request (req : HttpRequest) : M JsValue :=
  fun ctx log => (httpRequest ctx req, log ++ [req]).

(** Run from an empty log. *)
Definition run {A} (m : M A) (ctx : Context) : result A * list HttpRequest :=
  m ctx [].

End Async.

Declare Scope async_scope.
Delimit Scope async_scope with async.
Notation "x <- m ;; k" := (Async.bind m (fun x => k))
  (at level 61, m at next level, right associativity) : async_scope.

(** ** transport/celoClient.ts *)

Module CeloClient.

Definition getRpcUrl (credentials : CeloCredentials) : result jsstring :=
  let network := network credentials in
  if eqb network (str "custom") then
    if negb (present (rpcEndpoint credentials)) then
      Throw (Error (str "Custom network requires an RPC endpoint"))
    else
      Ok (match rpcEndpoint credentials with Some u => u | None => [] end)
  else
    match CELO_NETWORKS network with
    | None => Throw (Error (str "Unknown network: " ++ network))
    | Some networkConfig => Ok (rpcUrl networkConfig)
    end.

Definition getExplorerApiUrl (credentials : CeloCredentials) : result jsstring :=
  let network := network credentials in
  if eqb network (str "custom") || eqb network (str "baklava") then
    match CELO_NETWORKS network with
    | Some networkConfig => Ok (explorerApiUrl networkConfig)
    | None => Ok []
    end
  else
    match CELO_NETWORKS network with
    | None => Throw (Error (str "Unknown network: " ++ network))
    | Some networkConfig => Ok (explorerApiUrl networkConfig)
    end.

Open Scope async_scope.

Definition makeRpcCall (method : jsstring) (params : list JsValue)
  : Async.M JsValue :=
  credentials <- Async.credentials (str "celoApi") ;;
  rpcUrl <- Async.lift (getRpcUrl credentials) ;;
  id <- Async.dateNow ;;
  let body := VObject [ (str "jsonrpc", VString (str "2.0"));
                        (str "method", VString method);
                        (str "params", VArray params);
                        (str "id", VNumber id) ] in
  response <- Async.request
                (Build_HttpRequest
                   (str "POST") rpcUrl
                   [(str "Content-Type", str "application/json")]
                   [] (Some body) true) ;;
  error <- Async.lift (Js.getProp response (str "error")) ;;
  if Js.truthy error then
    message <- Async.lift (Js.getProp error (str "message")) ;;
    code <- Async.lift (Js.getProp error (str "code")) ;;
    Async.throw (Error (str "RPC Error: " ++ Js.toString message
                          ++ str " (code: " ++ Js.toString code ++ str ")"))
  else
    Async.lift (Js.getProp response (str "result")).

Definition makeExplorerCall (params : list (jsstring * jsstring))
  : Async.M JsValue :=
  credentials <- Async.credentials (str "celoApi") ;;
  explorerUrl <- Async.lift (getExplorerApiUrl credentials) ;;
  if eqb explorerUrl [] then
    Async.throw (Error (str "Explorer API not available for this network"))
  else
    let queryParams :=
      if present (celoscanApiKey credentials) then
        Js.setProp (str "apikey")
          (match celoscanApiKey credentials with Some k => k | None => [] end)
          params
      else params in
    response <- Async.request
                  (Build_HttpRequest
                     (str "GET") explorerUrl [] queryParams None true) ;;
    status <- Async.lift (Js.getProp response (str "status")) ;;
    message <- Async.lift (Js.getProp response (str "message")) ;;
    if Js.isString status (str "0")
       && negb (Js.isString message (str "No transactions found")) then
      result <- Async.lift (Js.getProp response (str "result")) ;;
      Async.throw (Error (str "Explorer API Error: "
                            ++ Js.toString (Js.or message result)))
    else
      Async.lift (Js.getProp response (str "result")).

Close Scope async_scope.

Definition padLeft (hex : jsstring) (length : nat) : jsstring :=
  padStart length "0" hex.

(** The body of the encoding loop for one parameter: the characters
    appended to [encoded].  [count] is [types.length].  A dynamic type
    only reserves the offset word; the hex of its payload is computed
    by the source and never used. *)
Definition encodeParameter (count : nat) (type : jsstring) (value : JsValue)
  : result jsstring :=
  if eqb type (str "address") then
    Ok (padLeft (replace (str "0x") [] (toLowerCase (Js.toString value))) 64)
  else if eqb type (str "uint256") || eqb type (str "uint") then
    let? n := Js.toBigInt value in
    let hex := BigInt.toString 16 n in
    Ok (padLeft hex 64)
  else if eqb type (str "bool") then
    Ok (padLeft (if Js.truthy value then str "1" else str "0") 64)
  else if eqb type (str "bytes32") then
    Ok (padLeft (replace (str "0x") [] (Js.toString value)) 64)
  else if eqb type (str "string") || eqb type (str "bytes") then
    let offset := Z.of_nat count * 32 in
    Ok (padLeft (BigInt.toString 16 offset) 64)
  else Ok [].

Fixpoint encodeFrom (count : nat) (types : list jsstring) (i : nat)
         (values : list JsValue) (encoded : jsstring) : result jsstring :=
  match types with
  | [] => Ok encoded
  | type :: rest =>
      let value := nth i values VUndefined in
      let? word := encodeParameter count type value in
      encodeFrom count rest (S i) values (encoded ++ word)
  end.

Definition encodeParameters (types : list jsstring) (values : list JsValue)
  : result jsstring :=
  encodeFrom (length types) types 0 values [].

Fixpoint decodeFrom (data : jsstring) (types : list jsstring) (offset : Z)
         (results : list JsValue) : result (list JsValue) :=
  match types with
  | [] => Ok results
  | type :: rest =>
      if eqb type (str "address") then
        decodeFrom data rest (offset + 64)
          (results ++ [VString (str "0x" ++ slice data (offset + 24) (offset + 64))])
      else if eqb type (str "uint256") || eqb type (str "uint") then
        let? n := BigInt.fromString (str "0x" ++ slice data offset (offset + 64)) in
        decodeFrom data rest (offset + 64)
          (results ++ [VString (BigInt.toString 10 n)])
      else if eqb type (str "bool") then
        decodeFrom data rest (offset + 64)
          (results ++ [VBool (eqb (slice data (offset + 63) (offset + 64)) (str "1"))])
      else if eqb type (str "bytes32") then
        decodeFrom data rest (offset + 64)
          (results ++ [VString (str "0x" ++ slice data offset (offset + 64))])
      else decodeFrom data rest offset results
  end.

Definition decodeResult (hexResult : jsstring) (types : list jsstring)
  : result (list JsValue) :=
  let data := replace (str "0x") [] hexResult in
  decodeFrom data types 0 [].

(** [value] is a decimal or prefixed string ([inl]) or a bigint ([inr]). *)
Definition formatUnits (value : jsstring + Z) (decimals : nat) : result jsstring :=
  let valueStr := match value with
                  | inr n => BigInt.toString 10 n
                  | inl s => s
                  end in
  let? valueBigInt := BigInt.fromString valueStr in
  if valueBigInt =? 0 then Ok (str "0")
  else
    let? divisor := BigInt.ofPow10 decimals in
    let integerPart := Z.quot valueBigInt divisor in
    let fractionalPart := Z.rem valueBigInt divisor in
    if fractionalPart =? 0 then Ok (BigInt.toString 10 integerPart)
    else
      let fractionalStr := padStart decimals "0" (BigInt.toString 10 fractionalPart) in
      let trimmedFractional := stripTrailing "0" fractionalStr in
      Ok (BigInt.toString 10 integerPart ++ str "." ++ trimmedFractional).

Definition parseUnits (value : jsstring) (decimals : nat) : result jsstring :=
  let parts := split "." value in
  let integerPart := hd [] parts in
  let fractionalPart := nth 1 parts [] in
  let paddedFractional :=
    slice (padEnd decimals "0" fractionalPart) 0 (Z.of_nat decimals) in
  let combined := integerPart ++ paddedFractional in
  let? n := BigInt.fromString combined in
  Ok (BigInt.toString 10 n).

End CeloClient.

(** ** utils/helpers.ts *)

Module Helpers.

Definition formatBigIntWithDecimals (value : Z) (decimals : nat) : result jsstring :=
  let? divisor := BigInt.ofPow10 decimals in
  let integerPart := Z.quot value divisor in
  let fractionalPart := Z.rem value divisor in
  if fractionalPart =? 0 then Ok (BigInt.toString 10 integerPart)
  else
    let fractionalStr := padStart decimals "0" (BigInt.toString 10 fractionalPart) in
    let trimmedFractional := stripTrailing "0" fractionalStr in
    Ok (BigInt.toString 10 integerPart ++ str "." ++ trimmedFractional).

Definition convertUnits (value : jsstring) (fromUnit : jsstring)
  : result UnitConversion :=
  let? valueBigInt := BigInt.fromString (hd [] (split "." value)) in
  let? weiValue :=
    if eqb fromUnit (str "wei") then Ok valueBigInt
    else if eqb fromUnit (str "gwei") then
      let? f := BigInt.ofPow10 9 in Ok (valueBigInt * f)
    else if eqb fromUnit (str "celo") then
      let? f := BigInt.ofPow10 18 in Ok (valueBigInt * f)
    else Throw (Error (str "Unknown unit: " ++ fromUnit)) in
  let? g := BigInt.ofPow10 9 in
  let? c := formatBigIntWithDecimals weiValue 18 in
  Ok {| wei := BigInt.toString 10 weiValue;
        gwei := BigInt.toString 10 (Z.quot weiValue g);
        celo := c |}.

Definition formatTokenAmount (value : jsstring) (decimals : nat) : jsstring :=
  if eqb value (str "0") || eqb value [] then str "0"
  else
    let paddedValue := padStart (decimals + 1) "0" value in
    let integerPart :=
      match slice paddedValue 0 (- Z.of_nat decimals) with
      | [] => str "0"
      | s => s
      end in
    let fractionalPart := sliceFrom paddedValue (- Z.of_nat decimals) in
    let trimmedFractional := stripTrailing "0" fractionalPart in
    if eqb trimmedFractional [] then integerPart
    else integerPart ++ str "." ++ trimmedFractional.

Definition decodeUint256 (hex : jsstring) : result jsstring :=
  let cleanHex := replace (str "0x") [] hex in
  let? n := BigInt.fromString (str "0x" ++ cleanHex) in
  Ok (BigInt.toString 10 n).

Definition decodeAddress (hex : jsstring) : jsstring :=
  let cleanHex := replace (str "0x") [] hex in
  str "0x" ++ toLowerCase (sliceFrom cleanHex (-40)).

Definition decodeBool (hex : jsstring) : bool :=
  let cleanHex := replace (str "0x") [] hex in
  eqb (sliceFrom cleanHex (-1)) (str "1").

End Helpers.

(** ** Vocabulary of the statements *)


(** The credentials the host hands out under the name [celoApi]. *)
Definition celoApi (ctx : Context) : CeloCredentials :=
  getCredentials ctx (str "celoApi").

(** Decimal digit strings and the number they denote. *)
Definition isDecimalDigit (c : ascii) : bool :=
  let n := Z.of_N (N_of_ascii c) in (48 <=? n) && (n <=? 57).

Definition decimalString (s : jsstring) : Prop :=
  Forall (fun c => isDecimalDigit c = true) s.

Definition valueFrom (radix : Z) (ds : list Z) (acc : Z) : Z :=
  fold_left (fun a d => a * radix + d) ds acc.

Definition digitOf (c : ascii) : Z := Z.of_N (N_of_ascii c) - 48.

Definition decValue (s : jsstring) : Z := valueFrom 10 (map digitOf s) 0.

(** A digit string without its leading zeros; the canonical numeral
    keeps one digit for zero. *)
Fixpoint dropZeros (s : jsstring) : jsstring :=
  match s with
  | c :: r => if Ascii.eqb c "0" then dropZeros r else s
  | [] => []
  end.

Definition canonical (s : jsstring) : jsstring :=
  match dropZeros s with
  | [] => str "0"
  | t => t
  end.

(** The characters of [x] before its first decimal point. *)
Fixpoint beforePoint (x : jsstring) : jsstring :=
  match x with
  | [] => []
  | c :: r => if Ascii.eqb c "." then [] else c :: beforePoint r
  end.

(** The number of wei in one unit. *)
Definition unitFactor (unit : jsstring) : option Z :=
  if eqb unit (str "wei") then Some 1
  else if eqb unit (str "gwei") then Some (10 ^ 9)
  else if eqb unit (str "celo") then Some (10 ^ 18)
  else None.

(** [10 ** d] is a finite Number other than [10^d]. *)
Definition inexactPow10 (d : nat) : bool :=
  match BigInt.numberPow10 d with
  | Some n => negb (n =? 10 ^ Z.of_nat d)
  | None => false
  end.

(** The integer and fraction digits [formatTokenAmount] cuts out of
    [value] at 18 decimals. *)
Definition integerDigits (value : jsstring) : jsstring :=
  let padded := padStart 19 "0" value in
  firstn (length padded - 18) padded.

Definition fractionDigits (value : jsstring) : jsstring :=
  let padded := padStart 19 "0" value in
  skipn (length padded - 18) padded.

(** ** The specification's reading of [formatUnits]

    Exact integer division and modulus against [10^decimals]: zero is
    the literal [0], a zero remainder gives the integer part alone, and
    otherwise the remainder is zero-padded to [decimals] digits and its
    trailing zeros are stripped. *)
Definition formatUnitsSpec (v : Z) (decimals : nat) : jsstring :=
  if v =? 0 then str "0"
  else
    let q := v / 10 ^ Z.of_nat decimals in
    let r := v mod 10 ^ Z.of_nat decimals in
    if r =? 0 then BigInt.toString 10 q
    else BigInt.toString 10 q ++ str "."
           ++ stripTrailing "0" (padStart decimals "0" (BigInt.toString 10 r)).

(** ** Sample inputs *)

Definition mainnetCredentials : CeloCredentials :=
  {| network := str "mainnet"; rpcEndpoint := None;
     privateKey := None; celoscanApiKey := None |}.

Definition customCredentials : CeloCredentials :=
  {| network := str "custom"; rpcEndpoint := None;
     privateKey := None; celoscanApiKey := None |}.

Definition hostAnswering (credentials : CeloCredentials) (response : JsValue)
  : Context :=
  {| getCredentials := fun _ => credentials;
     httpRequest := fun _ => Ok response;
     now := 1700000000000 |}.

(** The error envelope [{"jsonrpc":"2.0","id":1,"error":{"code":-32602,
    "message":"Invalid params"}}]. *)
Definition invalidParamsFields : list (jsstring * JsValue) :=
  [ (str "jsonrpc", VString (str "2.0")); (str "id", VNumber 1);
    (str "error", VObject [ (str "code", VNumber (-32602));
                            (str "message", VString (str "Invalid params")) ]) ].

(** A response with neither [result] nor [error]. *)
Definition bareFields : list (jsstring * JsValue) :=
  [ (str "jsonrpc", VString (str "2.0")); (str "id", VNumber 1) ].

(** The explorer's empty-result response. *)
Definition noTransactionsFields : list (jsstring * JsValue) :=
  [ (str "status", VString (str "0"));
    (str "message", VString (str "No transactions found"));
    (str "result", VArray []) ].

Definition word1 : jsstring :=
  str "0000000000000000000000000000000000000000000000000000000000000001".

Definition word3 : jsstring :=
  str "0x0000000000000000000000000000000000000000000000000000000000000003".

Definition upperAddressWord : jsstring :=
  str "0x000000000000000000000000ABCDEF1234567890ABCDEF1234567890ABCDEF12".

Definition paddedAmount : jsstring := str "01000000000000000000".

(** ** transport/celoClient.ts, the remaining functions *)

(** The character class [[a-fA-F0-9]]. *)
Definition isHexDigit (c : ascii) : bool :=
  let n := Z.of_N (N_of_ascii c) in
  ((97 <=? n) && (n <=? 102)) || ((65 <=? n) && (n <=? 70))
  || ((48 <=? n) && (n <=? 57)).

(** [/^0x[a-fA-F0-9]{k}$/.test(s)] *)
Definition matchesHexOfLength (k : nat) (s : jsstring) : bool :=
  startsWith (str "0x") s
  && (length (skipn 2 s) =? k)%nat
  && forallb isHexDigit (skipn 2 s).

Module CeloTransport.

Definition isValidAddress (address : jsstring) : bool :=
  matchesHexOfLength 40 address.

Definition isValidTransactionHash (hash : jsstring) : bool :=
  matchesHexOfLength 64 hash.

Section Digest.

(** [crypto.createHash('sha3-256').update(input).digest('hex')], taken
    from the host. *)
Variable sha3_256 : jsstring -> jsstring.

Definition keccak256 (input : jsstring) : jsstring :=
  let hash := sha3_256 input in
  str "0x" ++ hash.

Definition getFunctionSelector (functionName : jsstring)
           (paramTypes : list jsstring) : jsstring :=
  let signature :=
    functionName ++ str "(" ++ join (str ",") paramTypes ++ str ")" in
  slice (keccak256 signature) 0 10.

Definition encodeFunctionCall (functionName : jsstring)
           (types : list jsstring) (values : list JsValue) : result jsstring :=
  let functionSelector := getFunctionSelector functionName types in
  let? encodedParams := CeloClient.encodeParameters types values in
  Ok (functionSelector ++ encodedParams).

End Digest.

Open Scope async_scope.

(** The transaction is never inspected. *)
Definition signTransaction (transaction : JsValue) : Async.M jsstring :=
  credentials <- Async.credentials (str "celoApi") ;;
  if negb (present (privateKey credentials)) then
    Async.throw (Error (str "Private key is required for signing transactions"))
  else
    Async.throw
      (Error (str "Transaction signing requires additional setup. "
                ++ str "Please use a signing service or implement proper transaction signing.")).

Close Scope async_scope.

Definition estimateGas (transaction : JsValue) : Async.M JsValue :=
  CeloClient.makeRpcCall (str "eth_estimateGas") [transaction].

Definition getNonce (address : jsstring) : Async.M JsValue :=
  CeloClient.makeRpcCall (str "eth_getTransactionCount")
    [VString address; VString (str "latest")].

Definition getGasPrice : Async.M JsValue :=
  CeloClient.makeRpcCall (str "eth_gasPrice") [].

Definition getBlockNumber : Async.M JsValue :=
  CeloClient.makeRpcCall (str "eth_blockNumber") [].

(** [blockNumber] is a Number ([inl]) or a string ([inr]). *)
Definition getBlock (blockNumber : Z + jsstring) (includeTransactions : bool)
  : Async.M JsValue :=
  let blockParam := match blockNumber with
                    | inl n => str "0x" ++ BigInt.toString 16 n
                    | inr s => s
                    end in
  CeloClient.makeRpcCall (str "eth_getBlockByNumber")
    [VString blockParam; VBool includeTransactions].

Definition callContract (to data : jsstring) : Async.M JsValue :=
  CeloClient.makeRpcCall (str "eth_call")
    [VObject [(str "to", VString to); (str "data", VString data)];
     VString (str "latest")].

Definition getLogs (filter : JsValue) : Async.M JsValue :=
  CeloClient.makeRpcCall (str "eth_getLogs") [filter].

End CeloTransport.

(** ** utils/helpers.ts, the remaining functions *)

Module Utils.

(** [replace(/[^\d+]/g, '')] keeps the digits and the plus signs. *)
Definition normalizePhoneNumber (phoneNumber : jsstring) : jsstring :=
  let normalized :=
    filter (fun c => isDecimalDigit c || Ascii.eqb c "+") phoneNumber in
  if negb (startsWith (str "+") normalized) then
    if (length normalized =? 10)%nat then str "+1" ++ normalized
    else str "+" ++ normalized
  else normalized.

Definition parseTokenAmount (amount : jsstring) (decimals : nat) : jsstring :=
  let parts := split "." amount in
  let integerPart := hd [] parts in
  let fractionalPart := nth 1 parts [] in
  let paddedFractional :=
    slice (padEnd decimals "0" fractionalPart) 0 (Z.of_nat decimals) in
  let combined := integerPart ++ paddedFractional in
  match dropZeros combined with
  | [] => str "0"
  | t => t
  end.

Definition formatAddress (address : jsstring) : result jsstring :=
  if negb (matchesHexOfLength 40 address) then
    Throw (Error (str "Invalid address format: " ++ address))
  else Ok (toLowerCase address).

Definition truncateAddress (address : jsstring) (chars : nat) : jsstring :=
  slice address 0 (Z.of_nat chars + 2) ++ str "..."
    ++ sliceFrom address (- Z.of_nat chars).

(** [/^0x[a-fA-F0-9]*$/.test(value)] *)
Definition isHex (value : jsstring) : bool :=
  startsWith (str "0x") value && forallb isHexDigit (skipn 2 value).

Definition toHex (value : JsValue) : result jsstring :=
  match value with
  | VString s =>
      if startsWith (str "0x") s then Ok s
      else let? n := Js.toBigInt value in Ok (str "0x" ++ BigInt.toString 16 n)
  | _ => let? n := Js.toBigInt value in Ok (str "0x" ++ BigInt.toString 16 n)
  end.

Definition fromHex (hex : jsstring) : result Z := BigInt.fromString hex.

Section Digest.

Variable sha3_256 : jsstring -> jsstring.

Definition createFunctionSelector (signature : jsstring) : jsstring :=
  let hash := sha3_256 signature in
  str "0x" ++ slice hash 0 8.

(** The table of common function signatures. *)
Definition signatures (functionName : jsstring)
  : option (jsstring * list jsstring) :=
  if eqb functionName (str "balanceOf") then
    Some (str "balanceOf(address)", [str "address"])
  else if eqb functionName (str "transfer") then
    Some (str "transfer(address,uint256)", [str "address"; str "uint256"])
  else if eqb functionName (str "approve") then
    Some (str "approve(address,uint256)", [str "address"; str "uint256"])
  else if eqb functionName (str "allowance") then
    Some (str "allowance(address,address)", [str "address"; str "address"])
  else if eqb functionName (str "totalSupply") then
    Some (str "totalSupply()", [])
  else if eqb functionName (str "decimals") then Some (str "decimals()", [])
  else if eqb functionName (str "name") then Some (str "name()", [])
  else if eqb functionName (str "symbol") then Some (str "symbol()", [])
  else None.

(** Names every object literal inherits: the lookup finds a value that
    has no [sig], and hashing [undefined] throws. *)
Definition inheritedName (functionName : jsstring) : bool :=
  existsb (eqb functionName)
    [ str "constructor"; str "toString"; str "toLocaleString";
      str "valueOf"; str "hasOwnProperty"; str "isPrototypeOf";
      str "propertyIsEnumerable"; str "__proto__";
      str "__defineGetter__"; str "__defineSetter__";
      str "__lookupGetter__"; str "__lookupSetter__" ].

Fixpoint encodeDataFrom (types : list jsstring) (i : nat)
         (params : list JsValue) (encodedParams : jsstring) : result jsstring :=
  match types with
  | [] => Ok encodedParams
  | type :: rest =>
      let value := nth i params VUndefined in
      if eqb type (str "address") then
        encodeDataFrom rest (S i) params
          (encodedParams
             ++ padStart 64 "0"
                  (replace (str "0x") [] (toLowerCase (Js.toString value))))
      else if eqb type (str "uint256") then
        let? n := Js.toBigInt value in
        let hex := BigInt.toString 16 n in
        encodeDataFrom rest (S i) params (encodedParams ++ padStart 64 "0" hex)
      else encodeDataFrom rest (S i) params encodedParams
  end.

Definition encodeFunctionData (functionName : jsstring) (params : list JsValue)
  : result jsstring :=
  match signatures functionName with
  | None =>
      if inheritedName functionName then
        Throw (TypeError
          (str "The " ++ [ascii_of_N 34] ++ str "data" ++ [ascii_of_N 34]
             ++ str " argument must be of type string or an instance of Buffer, TypedArray, or DataView. Received undefined"))
      else Throw (Error (str "Unknown function: " ++ functionName))
  | Some (sig, types) =>
      let selector := createFunctionSelector sig in
      match types with
      | [] => Ok selector
      | _ =>
          let? encodedParams := encodeDataFrom types 0 params [] in
          Ok (selector ++ encodedParams)
      end
  end.

End Digest.

(** What a rejected promise carries: [None] is [undefined], the
    initial value of [lastError]. *)
Definition Thrown : Type := option JsError.

(** [fn i] is the outcome of the call of [fn] made in iteration [i];
    the delays passed to [sleep] are logged in order. *)
Fixpoint retryFrom {A} (fn : nat -> result A) (maxRetries : nat)
         (baseDelay : Z) (i remaining : nat) (lastError : Thrown)
         (slept : list Z) : (A + Thrown) * list Z :=
  match remaining with
  | O => (inr lastError, slept)
  | S remaining' =>
      match fn i with
      | Ok a => (inl a, slept)
      | Throw error =>
          let slept' :=
            if Z.of_nat i <? Z.of_nat maxRetries - 1
            then slept ++ [baseDelay * 2 ^ Z.of_nat i]
            else slept in
          retryFrom fn maxRetries baseDelay (S i) remaining' (Some error) slept'
      end
  end.

Definition retryWithBackoff {A} (fn : nat -> result A) (maxRetries : nat)
           (baseDelay : Z) : (A + Thrown) * list Z :=
  retryFrom fn maxRetries baseDelay 0 maxRetries None [].

Record HashedIdentifier : Type := {
  original : jsstring;
  hash : jsstring;
  pepper : option jsstring
}.

Section Sha256.

(** [crypto.createHash('sha256').update(data).digest('hex')], taken
    from the host. *)
Variable sha256 : jsstring -> jsstring.

Definition hashPhoneNumber (phoneNumber : jsstring)
           (pepper : option jsstring) : HashedIdentifier :=
  let normalized := normalizePhoneNumber phoneNumber in
  let data :=
    if present pepper
    then normalized ++ match pepper with Some p => p | None => [] end
    else normalized in
  let hash := sha256 data in
  {| original := phoneNumber; hash := str "0x" ++ hash; pepper := pepper |}.

End Sha256.

End Utils.

(** ** Vocabulary of the further statements *)

(** The delay slept after the failure of iteration [i]. *)
Definition backoffDelay (baseDelay : Z) (i : nat) : Z :=
  baseDelay * 2 ^ Z.of_nat i.

Definition totalDelay (slept : list Z) : Z := fold_right Z.add 0 slept.

(** The one request [makeRpcCall] sends. *)
Definition rpcRequest (rpcUrl method : jsstring) (params : list JsValue)
           (id : Z) : HttpRequest :=
  Build_HttpRequest (str "POST") rpcUrl
    [(str "Content-Type", str "application/json")] []
    (Some (VObject [ (str "jsonrpc", VString (str "2.0"));
                     (str "method", VString method);
                     (str "params", VArray params);
                     (str "id", VNumber id) ]))
    true.

(** The one request [makeExplorerCall] sends. *)
Definition explorerRequest (explorerUrl : jsstring)
           (queryParams : list (jsstring * jsstring)) : HttpRequest :=
  Build_HttpRequest (str "GET") explorerUrl [] queryParams None true.

(** The value a query carries under [name]. *)
Fixpoint queryValue (name : jsstring) (qs : list (jsstring * jsstring))
  : option jsstring :=
  match qs with
  | [] => None
  | (k, v) :: rest => if eqb k name then Some v else queryValue name rest
  end.

(** The characters a normalized phone number is made of. *)
Definition phoneChar (c : ascii) : bool := isDecimalDigit c || Ascii.eqb c "+".

(** A parameter on which the static encoder and decoder agree: its ABI
    type, the value supplied, and the value decoding gives back. *)
Inductive abiParam : jsstring -> JsValue -> JsValue -> Prop :=
| abiAddress (a : jsstring) :
    CeloTransport.isValidAddress a = true ->
    abiParam (str "address") (VString a) (VString (toLowerCase a))
| abiUint (type : jsstring) (value : JsValue) (v : Z) :
    type = str "uint256" \/ type = str "uint" ->
    Js.toBigInt value = Ok v -> 0 <= v < 2 ^ 256 ->
    abiParam type value (VString (BigInt.toString 10 v))
| abiBool (value : JsValue) :
    abiParam (str "bool") value (VBool (Js.truthy value))
| abiBytes32 (h : jsstring) :
    CeloTransport.isValidTransactionHash h = true ->
    abiParam (str "bytes32") (VString h) (VString h).

Definition paramType (p : jsstring * JsValue * JsValue) : jsstring :=
  fst (fst p).
Definition paramValue (p : jsstring * JsValue * JsValue) : JsValue :=
  snd (fst p).
Definition paramDecoded (p : jsstring * JsValue * JsValue) : JsValue :=
  snd p.

Definition wellFormedParam (p : jsstring * JsValue * JsValue) : Prop :=
  abiParam (paramType p) (paramValue p) (paramDecoded p).

(** The integer and fraction digits [formatTokenAmount] cuts out of
    [value] at [decimals] decimals. *)
Definition integerDigitsAt (decimals : nat) (value : jsstring) : jsstring :=
  let padded := padStart (decimals + 1) "0" value in
  firstn (length padded - decimals) padded.

Definition fractionDigitsAt (decimals : nat) (value : jsstring) : jsstring :=
  let padded := padStart (decimals + 1) "0" value in
  skipn (length padded - decimals) padded.

(** Amounts written with digits and decimal points only. *)
Definition amountChar (c : ascii) : Prop :=
  isDecimalDigit c = true \/ c = "."%char.

(** What [decodeResult] returns for each type on an empty payload. *)
Definition emptyDecoded (type : jsstring) : list JsValue :=
  if eqb type (str "address") then [VString (str "0x")]
  else if eqb type (str "bool") then [VBool false]
  else if eqb type (str "bytes32") then [VString (str "0x")]
  else [].

Definition isUintType (type : jsstring) : bool :=
  eqb type (str "uint256") || eqb type (str "uint").

(** ** Sample inputs, continued *)

Definition sampleAddress : jsstring :=
  str "0xABCDEF1234567890ABCDEF1234567890ABCDEF12".

Definition sampleHash : jsstring :=
  str "0x1234567890abcdef1234567890abcdef1234567890abcdef1234567890abcdef".

Definition sampleParams : list (jsstring * JsValue * JsValue) :=
  [ (str "address", VString sampleAddress, VString (toLowerCase sampleAddress));
    (str "uint256", VString (str "1000000000000000000"),
     VString (str "1000000000000000000"));
    (str "bool", VBool true, VBool true);
    (str "bytes32", VString sampleHash, VString sampleHash) ].

(** A call that fails twice and then succeeds. *)
Definition flakyCall (i : nat) : result Z :=
  match i with
  | 0%nat => Throw (Error (str "timeout"))
  | 1%nat => Throw (Error (str "busy"))
  | _ => Ok 42
  end.

Definition keyedCredentials : CeloCredentials :=
  {| network := str "mainnet"; rpcEndpoint := None;
     privateKey := None; celoscanApiKey := Some (str "KEY") |}.

(** A stand-in digest, for instances only. *)
Definition sampleDigest (input : jsstring) : jsstring :=
  str "70a08231b98ef4ca268c9cc3f6b4590e4bfec28280db06bb5d45e689f2a360be".

(** * Properties *)

(** ** Strings *)

Section StringFacts.

Lemma eqb_refl (s : jsstring) : eqb s s = true.
Proof.
  induction s as [|c s IH]; simpl; [reflexivity|].
  now rewrite Ascii.eqb_refl, IH.
Qed.

Lemma eqb_eq (a b : jsstring) : eqb a b = true <-> a = b.
Proof.
  split; [|intros ->; apply eqb_refl].
  revert b; induction a as [|x a IH]; intros [|y b]; simpl; try easy.
  rewrite andb_true_iff, Ascii.eqb_eq.
  intros [-> H]; f_equal; auto.
Qed.

Lemma eqb_neq (a b : jsstring) : eqb a b = false <-> a <> b.
Proof.
  rewrite <- eqb_eq. destruct (eqb a b); split; congruence.
Qed.



End StringFacts.

(** ** Numerals *)

Section Numerals.

Variable radix : Z.
Hypothesis radix_ge_2 : 2 <= radix.

Lemma digitsFuel_enough (f1 : nat) :
  forall (f2 : nat) (n : Z),
    0 <= n -> (1 <= f1)%nat -> (1 <= f2)%nat ->
    n < 2 ^ Z.of_nat f1 -> n < 2 ^ Z.of_nat f2 ->
    BigInt.digitsFuel f1 radix n = BigInt.digitsFuel f2 radix n.
Proof.
  induction f1 as [|f1 IH]; intros f2 n Hn H1 H2 B1 B2; [lia|].
  destruct f2 as [|f2]; [lia|]. simpl.
  destruct (Z.ltb_spec n radix) as [Hlt|Hge]; [reflexivity|].
  f_equal.
  rewrite Nat2Z.inj_succ, Z.pow_succ_r in B1, B2 by lia.
  assert (Hq : 1 <= n / radix)
    by (apply Z.div_le_lower_bound; lia).
  assert (Q1 : n / radix < 2 ^ Z.of_nat f1)
    by (apply Z.div_lt_upper_bound; nia).
  assert (Q2 : n / radix < 2 ^ Z.of_nat f2)
    by (apply Z.div_lt_upper_bound; nia).
  apply IH; try lia.
  - destruct f1; [simpl in Q1; lia | lia].
  - destruct f2; [simpl in Q2; lia | lia].
Qed.

Lemma digits_small (n : Z) : n < radix -> BigInt.digits radix n = [n].
Proof.
  intros H. unfold BigInt.digits. simpl.
  destruct (Z.ltb_spec n radix); [reflexivity | lia].
Qed.

Lemma digits_large (n : Z) :
  radix <= n ->
  BigInt.digits radix n = BigInt.digits radix (n / radix) ++ [n mod radix].
Proof.
  intros H. unfold BigInt.digits at 1. simpl.
  destruct (Z.ltb_spec n radix) as [|_]; [lia|].
  f_equal. unfold BigInt.digits.
  assert (Hq : 1 <= n / radix) by (apply Z.div_le_lower_bound; lia).
  pose proof (Z.log2_spec n ltac:(lia)) as [_ Hn].
  pose proof (Z.log2_spec (n / radix) ltac:(lia)) as [_ Hd].
  pose proof (Z.log2_nonneg n). pose proof (Z.log2_nonneg (n / radix)).
  assert (1 <= Z.log2 n)
    by (change 1 with (Z.log2 2); apply Z.log2_le_mono; lia).
  rewrite Z.pow_succ_r in Hn by lia.
  apply digitsFuel_enough; try lia.
  - rewrite Z2Nat.id by lia. apply Z.div_lt_upper_bound; nia.
  - rewrite Nat2Z.inj_succ, Z2Nat.id by lia. exact Hd.
Qed.

Lemma valueFrom_app (a b : list Z) (acc : Z) :
  valueFrom radix (a ++ b) acc = valueFrom radix b (valueFrom radix a acc).
Proof. unfold valueFrom. apply fold_left_app. Qed.

Lemma valueFrom_digits (n : Z) :
  0 <= n -> valueFrom radix (BigInt.digits radix n) 0 = n.
Proof.
  intros Hn. generalize Hn. pattern n. apply Z_lt_induction; [|exact Hn].
  clear n Hn. intros n IH Hn.
  destruct (Z_lt_le_dec n radix) as [Hs|Hl].
  - rewrite digits_small by lia. unfold valueFrom. simpl. lia.
  - rewrite digits_large, valueFrom_app by lia.
    rewrite IH.
    + unfold valueFrom. simpl.
      pose proof (Z.div_mod n radix ltac:(lia)). lia.
    + split; [apply Z.div_pos; lia | apply Z.div_lt; lia].
    + apply Z.div_pos; lia.
Qed.

Lemma digits_range (n : Z) :
  0 <= n -> Forall (fun d => 0 <= d < radix) (BigInt.digits radix n).
Proof.
  intros Hn. generalize Hn. pattern n. apply Z_lt_induction; [|exact Hn].
  clear n Hn. intros n IH Hn.
  destruct (Z_lt_le_dec n radix) as [Hs|Hl].
  - rewrite digits_small by lia. constructor; [lia | constructor].
  - rewrite digits_large by lia. apply Forall_app. split.
    + apply IH; [|apply Z.div_pos; lia].
      split; [apply Z.div_pos; lia | apply Z.div_lt; lia].
    + constructor; [apply Z.mod_pos_bound; lia | constructor].
Qed.

Lemma digits_length_le (k : nat) :
  forall n, 0 <= n < radix ^ Z.of_nat (S k) ->
            (length (BigInt.digits radix n) <= S k)%nat.
Proof.
  induction k as [|k IH]; intros n [Hn Hlt].
  - rewrite digits_small; simpl in *; lia.
  - destruct (Z_lt_le_dec n radix) as [Hs|Hl].
    + rewrite digits_small by lia. simpl. lia.
    + rewrite digits_large, length_app by lia. simpl.
      rewrite Nat2Z.inj_succ, Z.pow_succ_r in Hlt by lia.
      assert (n / radix < radix ^ Z.of_nat (S k))
        by (apply Z.div_lt_upper_bound; lia).
      assert (0 <= n / radix) by (apply Z.div_pos; lia).
      specialize (IH (n / radix) ltac:(lia)). lia.
Qed.


End Numerals.

(** ** Printing Numbers *)

Section Numbers.

Lemma roundToDouble_safe (v : Z) :
  0 <= v <= 2 ^ 53 -> BigInt.roundToDouble v = Some v.
Proof.
  intros [H0 H1]. unfold BigInt.roundToDouble. cbv zeta.
  destruct (Z.leb_spec (Z.log2 v - 52) 0) as [_|L]; [reflexivity|].
  assert (T : Z.log2 v <= 53)
    by (change 53 with (Z.log2 (2 ^ 53)); apply Z.log2_le_mono; exact H1).
  assert (E : Z.log2 v = 53) by lia.
  assert (P : 0 < v)
    by (destruct (Z.eq_dec v 0) as [->|]; [discriminate E | lia]).
  pose proof (Z.log2_spec v P) as [B _]. rewrite E in B.
  assert (v = 2 ^ 53) by lia. subst v. vm_compute. reflexivity.
Qed.

Lemma roundToDouble_large (v m : Z) :
  2 ^ 53 < v -> BigInt.roundToDouble v = Some m -> 2 ^ 53 <= m.
Proof.
  intros Hv. unfold BigInt.roundToDouble. cbv zeta.
  assert (T : 53 <= Z.log2 v)
    by (change 53 with (Z.log2 (2 ^ 53)); apply Z.log2_le_mono; lia).
  destruct (Z.leb_spec (Z.log2 v - 52) 0) as [L|_]; [lia|].
  pose proof (Z.log2_spec v ltac:(lia)) as [B _].
  set (e := Z.log2 v - 52) in *.
  assert (P : 2 ^ Z.log2 v = 2 ^ 52 * 2 ^ e)
    by (rewrite <- Z.pow_add_r by lia; f_equal; lia).
  assert (E2 : 2 <= 2 ^ e).
  { change 2 with (2 ^ 1) at 1. apply Z.pow_le_mono_r; lia. }
  assert (Q : 2 ^ 52 <= v / 2 ^ e)
    by (apply Z.div_le_lower_bound; lia).
  set (q := v / 2 ^ e) in *.
  set (q' := if v mod 2 ^ e <? 2 ^ (e - 1) then q
             else if 2 ^ (e - 1) <? v mod 2 ^ e then q + 1
                  else if Z.even q then q else q + 1).
  assert (Q' : q <= q') by (subst q'; repeat destruct (_ : bool); lia).
  destruct (q' * 2 ^ e <? 2 ^ 1024); [|discriminate].
  intros [= <-]. nia.
Qed.

Variable x : Z.
Hypothesis x_safe : 0 < x < 2 ^ 53.

Lemma candidate_safe (p v : Z) :
  0 <= p -> Number.candidate x p = Some v -> v = x.
Proof.
  intros Hp. unfold Number.candidate. cbv zeta.
  set (lo := x / p * p).
  assert (B : 0 <= lo <= x /\ (p = 0 \/ x < lo + p)).
  { subst lo. destruct (Z.eq_dec p 0) as [->|N].
    - rewrite Z.div_0_r. lia.
    - pose proof (Z.mul_div_le x p ltac:(lia)).
      pose proof (Z.mod_pos_bound x p ltac:(lia)).
      pose proof (Z.div_mod x p N).
      assert (0 <= x / p) by (apply Z.div_pos; lia).
      split; [nia | right; nia]. }
  destruct B as [[B0 B1] B2].
  assert (Lo : Number.readsAs lo x = (lo =? x))
    by (unfold Number.readsAs; now rewrite roundToDouble_safe by lia).
  assert (Hi : Number.readsAs (lo + p) x = false).
  { unfold Number.readsAs.
    destruct (Z_le_gt_dec (lo + p) (2 ^ 53)) as [S|S].
    - rewrite roundToDouble_safe by lia. apply Z.eqb_neq. lia.
    - destruct (BigInt.roundToDouble (lo + p)) as [m|] eqn:R; [|reflexivity].
      apply roundToDouble_large in R; [|lia]. apply Z.eqb_neq. lia. }
  rewrite Lo, Hi.
  destruct (Z.eqb_spec lo x); [|discriminate]. congruence.
Qed.

Lemma shortestFrom_safe (fuel : nat) :
  forall p, 0 <= p -> Number.shortestFrom fuel x p = x.
Proof.
  induction fuel as [|fuel IH]; intros p Hp; cbn [Number.shortestFrom].
  - reflexivity.
  - destruct (Number.candidate x p) as [v|] eqn:C.
    + now apply (candidate_safe p).
    + apply IH. apply Z.div_pos; lia.
Qed.

Lemma print_safe : Number.print x = BigInt.toString 10 x.
Proof.
  unfold Number.print, Number.shortest. cbv zeta.
  rewrite shortestFrom_safe by (apply Z.pow_nonneg; lia).
  assert (L : (length (BigInt.toString 10 x) <= 21)%nat).
  { unfold BigInt.toString. destruct (Z.ltb_spec x 0); [lia|].
    rewrite length_map. apply (digits_length_le 10 ltac:(lia) 20). lia. }
  apply Nat.leb_le in L. now rewrite L.
Qed.

End Numbers.

(** A safe integer prints all its digits. *)
Lemma toString_safe (n : Z) :
  Z.abs n < 2 ^ 53 -> Number.toString n = BigInt.toString 10 n.
Proof.
  intros H. unfold Number.toString.
  destruct (Z.ltb_spec n 0) as [N|N].
  - rewrite print_safe by lia. unfold BigInt.toString.
    destruct (Z.ltb_spec n 0); [|lia].
    destruct (Z.ltb_spec (- n) 0); [lia | reflexivity].
  - destruct (Z.eq_dec n 0) as [->|]; [reflexivity|].
    apply print_safe. lia.
Qed.

(** Beyond the safe integers a Number prints the digits that identify
    it, in exponent form from [10^21] on. *)
Lemma toString_large :
  Number.toString (2 ^ 64) = str "18446744073709552000"
  /\ Number.toString (10 ^ 21) = str "1e+21"
  /\ Number.toString (- 2 ^ 70) = str "-1.1805916207174113e+21".
Proof. repeat split; vm_compute; reflexivity. Qed.

(** ** The transports *)

Section Transport.

Variable ctx : Context.

Lemma getProp_truthy (v : JsValue) (name : jsstring) :
  Js.truthy v = true -> Js.getProp v name = Ok (Js.read v name).
Proof. destruct v; simpl; congruence. Qed.

Lemma makeRpcCall_unfold (method : jsstring) (params : list JsValue)
      (u : jsstring) (fields : list (jsstring * JsValue)) :
  CeloClient.getRpcUrl (celoApi ctx) = Ok u ->
  httpRequest ctx (rpcRequest u method params (now ctx))
  = Ok (VObject fields) ->
  fst (Async.run (CeloClient.makeRpcCall method params) ctx) =
    let error := Js.field fields (str "error") in
    if Js.truthy error then
      Throw (Error (str "RPC Error: "
                      ++ Js.toString (Js.read error (str "message"))
                      ++ str " (code: "
                      ++ Js.toString (Js.read error (str "code"))
                      ++ str ")"))
    else Ok (Js.field fields (str "result")).
Proof.
  intros Hu Hresp.
  unfold Async.run, CeloClient.makeRpcCall, Async.bind, Async.credentials,
    Async.lift, Async.dateNow, Async.request, Async.throw.
  fold (celoApi ctx). rewrite Hu.
  fold (rpcRequest u method params (now ctx)). rewrite Hresp.
  cbn [Js.getProp Js.read fst]. cbv zeta.
  destruct (Js.truthy (Js.field fields (str "error"))) eqn:E.
  - rewrite !(getProp_truthy _ _ E). reflexivity.
  - reflexivity.
Qed.


(** C1 (amended).  Whatever the host answers to other requests, when
    the answer to the request of the call is an object whose [error]
    field is an object with a string [message] and a numeric [code]
    that is a safe integer (below [2^53] in magnitude), the call fails
    with the error [RPC Error: <message> (code: <code>)], the message
    inserted verbatim and the code in decimal.  An answer whose [error]
    field is absent or falsy makes the call succeed with the [result]
    field: [null] when it is [null], and [undefined], not a failure,
    when it is absent. *)
Theorem makeRpcCall_response (method : jsstring) (params : list JsValue)
        (u : jsstring) (fields : list (jsstring * JsValue)) :
  CeloClient.getRpcUrl (celoApi ctx) = Ok u ->
  httpRequest ctx (rpcRequest u method params (now ctx))
  = Ok (VObject fields) ->
  let outcome := fst (Async.run (CeloClient.makeRpcCall method params) ctx) in
  (forall efields message code,
      Js.field fields (str "error") = VObject efields ->
      Js.field efields (str "message") = VString message ->
      Js.field efields (str "code") = VNumber code ->
      Z.abs code < 2 ^ 53 ->
      outcome = Throw (Error (str "RPC Error: " ++ message ++ str " (code: "
                                ++ BigInt.toString 10 code ++ str ")")))
  /\ (Js.truthy (Js.field fields (str "error")) = false ->
      outcome = Ok (Js.field fields (str "result")))
  /\ (Js.lookup (str "error") fields = None ->
      forall v, Js.lookup (str "result") fields = Some v -> outcome = Ok v)
  /\ (Js.lookup (str "error") fields = None ->
      Js.lookup (str "result") fields = None -> outcome = Ok VUndefined).
Proof.
  intros Hu Hresp outcome.
  pose proof (makeRpcCall_unfold method params u fields Hu Hresp) as E.
  fold outcome in E. cbv zeta in E.
  repeat split.
  - intros efields message code He Hm Hc Hs.
    rewrite E, He. cbn [Js.truthy Js.read]. rewrite Hm, Hc.
    cbn [Js.toString]. now rewrite toString_safe by exact Hs.
  - intros Hf. now rewrite E, Hf.
  - intros He v Hv. rewrite E. unfold Js.field. now rewrite He, Hv.
  - intros He Hv. rewrite E. unfold Js.field. now rewrite He, Hv.
Qed.


(** C8.  With the network key [custom] and no RPC endpoint in the
    credentials (absent or empty), [getRpcUrl] throws the
    configuration error and [makeRpcCall] fails with it while the log
    of HTTP requests is still empty. *)
Theorem makeRpcCall_custom_requires_endpoint
        (method : jsstring) (params : list JsValue) :
  network (celoApi ctx) = str "custom" ->
  rpcEndpoint (celoApi ctx) = None \/ rpcEndpoint (celoApi ctx) = Some [] ->
  CeloClient.getRpcUrl (celoApi ctx) =
    Throw (Error (str "Custom network requires an RPC endpoint"))
  /\ Async.run (CeloClient.makeRpcCall method params) ctx =
       (Throw (Error (str "Custom network requires an RPC endpoint")), []).
Proof.
  intros Hn He.
  assert (G : CeloClient.getRpcUrl (celoApi ctx) =
                Throw (Error (str "Custom network requires an RPC endpoint"))).
  { unfold CeloClient.getRpcUrl. rewrite Hn.
    destruct He as [-> | ->]; reflexivity. }
  split; [exact G|].
  unfold Async.run, CeloClient.makeRpcCall, Async.bind, Async.credentials,
    Async.lift.
  fold (celoApi ctx). now rewrite G.
Qed.

End Transport.

(** C1, witness: the error envelope of the specification's scenario. *)
Lemma makeRpcCall_response_witness :
  fst (Async.run (CeloClient.makeRpcCall (str "eth_call") [])
         (hostAnswering mainnetCredentials (VObject invalidParamsFields)))
  = Throw (Error (str "RPC Error: Invalid params (code: -32602)")).
Proof.
  refine (proj1 (makeRpcCall_response
                   (hostAnswering mainnetCredentials (VObject invalidParamsFields))
                   (str "eth_call") [] (str "https://forno.celo.org")
                   invalidParamsFields _ _)
                [ (str "code", VNumber (-32602));
                  (str "message", VString (str "Invalid params")) ]
                (str "Invalid params") (-32602) _ _ _ _).
  - reflexivity.
  - reflexivity.
  - reflexivity.
  - reflexivity.
  - reflexivity.
  - reflexivity.
Defined.

(** C1, counterexample: a response with neither [result] nor [error]
    does not fail; the call returns [undefined]. *)
Lemma makeRpcCall_neither_field_succeeds :
  Js.lookup (str "result") bareFields = None
  /\ Js.lookup (str "error") bareFields = None
  /\ fst (Async.run (CeloClient.makeRpcCall (str "eth_blockNumber") [])
            (hostAnswering mainnetCredentials (VObject bareFields)))
     = Ok VUndefined.
Proof. repeat split. Qed.


(** C8, witness: [custom] without an endpoint issues no request. *)
Lemma makeRpcCall_custom_requires_endpoint_witness :
  Async.run (CeloClient.makeRpcCall (str "eth_blockNumber") [])
            (hostAnswering customCredentials VNull)
  = (Throw (Error (str "Custom network requires an RPC endpoint")), []).
Proof.
  refine (proj2 (makeRpcCall_custom_requires_endpoint
                   (hostAnswering customCredentials VNull)
                   (str "eth_blockNumber") [] _ _)).
  - reflexivity.
  - left. reflexivity.
Defined.

(** ** Digit characters and parsing *)

Section Parsing.

Lemma digitVal_digitChar (d : Z) :
  0 <= d < 36 -> BigInt.digitVal (BigInt.digitChar d) = Some d.
Proof.
  intros H. rewrite <- (Z2Nat.id d) by lia.
  assert (K : (Z.to_nat d < 36)%nat) by lia.
  generalize dependent (Z.to_nat d). clear H d. intros k K.
  do 36 (destruct k as [|k]; [reflexivity|]). lia.
Qed.

Lemma parseDigitsFrom_app (radix : Z) (a b : jsstring) :
  forall acc,
    BigInt.parseDigitsFrom radix (a ++ b) acc =
      match BigInt.parseDigitsFrom radix a acc with
      | Some x => BigInt.parseDigitsFrom radix b x
      | None => None
      end.
Proof.
  induction a as [|c a IH]; intros acc; simpl; [reflexivity|].
  destruct (BigInt.digitVal c) as [d|]; [|reflexivity].
  destruct (d <? radix); [apply IH | reflexivity].
Qed.

Lemma parseDigitsFrom_digits (radix : Z) (ds : list Z) :
  radix <= 36 ->
  Forall (fun d => 0 <= d < radix) ds ->
  forall acc,
    BigInt.parseDigitsFrom radix (map BigInt.digitChar ds) acc
    = Some (valueFrom radix ds acc).
Proof.
  intros Hr H. induction H as [|d ds Hd _ IH]; intros acc; simpl.
  - reflexivity.
  - rewrite digitVal_digitChar by lia.
    destruct (Z.ltb_spec d radix); [|lia]. apply IH.
Qed.

Lemma digits_nonempty (radix n : Z) : BigInt.digits radix n <> [].
Proof.
  unfold BigInt.digits. simpl. destruct (n <? radix); [discriminate|].
  intros E. apply app_eq_nil in E. destruct E; discriminate.
Qed.

(** Parsing the digits printed for a non-negative integer gives the
    integer back, in every radix up to 36. *)
Lemma parseDigits_digits (radix n : Z) :
  2 <= radix <= 36 -> 0 <= n ->
  BigInt.parseDigits radix (map BigInt.digitChar (BigInt.digits radix n))
  = Some n.
Proof.
  intros Hr Hn. unfold BigInt.parseDigits.
  destruct (map BigInt.digitChar (BigInt.digits radix n)) eqn:E.
  - apply map_eq_nil in E. now apply digits_nonempty in E.
  - rewrite <- E, parseDigitsFrom_digits, valueFrom_digits; try lia.
    + reflexivity.
    + apply digits_range; lia.
Qed.

Lemma isDecimalDigit_spec (c : ascii) :
  isDecimalDigit c = true <-> 48 <= Z.of_N (N_of_ascii c) <= 57.
Proof.
  unfold isDecimalDigit. cbv zeta.
  rewrite andb_true_iff, !Z.leb_le. reflexivity.
Qed.

Lemma digitVal_decimal (c : ascii) :
  isDecimalDigit c = true ->
  BigInt.digitVal c = Some (Z.of_N (N_of_ascii c) - 48).
Proof.
  intros H. unfold BigInt.digitVal. cbv zeta.
  unfold isDecimalDigit in H. cbv zeta in H. now rewrite H.
Qed.

Lemma digitChar_decimal (c : ascii) :
  isDecimalDigit c = true ->
  BigInt.digitChar (Z.of_N (N_of_ascii c) - 48) = c.
Proof.
  intros H. apply isDecimalDigit_spec in H. unfold BigInt.digitChar.
  destruct (Z.ltb_spec (Z.of_N (N_of_ascii c) - 48) 10); [|lia].
  replace (48 + (Z.of_N (N_of_ascii c) - 48)) with (Z.of_N (N_of_ascii c))
    by lia.
  now rewrite N2Z.id, ascii_N_embedding.
Qed.

Lemma isDecimalDigit_digitChar (d : Z) :
  0 <= d < 10 -> isDecimalDigit (BigInt.digitChar d) = true.
Proof.
  intros H. rewrite <- (Z2Nat.id d) by lia.
  assert (K : (Z.to_nat d < 10)%nat) by lia.
  generalize dependent (Z.to_nat d). clear H d. intros k K.
  do 10 (destruct k as [|k]; [reflexivity|]). lia.
Qed.

Lemma decimalString_digits (n : Z) :
  0 <= n -> decimalString (map BigInt.digitChar (BigInt.digits 10 n)).
Proof.
  intros Hn. unfold decimalString. rewrite Forall_map.
  eapply Forall_impl; [|apply (digits_range 10); lia].
  intros d Hd. apply isDecimalDigit_digitChar. exact Hd.
Qed.

Lemma parseDigitsFrom_decimal (s : jsstring) :
  decimalString s ->
  forall acc,
    BigInt.parseDigitsFrom 10 s acc
    = Some (valueFrom 10 (map digitOf s) acc).
Proof.
  intros H. induction H as [|c s Hc _ IH]; intros acc; simpl; [reflexivity|].
  rewrite digitVal_decimal by exact Hc.
  apply isDecimalDigit_spec in Hc.
  destruct (Z.ltb_spec (Z.of_N (N_of_ascii c) - 48) 10); [|lia]. apply IH.
Qed.

Lemma decimal_not_whitespace (c : ascii) :
  isDecimalDigit c = true -> isWhiteSpace c = false.
Proof.
  intros H. apply isDecimalDigit_spec in H. unfold isWhiteSpace. cbv zeta.
  destruct (N.leb_spec 9 (N_of_ascii c)), (N.leb_spec (N_of_ascii c) 13),
    (N.eqb_spec (N_of_ascii c) 32), (N.eqb_spec (N_of_ascii c) 160);
    simpl; try reflexivity; lia.
Qed.

Lemma trimStart_head (c : ascii) (r : jsstring) :
  isWhiteSpace c = false -> trimStart (c :: r) = c :: r.
Proof. intros H. simpl. now rewrite H. Qed.

(** A string that neither starts nor ends with white space is its own
    trimmed form. *)
Lemma trim_fixed (s : jsstring) :
  isWhiteSpace (hd "0"%char s) = false ->
  isWhiteSpace (hd "0"%char (rev s)) = false ->
  trim s = s.
Proof.
  intros H1 H2. unfold trim.
  destruct s as [|c r]; [reflexivity|].
  rewrite trimStart_head by exact H1.
  destruct (rev (c :: r)) as [|x t] eqn:E.
  - apply (f_equal (@rev ascii)) in E. rewrite rev_involutive in E.
    discriminate.
  - rewrite trimStart_head by exact H2.
    rewrite <- E. apply rev_involutive.
Qed.

Lemma hd_decimal (s : jsstring) :
  decimalString s -> isDecimalDigit (hd "0"%char s) = true.
Proof. intros H. destruct H; [reflexivity | assumption]. Qed.

Lemma trim_decimal (s : jsstring) : decimalString s -> trim s = s.
Proof.
  intros H. apply trim_fixed; apply decimal_not_whitespace, hd_decimal.
  - exact H.
  - apply Forall_rev. exact H.
Qed.

Lemma radixPrefix_decimal (s : jsstring) :
  decimalString s -> BigInt.radixPrefix s = None.
Proof.
  intros H. destruct H as [|c0 r H0 H]; [reflexivity|].
  destruct H as [|c1 r H1 H]; [reflexivity|].
  unfold BigInt.radixPrefix.
  destruct (Ascii.eqb c0 "0"); [|reflexivity].
  repeat match goal with
         | |- context [Ascii.eqb c1 ?x] =>
             destruct (Ascii.eqb_spec c1 x) as [->|_]; [discriminate H1|]
         end.
  reflexivity.
Qed.

(** [BigInt(s)] of a string of decimal digits is the number the digits
    denote; the empty string is zero and leading zeros are allowed. *)
Lemma ofString_decimal (s : jsstring) :
  decimalString s -> BigInt.ofString s = Some (decValue s).
Proof.
  intros H. unfold BigInt.ofString. rewrite trim_decimal by exact H.
  cbv zeta. destruct s as [|c r] eqn:E; [reflexivity|].
  rewrite radixPrefix_decimal by exact H.
  assert (Hc : isDecimalDigit c = true) by (now inversion H).
  destruct (Ascii.eqb_spec c "-") as [->|_]; [discriminate Hc|].
  destruct (Ascii.eqb_spec c "+") as [->|_]; [discriminate Hc|].
  unfold BigInt.parseDigits. now rewrite parseDigitsFrom_decimal.
Qed.

Lemma fromString_decimal (s : jsstring) :
  decimalString s -> BigInt.fromString s = Ok (decValue s).
Proof.
  intros H. unfold BigInt.fromString. now rewrite ofString_decimal.
Qed.

End Parsing.

(** ** Decimal numerals *)

Section Decimal.

Lemma valueFrom_shift (radix : Z) (ds : list Z) :
  forall acc,
    valueFrom radix ds acc
    = acc * radix ^ Z.of_nat (length ds) + valueFrom radix ds 0.
Proof.
  induction ds as [|d ds IH]; intros acc.
  - unfold valueFrom. simpl. lia.
  - change (valueFrom radix (d :: ds) acc)
      with (valueFrom radix ds (acc * radix + d)).
    change (valueFrom radix (d :: ds) 0)
      with (valueFrom radix ds (0 * radix + d)).
    rewrite (IH (acc * radix + d)), (IH (0 * radix + d)).
    cbn [length]. rewrite Nat2Z.inj_succ, Z.pow_succ_r by lia. ring.
Qed.

Lemma decValue_app (a b : jsstring) :
  decValue (a ++ b) = decValue a * 10 ^ Z.of_nat (length b) + decValue b.
Proof.
  unfold decValue. rewrite map_app, valueFrom_app, valueFrom_shift.
  now rewrite length_map.
Qed.

Lemma decValue_snoc (s : jsstring) (c : ascii) :
  decValue (s ++ [c]) = decValue s * 10 + digitOf c.
Proof. rewrite decValue_app. unfold decValue, valueFrom. simpl. reflexivity. Qed.

Lemma decValue_cons (c : ascii) (s : jsstring) :
  decValue (c :: s) = digitOf c * 10 ^ Z.of_nat (length s) + decValue s.
Proof.
  change (c :: s) with ([c] ++ s). rewrite decValue_app.
  unfold decValue, valueFrom. simpl. reflexivity.
Qed.

Lemma digitOf_range (c : ascii) :
  isDecimalDigit c = true -> 0 <= digitOf c < 10.
Proof. intros H. apply isDecimalDigit_spec in H. unfold digitOf. lia. Qed.

Lemma digitOf_zero (c : ascii) : digitOf c = 0 <-> c = "0"%char.
Proof.
  unfold digitOf. split.
  - intros H. rewrite <- (ascii_N_embedding c).
    replace (N_of_ascii c) with 48%N by lia. reflexivity.
  - intros ->. reflexivity.
Qed.

Lemma digitChar_digitOf (c : ascii) :
  isDecimalDigit c = true -> BigInt.digitChar (digitOf c) = c.
Proof. apply digitChar_decimal. Qed.

Lemma decValue_bound (s : jsstring) :
  decimalString s -> 0 <= decValue s < 10 ^ Z.of_nat (length s).
Proof.
  intros H. induction H as [|c s Hc _ IH].
  - unfold decValue, valueFrom. simpl. lia.
  - rewrite decValue_cons. cbn [length].
    rewrite Nat2Z.inj_succ, Z.pow_succ_r by lia.
    pose proof (digitOf_range c Hc). nia.
Qed.

Lemma decValue_zeros (k : nat) : decValue (repeat "0"%char k) = 0.
Proof.
  induction k as [|k IH]; [reflexivity|].
  cbn [repeat]. rewrite decValue_cons, IH. reflexivity.
Qed.

Lemma decValue_padStart (k : nat) (s : jsstring) :
  decValue (padStart k "0" s) = decValue s.
Proof. unfold padStart. rewrite decValue_app, decValue_zeros. lia. Qed.

Lemma decimalString_app (a b : jsstring) :
  decimalString (a ++ b) <-> decimalString a /\ decimalString b.
Proof. apply Forall_app. Qed.

Lemma decimalString_zeros (k : nat) : decimalString (repeat "0"%char k).
Proof.
  unfold decimalString. apply Forall_forall. intros c Hc.
  apply repeat_spec in Hc. now subst.
Qed.

Lemma dropZeros_app (s t : jsstring) :
  dropZeros (s ++ t) =
    match dropZeros s with
    | [] => dropZeros t
    | r => r ++ t
    end.
Proof.
  induction s as [|c s IH]; simpl; [reflexivity|].
  destruct (Ascii.eqb c "0"); [exact IH | reflexivity].
Qed.

(** Printing the value of a digit string gives the string without its
    leading zeros, and the value is zero exactly when nothing is left. *)
Lemma toString_decValue (s : jsstring) :
  decimalString s ->
  BigInt.toString 10 (decValue s) = canonical s
  /\ (dropZeros s = [] <-> decValue s = 0).
Proof.
  induction s as [|c s IH] using rev_ind; intros H.
  - split; [reflexivity | split; reflexivity].
  - apply decimalString_app in H. destruct H as [Hs Hc].
    assert (Hd : isDecimalDigit c = true) by (now inversion Hc).
    destruct (IH Hs) as [IHp IHz]. clear IH.
    pose proof (decValue_bound s Hs) as [Hm _].
    pose proof (digitOf_range c Hd) as Hv.
    rewrite decValue_snoc, dropZeros_app. unfold canonical.
    rewrite dropZeros_app.
    assert (P : 0 <= decValue s * 10 + digitOf c) by lia.
    unfold BigInt.toString.
    destruct (Z.ltb_spec (decValue s * 10 + digitOf c) 0) as [|_]; [lia|].
    destruct (dropZeros s) as [|x t] eqn:E.
    + assert (M : decValue s = 0) by (now apply IHz).
      rewrite M. cbn [Z.mul Z.add].
      rewrite digits_small by lia.
      cbn [map]. rewrite digitChar_digitOf by exact Hd.
      cbn [dropZeros].
      destruct (Ascii.eqb_spec c "0") as [->|Hne].
      * split; [reflexivity | split; reflexivity].
      * split; [reflexivity|].
        split; [discriminate|]. intros Z0.
        exfalso. apply Hne. apply digitOf_zero. exact Z0.
    + assert (M : decValue s <> 0).
      { intros M. apply IHz in M. discriminate. }
      rewrite digits_large by lia.
      replace ((decValue s * 10 + digitOf c) / 10) with (decValue s)
        by (apply Z.div_unique with (r := digitOf c); lia).
      replace ((decValue s * 10 + digitOf c) mod 10) with (digitOf c)
        by (apply Z.mod_unique with (q := decValue s); lia).
      rewrite map_app. cbn [map].
      rewrite digitChar_digitOf by exact Hd.
      unfold BigInt.toString, canonical in IHp.
      destruct (Z.ltb_spec (decValue s) 0) as [|_]; [lia|].
      rewrite IHp, E. cbn [app].
      split; [reflexivity | split; [discriminate | lia]].
Qed.

Lemma dropZeros_decompose (s : jsstring) :
  s = repeat "0"%char (length s - length (dropZeros s)) ++ dropZeros s.
Proof.
  induction s as [|c s IH]; [reflexivity|]. cbn [dropZeros].
  destruct (Ascii.eqb_spec c "0") as [->|Hne].
  - cbn [length].
    assert (length (dropZeros s) <= length s)%nat.
    { clear IH. induction s as [|x s IHs]; simpl; [lia|].
      destruct (Ascii.eqb x "0"); simpl; lia. }
    replace (S (length s) - length (dropZeros s))%nat
      with (S (length s - length (dropZeros s))) by lia.
    cbn [repeat app]. f_equal. exact IH.
  - cbn [length]. now rewrite Nat.sub_diag.
Qed.

Lemma repeat_snoc {A} (x : A) (k : nat) : repeat x k ++ [x] = repeat x (S k).
Proof. induction k as [|k IH]; simpl; [reflexivity | now rewrite IH]. Qed.

(** Zero-padding the canonical numeral back to the original width
    restores the digit string. *)
Lemma padStart_canonical (s : jsstring) :
  s <> [] -> padStart (length s) "0" (canonical s) = s.
Proof.
  intros Hne. unfold padStart, canonical.
  pose proof (dropZeros_decompose s) as D.
  destruct (dropZeros s) as [|x t] eqn:E.
  - simpl in D. rewrite app_nil_r, Nat.sub_0_r in D.
    destruct s as [|c r]; [congruence|].
    cbn [length str list_ascii_of_string].
    replace (S (length r) - 1)%nat with (length r) by lia.
    rewrite repeat_snoc. symmetry. exact D.
  - symmetry. exact D.
Qed.

Lemma stripTrailing_nil (s : jsstring) :
  stripTrailing "0" s = [] <-> dropZeros s = [].
Proof.
  induction s as [|c s IH]; simpl; [tauto|].
  destruct (Ascii.eqb_spec c "0") as [->|Hne].
  - rewrite <- IH. destruct (stripTrailing "0" s); split; congruence.
  - destruct (stripTrailing "0" s); split; discriminate.
Qed.

End Decimal.

(** ** Slices *)

Section Slices.

Lemma relIndex_of_nat (len i : nat) :
  (i <= len)%nat -> relIndex len (Z.of_nat i) = i.
Proof.
  intros H. unfold relIndex.
  destruct (Z.ltb_spec (Z.of_nat i) 0); lia.
Qed.

Lemma relIndex_zero (len : nat) : relIndex len 0 = 0%nat.
Proof. unfold relIndex. cbn [Z.ltb Z.compare]. lia. Qed.

Lemma relIndex_from_end (len k : nat) :
  (0 < k <= len)%nat -> relIndex len (- Z.of_nat k) = (len - k)%nat.
Proof.
  intros H. unfold relIndex.
  destruct (Z.ltb_spec (- Z.of_nat k) 0); lia.
Qed.

Lemma slice_between (s : jsstring) (i j : nat) :
  (i <= j <= length s)%nat ->
  slice s (Z.of_nat i) (Z.of_nat j) = firstn (j - i) (skipn i s).
Proof.
  intros H. unfold slice. now rewrite !relIndex_of_nat by lia.
Qed.

Lemma slice_before_end (s : jsstring) (k : nat) :
  (0 < k <= length s)%nat ->
  slice s 0 (- Z.of_nat k) = firstn (length s - k) s.
Proof.
  intros H. unfold slice.
  rewrite relIndex_zero, relIndex_from_end by lia.
  now rewrite Nat.sub_0_r.
Qed.

Lemma sliceFrom_end (s : jsstring) (k : nat) :
  (0 < k <= length s)%nat ->
  sliceFrom s (- Z.of_nat k) = skipn (length s - k) s.
Proof.
  intros H. unfold sliceFrom, slice.
  rewrite relIndex_of_nat, relIndex_from_end by lia.
  apply firstn_all2. rewrite length_skipn. lia.
Qed.

Lemma replace_prefix (p s : jsstring) : replace p [] (p ++ s) = s.
Proof.
  assert (P : startsWith p (p ++ s) = true).
  { induction p as [|c p IH]; simpl; [reflexivity|].
    now rewrite Ascii.eqb_refl. }
  destruct (p ++ s) eqn:E; simpl; rewrite P; simpl.
  - destruct p; [|discriminate]. simpl in *. now subst.
  - rewrite <- E. now rewrite skipn_app, skipn_all, Nat.sub_diag.
Qed.

End Slices.

(** ** Powers of ten *)

Section PowersOfTen.

(** [10 ** d] is an exact Number for every [d] up to 22. *)
Lemma ofPow10_exact (d : nat) :
  (d <= 22)%nat -> BigInt.ofPow10 d = Ok (10 ^ Z.of_nat d).
Proof.
  intros H. do 23 (destruct d as [|d]; [reflexivity|]). lia.
Qed.

Lemma inexactPow10_23_308 : forallb inexactPow10 (seq 23 286) = true.
Proof. vm_compute. reflexivity. Qed.

(** From 309 decimals on, [10 ** d] overflows to [Infinity]. *)
Lemma numberPow10_overflow (d : nat) :
  (309 <= d)%nat -> BigInt.numberPow10 d = None.
Proof.
  intros H. unfold BigInt.numberPow10, BigInt.roundToDouble.
  set (n := 10 ^ Z.of_nat d).
  assert (B : 2 ^ 1024 <= n).
  { apply Z.le_trans with (10 ^ 309).
    - apply Z.leb_le. vm_compute. reflexivity.
    - apply Z.pow_le_mono_r; lia. }
  assert (P1024 : 0 < 2 ^ 1024) by (apply Z.pow_pos_nonneg; lia).
  assert (L : 1024 <= Z.log2 n).
  { rewrite <- (Z.log2_pow2 1024) by lia. apply Z.log2_le_mono. exact B. }
  pose proof (Z.log2_spec n ltac:(lia)) as [Lo _].
  cbv zeta. set (e := Z.log2 n - 52) in *.
  destruct (Z.leb_spec e 0) as [|_]; [lia|].
  assert (Pe : 0 < 2 ^ e) by (apply Z.pow_pos_nonneg; lia).
  assert (Q : 2 ^ 52 <= n / 2 ^ e).
  { apply Z.div_le_lower_bound; [exact Pe|].
    rewrite Z.mul_comm, <- Z.pow_add_r by lia.
    replace (52 + e) with (Z.log2 n) by lia. exact Lo. }
  set (q' := if n mod 2 ^ e <? 2 ^ (e - 1) then n / 2 ^ e
             else if 2 ^ (e - 1) <? n mod 2 ^ e then n / 2 ^ e + 1
                  else if Z.even (n / 2 ^ e) then n / 2 ^ e
                       else n / 2 ^ e + 1).
  assert (Q' : 2 ^ 52 <= q').
  { unfold q'. repeat match goal with
                      | |- context [if ?b then _ else _] => destruct b
                      end; lia. }
  assert (M : 2 ^ 1024 <= q' * 2 ^ e).
  { apply Z.le_trans with (2 ^ 52 * 2 ^ e).
    - rewrite <- Z.pow_add_r by lia.
      apply Z.pow_le_mono_r; lia.
    - apply Z.mul_le_mono_nonneg_r; lia. }
  destruct (Z.ltb_spec (q' * 2 ^ e) (2 ^ 1024)); [lia | reflexivity].
Qed.

(** The divisor [BigInt(10 ** d)] is [10^d] exactly for [d] up to 22
    and for no larger [d]. *)
Lemma ofPow10_exact_iff (d : nat) :
  BigInt.ofPow10 d = Ok (10 ^ Z.of_nat d) <-> (d <= 22)%nat.
Proof.
  split; [|apply ofPow10_exact].
  intros E. destruct (Nat.le_gt_cases d 22) as [|G]; [assumption|exfalso].
  unfold BigInt.ofPow10 in E.
  destruct (Nat.le_gt_cases 309 d) as [O|I].
  - rewrite numberPow10_overflow in E by exact O. discriminate.
  - pose proof inexactPow10_23_308 as F. rewrite forallb_forall in F.
    specialize (F d). rewrite in_seq in F. specialize (F ltac:(lia)).
    unfold inexactPow10 in F.
    destruct (BigInt.numberPow10 d) as [n|]; [|discriminate].
    injection E as ->. rewrite Z.eqb_refl in F. discriminate.
Qed.

Lemma ofString_toString (n : Z) :
  BigInt.ofString (BigInt.toString 10 n) = Some n.
Proof.
  unfold BigInt.toString. destruct (Z.ltb_spec n 0) as [Hneg|Hpos].
  - pose proof (decimalString_digits (- n) ltac:(lia)) as D.
    pose proof (parseDigits_digits 10 (- n) ltac:(lia) ltac:(lia)) as P.
    set (s := map BigInt.digitChar (BigInt.digits 10 (- n))) in *.
    assert (Hs : s <> []).
    { intros E. apply map_eq_nil in E. now apply digits_nonempty in E. }
    unfold BigInt.ofString.
    rewrite trim_fixed.
    + cbv zeta.
      assert (R : BigInt.radixPrefix ("-"%char :: s) = None)
        by (destruct s; reflexivity).
      rewrite R. cbn [Ascii.eqb Bool.eqb]. rewrite P. simpl. f_equal. lia.
    + reflexivity.
    + cbn [rev]. apply Forall_rev in D.
      destruct (rev s) as [|x t] eqn:E.
      * apply (f_equal (@rev ascii)) in E. rewrite rev_involutive in E.
        contradiction.
      * cbn [app hd]. apply decimal_not_whitespace. now inversion D.
  - pose proof (decimalString_digits n ltac:(lia)) as D.
    pose proof (parseDigits_digits 10 n ltac:(lia) ltac:(lia)) as P.
    set (s := map BigInt.digitChar (BigInt.digits 10 n)) in *.
    assert (Hs : s <> []).
    { intros E. apply map_eq_nil in E. now apply digits_nonempty in E. }
    rewrite ofString_decimal by exact D.
    unfold BigInt.parseDigits in P. destruct s as [|c r]; [contradiction|].
    rewrite parseDigitsFrom_decimal in P by exact D. exact P.
Qed.

Lemma fromString_toString (n : Z) :
  BigInt.fromString (BigInt.toString 10 n) = Ok n.
Proof. unfold BigInt.fromString. now rewrite ofString_toString. Qed.

End PowersOfTen.

(** ** Formatting base units *)

Section UnitFormatting.

(** Up to 22 decimals the divisor is exact and [formatUnits] computes
    what exact arithmetic prescribes. *)
Lemma formatUnits_exact (v : Z) (d : nat) :
  0 <= v -> (d <= 22)%nat ->
  CeloClient.formatUnits (inr v) d = Ok (formatUnitsSpec v d).
Proof.
  intros Hv Hd. unfold CeloClient.formatUnits, formatUnitsSpec.
  rewrite fromString_toString. cbn [rbind].
  destruct (v =? 0); [reflexivity|].
  rewrite ofPow10_exact by exact Hd. cbn [rbind]. cbv zeta.
  assert (0 < 10 ^ Z.of_nat d) by (apply Z.pow_pos_nonneg; lia).
  rewrite Z.quot_div_nonneg, Z.rem_mod_nonneg by lia.
  destruct (v mod 10 ^ Z.of_nat d =? 0); reflexivity.
Qed.

Lemma formatUnits_decimal (s : jsstring) (d : nat) :
  decimalString s -> (d <= 22)%nat ->
  CeloClient.formatUnits (inl s) d = Ok (formatUnitsSpec (decValue s) d).
Proof.
  intros Hs Hd.
  pose proof (decValue_bound s Hs) as [Hv _].
  rewrite <- (formatUnits_exact (decValue s) d Hv Hd).
  unfold CeloClient.formatUnits.
  now rewrite fromString_toString, fromString_decimal.
Qed.

Lemma length_padStart (k : nat) (c : ascii) (s : jsstring) :
  length (padStart k c s) = Nat.max k (length s).
Proof. unfold padStart. rewrite length_app, repeat_length. lia. Qed.

Lemma decimalString_padStart (k : nat) (s : jsstring) :
  decimalString s -> decimalString (padStart k "0" s).
Proof.
  intros H. unfold padStart. apply decimalString_app.
  split; [apply decimalString_zeros | exact H].
Qed.

Lemma canonical_single (c : ascii) : canonical [c] = [c].
Proof.
  unfold canonical. cbn [dropZeros].
  destruct (Ascii.eqb_spec c "0") as [->|]; reflexivity.
Qed.

Lemma canonical_nonzero_head (s : jsstring) :
  s <> [] -> hd "1"%char s <> "0"%char -> canonical s = s.
Proof.
  intros Hne Hh. destruct s as [|c r]; [contradiction|].
  unfold canonical. cbn [dropZeros]. cbn [hd] in Hh.
  destruct (Ascii.eqb_spec c "0"); [contradiction | reflexivity].
Qed.

Lemma all_zeros_of_value (s : jsstring) :
  decimalString s -> decValue s = 0 -> s = repeat "0"%char (length s).
Proof.
  intros D Z0. apply (toString_decValue s D) in Z0.
  pose proof (dropZeros_decompose s) as E.
  rewrite Z0, app_nil_r in E. cbn [length] in E.
  now rewrite Nat.sub_0_r in E.
Qed.

Lemma length_fractionDigits (v : jsstring) : length (fractionDigits v) = 18%nat.
Proof.
  unfold fractionDigits. cbv zeta.
  rewrite length_skipn, length_padStart. lia.
Qed.

Lemma length_integerDigits (v : jsstring) :
  length (integerDigits v) = (Nat.max 19 (length v) - 18)%nat.
Proof.
  unfold integerDigits. cbv zeta.
  rewrite length_firstn, length_padStart. lia.
Qed.

Lemma integerDigits_nonempty (v : jsstring) : integerDigits v <> [].
Proof.
  intros E. pose proof (length_integerDigits v) as L.
  rewrite E in L. cbn [length] in L. lia.
Qed.

Lemma digits_split (v : jsstring) :
  padStart 19 "0" v = integerDigits v ++ fractionDigits v.
Proof. symmetry. apply firstn_skipn. Qed.

Lemma decValue_split (v : jsstring) :
  decimalString v ->
  decimalString (integerDigits v) /\ decimalString (fractionDigits v)
  /\ decValue v / 10 ^ Z.of_nat 18 = decValue (integerDigits v)
  /\ decValue v mod 10 ^ Z.of_nat 18 = decValue (fractionDigits v).
Proof.
  intros D.
  assert (Dp : decimalString (padStart 19 "0" v))
    by now apply decimalString_padStart.
  rewrite digits_split in Dp. apply decimalString_app in Dp.
  destruct Dp as [DA DB].
  pose proof (decValue_bound _ DA) as [PA _].
  pose proof (decValue_bound _ DB) as PB.
  rewrite length_fractionDigits in PB.
  assert (V : decValue v = decValue (integerDigits v) * 10 ^ Z.of_nat 18
                           + decValue (fractionDigits v)).
  { rewrite <- (decValue_padStart 19 v), digits_split, decValue_app,
      length_fractionDigits. reflexivity. }
  repeat split; try assumption.
  - symmetry.
    apply Z.div_unique with (r := decValue (fractionDigits v)); lia.
  - symmetry.
    apply Z.mod_unique with (q := decValue (integerDigits v)); lia.
Qed.

(** The helper concatenates the digits it cut out. *)
Lemma formatTokenAmount_parts (v : jsstring) :
  v <> str "0" -> v <> [] ->
  Helpers.formatTokenAmount v 18 =
    if eqb (stripTrailing "0" (fractionDigits v)) []
    then integerDigits v
    else integerDigits v ++ str "." ++ stripTrailing "0" (fractionDigits v).
Proof.
  intros N0 N1. unfold Helpers.formatTokenAmount.
  apply eqb_neq in N0. apply eqb_neq in N1. rewrite N0, N1.
  cbn [orb]. cbv zeta.
  change (padStart (18 + 1) "0" v) with (padStart 19 "0" v).
  assert (L : (18 <= length (padStart 19 "0" v))%nat)
    by (rewrite length_padStart; lia).
  rewrite slice_before_end, sliceFrom_end by lia.
  fold (integerDigits v). fold (fractionDigits v).
  pose proof (integerDigits_nonempty v) as NA.
  destruct (integerDigits v); [contradiction | reflexivity].
Qed.

(** Exact arithmetic prints the same digits, the integer ones without
    leading zeros. *)
Lemma formatUnitsSpec_parts (v : jsstring) :
  decimalString v -> decValue v <> 0 ->
  formatUnitsSpec (decValue v) 18 =
    if eqb (stripTrailing "0" (fractionDigits v)) []
    then canonical (integerDigits v)
    else canonical (integerDigits v) ++ str "."
           ++ stripTrailing "0" (fractionDigits v).
Proof.
  intros D NZ. unfold formatUnitsSpec.
  destruct (Z.eqb_spec (decValue v) 0) as [|_]; [contradiction|].
  destruct (decValue_split v D) as (DA & DB & Q & R).
  cbv zeta. rewrite Q, R.
  destruct (toString_decValue _ DA) as [TA _].
  destruct (toString_decValue _ DB) as [TB ZB].
  rewrite TA, TB.
  destruct (Z.eqb_spec (decValue (fractionDigits v)) 0) as [B0|BN].
  - apply ZB, stripTrailing_nil in B0. now rewrite B0.
  - assert (S : stripTrailing "0" (fractionDigits v) <> []).
    { intros S. apply stripTrailing_nil, ZB in S. contradiction. }
    apply eqb_neq in S. rewrite S.
    rewrite <- (length_fractionDigits v) at 1.
    rewrite padStart_canonical; [reflexivity|].
    intros N. pose proof (length_fractionDigits v) as L.
    rewrite N in L. discriminate.
Qed.

Lemma hd_integerDigits (v : jsstring) :
  (19 < length v)%nat -> hd "1"%char (integerDigits v) = hd "1"%char v.
Proof.
  intros G. unfold integerDigits, padStart. cbv zeta.
  replace (19 - length v)%nat with 0%nat by lia. cbn [repeat app].
  destruct v as [|c r]; [simpl in G; lia|].
  cbn [length] in G |- *.
  replace (S (length r) - 18)%nat with (S (length r - 18)) by lia.
  reflexivity.
Qed.

Lemma length_dropZeros (s : jsstring) :
  (length (dropZeros s) <= length s)%nat.
Proof.
  induction s as [|c s IH]; cbn [dropZeros length]; [lia|].
  destruct (Ascii.eqb c "0"); cbn [length]; lia.
Qed.

(** A numeral of two or more digits that starts with 0 is not
    canonical. *)
Lemma canonical_shorter (s : jsstring) :
  (2 <= length s)%nat -> hd "1"%char s = "0"%char ->
  (length (canonical s) < length s)%nat.
Proof.
  intros L H. destruct s as [|c r]; [simpl in L; lia|].
  cbn [hd] in H. subst c. unfold canonical. cbn [dropZeros Ascii.eqb Bool.eqb].
  pose proof (length_dropZeros r). cbn [length] in L |- *.
  destruct (dropZeros r); cbn [length str list_ascii_of_string] in *; lia.
Qed.

(** C9 (amended).  On a string of decimal digits that is at most 19
    characters long (the empty string included) or does not start with
    the digit 0, [formatUnits] of the transport module and
    [formatTokenAmount] of the helpers return the same string at 18
    decimals. *)
Theorem formatUnits_formatTokenAmount (v : jsstring) :
  decimalString v ->
  (length v <= 19)%nat \/ hd "1"%char v <> "0"%char ->
  CeloClient.formatUnits (inl v) 18 = Ok (Helpers.formatTokenAmount v 18).
Proof.
  intros D C. rewrite formatUnits_decimal by (auto; lia). f_equal.
  destruct (Z.eq_dec (decValue v) 0) as [Z0|NZ].
  - pose proof (all_zeros_of_value v D Z0) as E.
    assert (L : (length v <= 19)%nat).
    { destruct C as [C|C]; [exact C|].
      destruct v as [|c r]; [simpl; lia|].
      cbn [length repeat] in E. injection E as -> _. now elim C. }
    rewrite Z0, E. revert L. generalize (length v). intros k L.
    do 20 (destruct k as [|k]; [reflexivity|]). lia.
  - rewrite formatUnitsSpec_parts by assumption.
    rewrite formatTokenAmount_parts by (intros ->; now elim NZ).
    assert (CA : canonical (integerDigits v) = integerDigits v).
    { destruct (Nat.le_gt_cases (length v) 19) as [Le|Gt].
      - pose proof (length_integerDigits v) as LA.
        destruct (integerDigits v) as [|a [|]]; cbn [length] in LA; try lia.
        apply canonical_single.
      - destruct C as [C|C]; [lia|].
        apply canonical_nonzero_head; [apply integerDigits_nonempty|].
        now rewrite hd_integerDigits. }
    now rewrite CA.
Qed.

(** The condition is the weakest one: on a digit string of 20 or more
    characters that starts with 0 the two functions differ. *)
Lemma formatUnits_formatTokenAmount_leading_zero (v : jsstring) :
  decimalString v ->
  (20 <= length v)%nat -> hd "1"%char v = "0"%char ->
  CeloClient.formatUnits (inl v) 18 <> Ok (Helpers.formatTokenAmount v 18).
Proof.
  intros D L H. rewrite formatUnits_decimal by (auto; lia).
  intros E. injection E as E. revert E.
  pose proof (length_integerDigits v) as LA.
  assert (N0 : v <> str "0") by (intros ->; simpl in L; lia).
  assert (N1 : v <> []) by (intros ->; simpl in L; lia).
  rewrite formatTokenAmount_parts by assumption.
  destruct (Z.eq_dec (decValue v) 0) as [Z0|NZ].
  - rewrite Z0. cbn [formatUnitsSpec Z.eqb].
    intros E. apply (f_equal (@length ascii)) in E. revert E.
    destruct (eqb _ []); rewrite ?length_app;
      cbn [length str list_ascii_of_string]; lia.
  - rewrite formatUnitsSpec_parts by assumption.
    pose proof (canonical_shorter (integerDigits v)) as S.
    rewrite hd_integerDigits in S by lia.
    specialize (S ltac:(lia) H).
    destruct (eqb _ []); intros E.
    + rewrite E in S. lia.
    + apply app_inv_tail in E. rewrite E in S. lia.
Qed.

End UnitFormatting.

(** ** Parsing major units *)

Section UnitParsing.

Lemma split_without (sep : ascii) (s : jsstring) :
  ~ In sep s -> split sep s = [s].
Proof.
  induction s as [|c s IH]; intros H; [reflexivity|]. cbn [split].
  destruct (Ascii.eqb_spec c sep) as [->|_]; [elim H; now left|].
  rewrite IH; [reflexivity|]. intros N. apply H. now right.
Qed.

Lemma split_at_first (sep : ascii) (a b : jsstring) :
  ~ In sep a -> split sep (a ++ sep :: b) = a :: split sep b.
Proof.
  induction a as [|c a IH]; intros H; cbn [split app].
  - now rewrite Ascii.eqb_refl.
  - destruct (Ascii.eqb_spec c sep) as [->|_]; [elim H; now left|].
    rewrite IH; [reflexivity|]. intros N. apply H. now right.
Qed.

Lemma decimalString_no_point (s : jsstring) :
  decimalString s -> ~ In "."%char s.
Proof.
  intros D N. unfold decimalString in D. rewrite Forall_forall in D.
  specialize (D _ N). discriminate D.
Qed.

Lemma slice_padEnd (d : nat) (f : jsstring) :
  slice (padEnd d "0" f) 0 (Z.of_nat d)
  = firstn d (f ++ repeat "0"%char (d - length f)).
Proof.
  unfold padEnd.
  set (s := f ++ repeat "0"%char (d - length f)).
  assert (L : (d <= length s)%nat)
    by (unfold s; rewrite length_app, repeat_length; lia).
  change 0 with (Z.of_nat 0). rewrite slice_between by lia.
  now rewrite Nat.sub_0_r.
Qed.

Lemma parseUnits_unfold_point (ip fp : jsstring) (d : nat) :
  ~ In "."%char ip -> ~ In "."%char fp ->
  CeloClient.parseUnits (ip ++ "."%char :: fp) d =
    (let? n := BigInt.fromString
                 (ip ++ firstn d (fp ++ repeat "0"%char (d - length fp))) in
     Ok (BigInt.toString 10 n)).
Proof.
  intros Hi Hf. unfold CeloClient.parseUnits.
  rewrite split_at_first, split_without by assumption.
  cbn [hd nth]. cbv zeta. now rewrite slice_padEnd.
Qed.

Lemma parseUnits_unfold_whole (ip : jsstring) (d : nat) :
  ~ In "."%char ip ->
  CeloClient.parseUnits ip d =
    (let? n := BigInt.fromString (ip ++ repeat "0"%char d) in
     Ok (BigInt.toString 10 n)).
Proof.
  intros Hi. unfold CeloClient.parseUnits.
  rewrite split_without by assumption.
  cbn [hd nth]. cbv zeta. rewrite slice_padEnd.
  cbn [length app]. rewrite Nat.sub_0_r.
  rewrite firstn_all2 by (rewrite repeat_length; lia). reflexivity.
Qed.

(** The digits kept from the fractional part denote the fraction
    scaled by [10^d] and truncated. *)
Lemma decValue_padded_fraction (fp : jsstring) (d : nat) :
  decimalString fp ->
  decValue (firstn d (fp ++ repeat "0"%char (d - length fp)))
  = decValue fp * 10 ^ Z.of_nat d / 10 ^ Z.of_nat (length fp).
Proof.
  intros D.
  assert (P : forall k : nat, 0 < 10 ^ Z.of_nat k)
    by (intros k; apply Z.pow_pos_nonneg; lia).
  destruct (Nat.le_gt_cases (length fp) d) as [Le|Gt].
  - rewrite firstn_all2 by (rewrite length_app, repeat_length; lia).
    rewrite decValue_app, decValue_zeros, repeat_length, Z.add_0_r.
    replace (Z.of_nat d)
      with (Z.of_nat (d - length fp) + Z.of_nat (length fp)) by lia.
    rewrite Z.pow_add_r, Z.mul_assoc by lia.
    rewrite Z.div_mul; [reflexivity|]. specialize (P (length fp)). lia.
  - replace (d - length fp)%nat with 0%nat by lia.
    cbn [repeat]. rewrite app_nil_r.
    pose proof (firstn_skipn d fp) as E.
    assert (Ds : decimalString (skipn d fp)).
    { rewrite <- E in D. now apply decimalString_app in D. }
    pose proof (decValue_bound _ Ds) as B. rewrite length_skipn in B.
    rewrite <- E at 2. rewrite decValue_app, length_skipn.
    replace (Z.of_nat (length fp))
      with (Z.of_nat (length fp - d) + Z.of_nat d) by lia.
    rewrite Z.pow_add_r by lia.
    rewrite Z.div_mul_cancel_r
      by (pose proof (P d); pose proof (P (length fp - d)%nat); lia).
    apply Z.div_unique with (r := decValue (skipn d fp)); lia.
Qed.

Lemma length_padded_fraction (fp : jsstring) (d : nat) :
  length (firstn d (fp ++ repeat "0"%char (d - length fp))) = d.
Proof. rewrite length_firstn, length_app, repeat_length. lia. Qed.

Lemma decimalString_firstn (k : nat) (s : jsstring) :
  decimalString s -> decimalString (firstn k s).
Proof.
  intros D. rewrite <- (firstn_skipn k s) in D.
  now apply decimalString_app in D.
Qed.

(** C7.  For an amount with at most one decimal point, [parseUnits]
    right-pads the fractional part with zeros, keeps exactly [d] of
    its digits, appends them to the integer part and parses the whole
    as one BigInt.  On digit strings the result is the amount scaled
    by [10^d] with the excess digits dropped, never rounded. *)
Theorem parseUnits_truncates (ip fp : jsstring) (d : nat) :
  ~ In "."%char ip -> ~ In "."%char fp ->
  CeloClient.parseUnits (ip ++ "."%char :: fp) d =
    (let? n := BigInt.fromString
                 (ip ++ firstn d (fp ++ repeat "0"%char (d - length fp))) in
     Ok (BigInt.toString 10 n))
  /\ CeloClient.parseUnits ip d =
       (let? n := BigInt.fromString (ip ++ repeat "0"%char d) in
        Ok (BigInt.toString 10 n))
  /\ (decimalString ip -> decimalString fp ->
      CeloClient.parseUnits (ip ++ "."%char :: fp) d =
        Ok (BigInt.toString 10
              (decValue ip * 10 ^ Z.of_nat d
               + decValue fp * 10 ^ Z.of_nat d / 10 ^ Z.of_nat (length fp)))
      /\ CeloClient.parseUnits ip d =
           Ok (BigInt.toString 10 (decValue ip * 10 ^ Z.of_nat d))).
Proof.
  intros Hi Hf.
  split; [now apply parseUnits_unfold_point|].
  split; [now apply parseUnits_unfold_whole|].
  intros Di Df. split.
  - rewrite parseUnits_unfold_point by assumption.
    rewrite fromString_decimal.
    + cbn [rbind].
      rewrite decValue_app, length_padded_fraction,
        decValue_padded_fraction by exact Df.
      reflexivity.
    + apply decimalString_app. split; [exact Di|].
      apply decimalString_firstn, decimalString_app.
      split; [exact Df | apply decimalString_zeros].
  - rewrite parseUnits_unfold_whole by assumption.
    rewrite fromString_decimal.
    + cbn [rbind].
      rewrite decValue_app, decValue_zeros, repeat_length, Z.add_0_r.
      reflexivity.
    + apply decimalString_app. split; [exact Di|].
      apply decimalString_zeros.
Qed.

End UnitParsing.

(** ** Converting between units *)

Section UnitConversion.

Lemma hd_split_beforePoint (x : jsstring) :
  hd [] (split "." x) = beforePoint x.
Proof.
  induction x as [|c r IH]; [reflexivity|]. cbn [split beforePoint].
  destruct (Ascii.eqb c "."); [reflexivity|].
  destruct (split "." r) as [|h t]; cbn [hd] in *; now rewrite <- IH.
Qed.

Lemma beforePoint_without (ip : jsstring) :
  ~ In "."%char ip -> beforePoint ip = ip.
Proof.
  induction ip as [|c r IH]; intros H; [reflexivity|]. cbn [beforePoint].
  destruct (Ascii.eqb_spec c ".") as [->|_]; [elim H; now left|].
  rewrite IH; [reflexivity|]. intros N. apply H. now right.
Qed.

Lemma beforePoint_app (ip rest : jsstring) :
  ~ In "."%char ip -> beforePoint (ip ++ "."%char :: rest) = ip.
Proof.
  induction ip as [|c r IH]; intros H; cbn [beforePoint app].
  - reflexivity.
  - destruct (Ascii.eqb_spec c ".") as [->|_]; [elim H; now left|].
    rewrite IH; [reflexivity|]. intros N. apply H. now right.
Qed.

Lemma convertUnits_beforePoint (x unit : jsstring) :
  Helpers.convertUnits x unit = Helpers.convertUnits (beforePoint x) unit.
Proof.
  unfold Helpers.convertUnits. rewrite !hd_split_beforePoint.
  rewrite (beforePoint_without (beforePoint x)); [reflexivity|].
  induction x as [|c r IH]; cbn [beforePoint]; [tauto|].
  destruct (Ascii.eqb_spec c "."); [tauto|].
  intros [N|N]; [congruence | contradiction].
Qed.

Lemma formatBigIntWithDecimals_exact (w : Z) (d : nat) :
  0 <= w -> (d <= 22)%nat ->
  Helpers.formatBigIntWithDecimals w d = Ok (formatUnitsSpec w d).
Proof.
  intros Hw Hd. unfold Helpers.formatBigIntWithDecimals, formatUnitsSpec.
  rewrite ofPow10_exact by exact Hd. cbn [rbind]. cbv zeta.
  assert (0 < 10 ^ Z.of_nat d) by (apply Z.pow_pos_nonneg; lia).
  rewrite Z.quot_div_nonneg, Z.rem_mod_nonneg by lia.
  destruct (Z.eqb_spec w 0) as [->|_].
  - rewrite Z.mod_0_l, Z.div_0_l by lia. reflexivity.
  - destruct (w mod 10 ^ Z.of_nat d =? 0); reflexivity.
Qed.

Lemma convertUnits_parsed (ip unit : jsstring) (n f : Z) :
  ~ In "."%char ip ->
  BigInt.fromString ip = Ok n -> unitFactor unit = Some f ->
  Helpers.convertUnits ip unit =
    (let? c := Helpers.formatBigIntWithDecimals (n * f) 18 in
     Ok {| wei := BigInt.toString 10 (n * f);
           gwei := BigInt.toString 10 (Z.quot (n * f) (10 ^ 9));
           celo := c |}).
Proof.
  intros H P F. unfold Helpers.convertUnits, unitFactor in *.
  rewrite hd_split_beforePoint, (beforePoint_without ip H), P.
  cbn [rbind].
  destruct (eqb unit (str "wei")).
  - injection F as <-. now rewrite Z.mul_1_r.
  - destruct (eqb unit (str "gwei")).
    + injection F as <-. reflexivity.
    + destruct (eqb unit (str "celo")); [|discriminate].
      injection F as <-. reflexivity.
Qed.

Lemma formatBigIntWithDecimals_returns (w : Z) :
  exists c, Helpers.formatBigIntWithDecimals w 18 = Ok c.
Proof.
  unfold Helpers.formatBigIntWithDecimals.
  rewrite (ofPow10_exact 18) by lia. cbn [rbind]. cbv zeta.
  destruct (Z.rem w (10 ^ Z.of_nat 18) =? 0); eexists; reflexivity.
Qed.

Lemma unitFactor_nonneg (unit : jsstring) (f : Z) :
  unitFactor unit = Some f -> 0 <= f.
Proof.
  unfold unitFactor. intros F.
  repeat match type of F with
         | (if ?b then _ else _) = _ => destruct b
         end; inversion F; lia.
Qed.

Lemma convertUnits_decimal (ip unit : jsstring) (f : Z) :
  decimalString ip -> unitFactor unit = Some f ->
  Helpers.convertUnits ip unit =
    Ok {| wei := BigInt.toString 10 (decValue ip * f);
          gwei := BigInt.toString 10 (decValue ip * f / 10 ^ 9);
          celo := formatUnitsSpec (decValue ip * f) 18 |}.
Proof.
  intros D F.
  pose proof (decValue_bound ip D) as [Hv _].
  pose proof (unitFactor_nonneg unit f F).
  rewrite (convertUnits_parsed ip unit (decValue ip) f
             (decimalString_no_point ip D) (fromString_decimal ip D) F).
  rewrite formatBigIntWithDecimals_exact by nia.
  cbn [rbind]. rewrite Z.quot_div_nonneg by nia. reflexivity.
Qed.

Lemma convertUnits_rejected (ip unit : jsstring) (e : JsError) :
  ~ In "."%char ip -> BigInt.fromString ip = Throw e ->
  Helpers.convertUnits ip unit = Throw e.
Proof.
  intros H P. unfold Helpers.convertUnits.
  now rewrite hd_split_beforePoint, (beforePoint_without ip H), P.
Qed.

Lemma convertUnits_unknown_unit (ip unit : jsstring) (n : Z) :
  ~ In "."%char ip ->
  BigInt.fromString ip = Ok n -> unitFactor unit = None ->
  Helpers.convertUnits ip unit = Throw (Error (str "Unknown unit: " ++ unit)).
Proof.
  intros H P F. unfold Helpers.convertUnits, unitFactor in *.
  rewrite hd_split_beforePoint, (beforePoint_without ip H), P.
  cbn [rbind].
  destruct (eqb unit (str "wei")); [discriminate|].
  destruct (eqb unit (str "gwei")); [discriminate|].
  destruct (eqb unit (str "celo")); [discriminate|].
  reflexivity.
Qed.

(** C10 (amended).  [convertUnits] converts the characters before the
    first decimal point and nothing else: on [ip.rest] its outcome,
    result or error, is its outcome on [ip].  It is a result exactly
    when [ip] alone is accepted by [BigInt] and the unit is one of
    [wei], [gwei], [celo]; for a digit string [ip] it is the conversion
    of the integer [ip].  When [BigInt] rejects [ip] the call throws
    that SyntaxError, whatever the unit, and an accepted [ip] with any
    other unit throws [Unknown unit: <unit>]. *)
Theorem convertUnits_discards_fraction (ip rest unit : jsstring) :
  ~ In "."%char ip ->
  Helpers.convertUnits (ip ++ "."%char :: rest) unit
  = Helpers.convertUnits ip unit
  /\ (forall n f,
        BigInt.fromString ip = Ok n -> unitFactor unit = Some f ->
        exists c,
          Helpers.convertUnits (ip ++ "."%char :: rest) unit =
            Ok {| wei := BigInt.toString 10 (n * f);
                  gwei := BigInt.toString 10 (Z.quot (n * f) (10 ^ 9));
                  celo := c |})
  /\ (forall f,
        decimalString ip -> unitFactor unit = Some f ->
        Helpers.convertUnits (ip ++ "."%char :: rest) unit =
          Ok {| wei := BigInt.toString 10 (decValue ip * f);
                gwei := BigInt.toString 10 (decValue ip * f / 10 ^ 9);
                celo := formatUnitsSpec (decValue ip * f) 18 |})
  /\ (forall e,
        BigInt.fromString ip = Throw e ->
        Helpers.convertUnits (ip ++ "."%char :: rest) unit = Throw e)
  /\ (forall n,
        BigInt.fromString ip = Ok n -> unitFactor unit = None ->
        Helpers.convertUnits (ip ++ "."%char :: rest) unit
        = Throw (Error (str "Unknown unit: " ++ unit))).
Proof.
  intros H.
  assert (E : Helpers.convertUnits (ip ++ "."%char :: rest) unit
              = Helpers.convertUnits ip unit).
  { rewrite convertUnits_beforePoint, beforePoint_app by exact H.
    reflexivity. }
  split; [exact E|]. split; [|split; [|split]].
  - intros n f P F. rewrite E, (convertUnits_parsed ip unit n f H P F).
    destruct (formatBigIntWithDecimals_returns (n * f)) as [c ->].
    exists c. reflexivity.
  - intros f D F. rewrite E. now apply convertUnits_decimal.
  - intros e P. rewrite E. now apply convertUnits_rejected.
  - intros n P F. rewrite E. now apply (convertUnits_unknown_unit ip unit n).
Qed.

End UnitConversion.

(** ** ABI words *)

Section AbiWords.

Lemma parseDigitsFrom_zeros (radix : Z) (k : nat) :
  0 < radix ->
  BigInt.parseDigitsFrom radix (repeat "0"%char k) 0 = Some 0.
Proof.
  intros Hr. induction k as [|k IH]; [reflexivity|].
  cbn [repeat BigInt.parseDigitsFrom].
  change (BigInt.digitVal "0") with (Some 0). cbv iota beta.
  assert (E : (0 <? radix) = true) by (apply Z.ltb_lt; lia).
  rewrite E. replace (0 * radix + 0) with 0 by lia. exact IH.
Qed.

Lemma parseDigits_padStart (radix n : Z) (k : nat) :
  2 <= radix <= 36 -> 0 <= n ->
  BigInt.parseDigits radix
    (padStart k "0" (map BigInt.digitChar (BigInt.digits radix n)))
  = Some n.
Proof.
  intros Hr Hn. unfold padStart.
  pose proof (parseDigits_digits radix n Hr Hn) as P.
  set (s := map BigInt.digitChar (BigInt.digits radix n)) in *.
  assert (Hs : s <> []).
  { intros E. apply map_eq_nil in E. now apply digits_nonempty in E. }
  unfold BigInt.parseDigits in *.
  destruct s as [|c r] eqn:Es; [contradiction|].
  destruct (repeat "0"%char (k - length (c :: r)) ++ c :: r) eqn:E.
  - apply app_eq_nil in E. destruct E; discriminate.
  - rewrite <- E, parseDigitsFrom_app, parseDigitsFrom_zeros by lia.
    exact P.
Qed.



Lemma encodeParameter_uint (count : nat) (type : jsstring) (value : JsValue)
      (v : Z) :
  type = str "uint256" \/ type = str "uint" ->
  Js.toBigInt value = Ok v ->
  CeloClient.encodeParameter count type value
  = Ok (CeloClient.padLeft (BigInt.toString 16 v) 64).
Proof.
  intros [-> | ->] B; unfold CeloClient.encodeParameter;
    cbn [eqb str list_ascii_of_string Ascii.eqb Bool.eqb andb orb];
    rewrite B; reflexivity.
Qed.


Lemma digitVal_range (c : ascii) (d : Z) :
  BigInt.digitVal c = Some d -> 0 <= d < 36.
Proof.
  unfold BigInt.digitVal. cbv zeta. set (n := Z.of_N (N_of_ascii c)).
  destruct (Z.leb_spec 48 n), (Z.leb_spec n 57), (Z.leb_spec 97 n),
    (Z.leb_spec n 122), (Z.leb_spec 65 n), (Z.leb_spec n 90);
    cbn [andb]; intros E; inversion E; lia.
Qed.

Lemma ascii_eqb_code (c x : ascii) :
  Ascii.eqb c x = (Z.of_N (N_of_ascii c) =? Z.of_N (N_of_ascii x)).
Proof.
  destruct (Ascii.eqb_spec c x) as [->|Hne].
  - now rewrite Z.eqb_refl.
  - symmetry. apply Z.eqb_neq. intros E. apply Hne.
    apply N2Z.inj in E.
    rewrite <- (ascii_N_embedding c), <- (ascii_N_embedding x).
    now rewrite E.
Qed.

(** Among all digit characters only [1] has the value one. *)
Lemma digitVal_one (c : ascii) (d : Z) :
  BigInt.digitVal c = Some d -> (d =? 1) = Ascii.eqb c "1".
Proof.
  rewrite ascii_eqb_code. change (Z.of_N (N_of_ascii "1")) with 49.
  unfold BigInt.digitVal. cbv zeta. set (n := Z.of_N (N_of_ascii c)).
  destruct (Z.leb_spec 48 n), (Z.leb_spec n 57), (Z.leb_spec 97 n),
    (Z.leb_spec n 122), (Z.leb_spec 65 n), (Z.leb_spec n 90);
    cbn [andb]; intros E; inversion E; subst d;
    destruct (Z.eqb_spec n 49); lia.
Qed.

Lemma word_last (w : jsstring) :
  length w = 64%nat ->
  exists init c, w = init ++ [c] /\ length init = 63%nat.
Proof.
  intros L. exists (removelast w), (last w "0"%char).
  assert (N : w <> []) by (intros ->; discriminate).
  pose proof (app_removelast_last "0"%char N) as E. split; [exact E|].
  apply (f_equal (@length ascii)) in E.
  rewrite length_app in E. cbn [length] in E. lia.
Qed.

Lemma decodeResult_unfold_bool (w : jsstring) :
  CeloClient.decodeResult (str "0x" ++ w) [str "bool"]
  = Ok [VBool (eqb (slice w 63 64) (str "1"))].
Proof.
  unfold CeloClient.decodeResult. rewrite replace_prefix. reflexivity.
Qed.

Lemma decodeResult_unfold_address (w : jsstring) :
  CeloClient.decodeResult (str "0x" ++ w) [str "address"]
  = Ok [VString (str "0x" ++ slice w 24 64)].
Proof.
  unfold CeloClient.decodeResult. rewrite replace_prefix. reflexivity.
Qed.

(** The last character of the word that starts at [offset]. *)
Lemma slice_last_of_word (pre init post : jsstring) (c : ascii) :
  length init = 63%nat ->
  slice (pre ++ (init ++ [c]) ++ post)
        (Z.of_nat (length pre) + 63) (Z.of_nat (length pre) + 64)
  = [c].
Proof.
  intros Li.
  replace (Z.of_nat (length pre) + 63) with (Z.of_nat (length pre + 63))
    by lia.
  replace (Z.of_nat (length pre) + 64) with (Z.of_nat (length pre + 64))
    by lia.
  rewrite slice_between
    by (rewrite !length_app; cbn [length]; lia).
  replace (length pre + 64 - (length pre + 63))%nat with 1%nat by lia.
  rewrite skipn_app.
  rewrite skipn_all2 by lia.
  replace (length pre + 63 - length pre)%nat with 63%nat by lia.
  rewrite <- app_assoc, skipn_app, skipn_all2 by lia.
  rewrite Li, Nat.sub_diag. reflexivity.
Qed.

(** C4 (amended).  Decoding a 32-byte word as [bool] returns true
    exactly when its last hexadecimal digit is 1, that is when the
    word is 1 modulo 16, wherever the word stands in the result; on the
    words 0 and 1 this is the low-order bit. *)
Theorem decode_bool_last_digit (w : jsstring) (n : Z) :
  length w = 64%nat ->
  BigInt.parseDigits 16 w = Some n ->
  Helpers.decodeBool (str "0x" ++ w) = (n mod 16 =? 1)
  /\ CeloClient.decodeResult (str "0x" ++ w) [str "bool"]
     = Ok [VBool (n mod 16 =? 1)]
  /\ (forall pre post rest results,
        CeloClient.decodeFrom (pre ++ w ++ post) (str "bool" :: rest)
          (Z.of_nat (length pre)) results
        = CeloClient.decodeFrom (pre ++ w ++ post) rest
            (Z.of_nat (length pre) + 64)
            (results ++ [VBool (n mod 16 =? 1)]))
  /\ (n = 0 \/ n = 1 ->
      Helpers.decodeBool (str "0x" ++ w) = Z.testbit n 0).
Proof.
  intros L P.
  destruct (word_last w L) as (init & c & -> & Li).
  assert (S1 : sliceFrom (init ++ [c]) (-1) = [c]).
  { change (-1) with (- Z.of_nat 1). rewrite sliceFrom_end by (rewrite L; lia).
    rewrite L. change (64 - 1)%nat with 63%nat.
    rewrite skipn_app, Li, Nat.sub_diag, skipn_all2 by lia. reflexivity. }
  assert (S2 : slice (init ++ [c]) 63 64 = [c]).
  { pose proof (slice_last_of_word [] init [] c Li) as S.
    cbn [app length Z.of_nat Z.add] in S. now rewrite app_nil_r in S. }
  assert (V : (n mod 16 =? 1) = Ascii.eqb c "1").
  { unfold BigInt.parseDigits in P.
    destruct (init ++ [c]) eqn:E; [destruct init; discriminate|].
    rewrite <- E, parseDigitsFrom_app in P.
    destruct (BigInt.parseDigitsFrom 16 init 0) as [m|]; [|discriminate].
    cbn [BigInt.parseDigitsFrom] in P.
    destruct (BigInt.digitVal c) as [d|] eqn:Dc; [|discriminate].
    destruct (Z.ltb_spec d 16); [|discriminate].
    injection P as <-.
    pose proof (digitVal_range c d Dc).
    replace ((m * 16 + d) mod 16) with d
      by (apply Z.mod_unique with (q := m); lia).
    now apply digitVal_one. }
  assert (B : Helpers.decodeBool (str "0x" ++ init ++ [c]) = (n mod 16 =? 1)).
  { unfold Helpers.decodeBool. rewrite replace_prefix, S1, V.
    cbn [eqb str list_ascii_of_string]. now rewrite andb_true_r. }
  split; [exact B|]. split; [|split].
  - rewrite decodeResult_unfold_bool, S2, V.
    cbn [eqb str list_ascii_of_string]. now rewrite andb_true_r.
  - intros pre post rest results.
    cbn [CeloClient.decodeFrom eqb str list_ascii_of_string Ascii.eqb
           Bool.eqb andb orb].
    rewrite slice_last_of_word by exact Li. rewrite V.
    cbn [eqb]. now rewrite andb_true_r.
  - rewrite B. intros [-> | ->]; reflexivity.
Qed.

(** The helper returns the low 20 bytes of a word in lower case. *)
Lemma decodeAddress_low_bytes (w : jsstring) :
  length w = 64%nat ->
  Helpers.decodeAddress (str "0x" ++ w)
  = str "0x" ++ toLowerCase (skipn 24 w).
Proof.
  intros L. unfold Helpers.decodeAddress. rewrite replace_prefix.
  change (-40) with (- Z.of_nat 40). rewrite sliceFrom_end by lia.
  now rewrite L.
Qed.

(** The transport's decoder returns them as they are. *)
Lemma decodeResult_address_low_bytes (w : jsstring) :
  length w = 64%nat ->
  CeloClient.decodeResult (str "0x" ++ w) [str "address"]
  = Ok [VString (str "0x" ++ skipn 24 w)].
Proof.
  intros L. rewrite decodeResult_unfold_address.
  change 24 with (Z.of_nat 24). change 64 with (Z.of_nat 64).
  rewrite slice_between by lia.
  rewrite firstn_all2 by (rewrite length_skipn; lia). reflexivity.
Qed.

End AbiWords.

(** ** Instances *)

Ltac digits_only := repeat constructor.
Ltac no_point := cbn; intuition discriminate.



(** C4, witness: the word 1 decodes to true. *)
Lemma decode_bool_last_digit_witness :
  Helpers.decodeBool (str "0x" ++ word1) = true
  /\ CeloClient.decodeResult (str "0x" ++ word1) [str "bool"] = Ok [VBool true].
Proof.
  destruct (decode_bool_last_digit word1 1 eq_refl eq_refl) as (B & R & _).
  split; [exact B | exact R].
Defined.

(** C4, counterexample: the word 3 has its low-order bit set and
    decodes to false. *)
Lemma decode_bool_word3 :
  length (skipn 2 word3) = 64%nat
  /\ BigInt.parseDigits 16 (skipn 2 word3) = Some 3
  /\ Z.testbit 3 0 = true
  /\ Helpers.decodeBool word3 = false
  /\ CeloClient.decodeResult word3 [str "bool"] = Ok [VBool false].
Proof. repeat split. Qed.

(** C5, at the failing input: a word whose address bytes are written
    in upper case comes back unchanged from [decodeResult], while
    [decodeAddress] lower-cases it. *)
Theorem decodeResult_address_keeps_case :
  CeloClient.decodeResult upperAddressWord [str "address"]
  = Ok [VString (str "0xABCDEF1234567890ABCDEF1234567890ABCDEF12")]
  /\ Helpers.decodeAddress upperAddressWord
     = str "0xabcdef1234567890abcdef1234567890abcdef12".
Proof. split; vm_compute; reflexivity. Qed.

(** The boundary cases of [formatUnits] at 18 decimals. *)
Lemma formatUnits_boundaries :
  CeloClient.formatUnits (inl (str "0")) 18 = Ok (str "0")
  /\ CeloClient.formatUnits (inl (str "1000000000000000000")) 18 = Ok (str "1")
  /\ CeloClient.formatUnits (inl (str "1500000000000000000")) 18 = Ok (str "1.5").
Proof. repeat split; vm_compute; reflexivity. Qed.

(** C6, at the failing input: with 23 decimals the divisor is the
    Number nearest to [10^23], not [10^23]; the amount [10^23] is
    printed with a spurious fraction where exact division, and the
    helper [formatTokenAmount], give 1; from 309 decimals on the divisor
    is [Infinity] and the call throws. *)
Theorem formatUnits_23_decimals :
  BigInt.ofPow10 23 = Ok 99999999999999991611392
  /\ CeloClient.formatUnits (inl (str "100000000000000000000000")) 23
     = Ok (str "1.00000000000000008388608")
  /\ formatUnitsSpec (10 ^ 23) 23 = str "1"
  /\ Helpers.formatTokenAmount (str "100000000000000000000000") 23 = str "1"
  /\ CeloClient.formatUnits (inl (str "1")) 309
     = Throw (RangeError
         (str "The number Infinity cannot be converted to a BigInt because it is not an integer")).
Proof. repeat split; vm_compute; reflexivity. Qed.

(** C7, witness: the boundary case of the specification. *)
Lemma parseUnits_truncates_witness :
  CeloClient.parseUnits (str "0.1") 18 = Ok (str "100000000000000000")
  /\ CeloClient.parseUnits (str "1.9999") 2 = Ok (str "199").
Proof.
  split.
  - refine (proj1 (proj2 (proj2 (parseUnits_truncates (str "0") (str "1") 18 _ _))
                     _ _)).
    + no_point.
    + no_point.
    + digits_only.
    + digits_only.
  - refine (proj1 (proj2 (proj2 (parseUnits_truncates (str "1") (str "9999") 2 _ _))
                     _ _)).
    + no_point.
    + no_point.
    + digits_only.
    + digits_only.
Defined.

(** C9, witness: one and a half units. *)
Lemma formatUnits_formatTokenAmount_witness :
  CeloClient.formatUnits (inl (str "1500000000000000000")) 18
  = Ok (Helpers.formatTokenAmount (str "1500000000000000000") 18).
Proof.
  apply formatUnits_formatTokenAmount.
  - digits_only.
  - left. cbn. lia.
Defined.

(** C9, counterexample: a digit string of 20 characters with a leading
    zero. *)
Lemma formatUnits_formatTokenAmount_differ :
  decimalString paddedAmount
  /\ CeloClient.formatUnits (inl paddedAmount) 18 = Ok (str "1")
  /\ Helpers.formatTokenAmount paddedAmount 18 = str "01".
Proof. split; [digits_only | split; vm_compute; reflexivity]. Qed.

(** C10, witness: the example of the claim. *)
Lemma convertUnits_discards_fraction_witness :
  Helpers.convertUnits (str "1.9") (str "celo")
  = Helpers.convertUnits (str "1") (str "celo")
  /\ Helpers.convertUnits (str "1.9") (str "celo")
     = Ok {| wei := str "1000000000000000000";
             gwei := str "1000000000";
             celo := str "1" |}.
Proof.
  destruct (convertUnits_discards_fraction (str "1") (str "9") (str "celo"))
    as (E & _ & R & _).
  - no_point.
  - split; [exact E|]. apply (R (10 ^ 18)).
    + digits_only.
    + reflexivity.
Defined.

(** C10, counterexample: an input with a decimal point whose integer
    part [BigInt] rejects makes [convertUnits] throw. *)
Lemma convertUnits_rejects_integer_part :
  In "."%char (str "-.5")
  /\ Helpers.convertUnits (str "-.5") (str "celo")
     = Throw (SyntaxError (str "Cannot convert - to a BigInt"))
  /\ In "."%char (str "abc.5")
  /\ Helpers.convertUnits (str "abc.5") (str "wei")
     = Throw (SyntaxError (str "Cannot convert abc to a BigInt")).
Proof.
  repeat split.
  - right. left. reflexivity.
  - do 3 right. left. reflexivity.
Qed.

(** * Further properties *)

(** ** Retrying *)

Section Retry.

Context {A : Type}.
Variable fn : nat -> result A.
Variable maxRetries : nat.
Variable baseDelay : Z.

Lemma retryFrom_success (k : nat) (a : A) :
  fn k = Ok a ->
  forall remaining i lastError slept,
    (i + remaining = maxRetries)%nat -> (i <= k < maxRetries)%nat ->
    (forall j, (i <= j < k)%nat -> exists e, fn j = Throw e) ->
    Utils.retryFrom fn maxRetries baseDelay i remaining lastError slept
    = (inl a, slept ++ map (backoffDelay baseDelay) (seq i (k - i))).
Proof.
  intros Hk. induction remaining as [|r IH]; intros i lastError slept Hi Hik Hf.
  - lia.
  - cbn [Utils.retryFrom].
    destruct (Nat.eq_dec i k) as [->|Hne].
    + rewrite Hk, Nat.sub_diag. cbn [seq map]. now rewrite app_nil_r.
    + destruct (Hf i ltac:(lia)) as [e He]. rewrite He.
      destruct (Z.ltb_spec (Z.of_nat i) (Z.of_nat maxRetries - 1)); [|lia].
      rewrite IH by (try lia; intros j Hj; apply Hf; lia).
      replace (k - i)%nat with (S (k - S i)) by lia.
      cbn [seq map]. now rewrite <- app_assoc.
Qed.

Lemma retryFrom_exhausted (e : JsError) :
  fn (maxRetries - 1) = Throw e ->
  forall remaining i lastError slept,
    (i + S remaining = maxRetries)%nat ->
    (forall j, (i <= j < maxRetries)%nat -> exists e', fn j = Throw e') ->
    Utils.retryFrom fn maxRetries baseDelay i (S remaining) lastError slept
    = (inr (Some e), slept ++ map (backoffDelay baseDelay) (seq i remaining)).
Proof.
  intros Hlast. induction remaining as [|r IH]; intros i lastError slept Hi Hf.
  - cbn [Utils.retryFrom].
    replace i with (maxRetries - 1)%nat by lia. rewrite Hlast.
    destruct (Z.ltb_spec (Z.of_nat (maxRetries - 1)) (Z.of_nat maxRetries - 1));
      [lia|].
    cbn [seq map]. now rewrite app_nil_r.
  - destruct (Hf i ltac:(lia)) as [e' He].
    change (Utils.retryFrom fn maxRetries baseDelay i (S (S r)) lastError slept)
      with (match fn i with
            | Ok a => (inl a, slept)
            | Throw error =>
                Utils.retryFrom fn maxRetries baseDelay (S i) (S r) (Some error)
                  (if Z.of_nat i <? Z.of_nat maxRetries - 1
                   then slept ++ [baseDelay * 2 ^ Z.of_nat i]
                   else slept)
            end).
    rewrite He.
    destruct (Z.ltb_spec (Z.of_nat i) (Z.of_nat maxRetries - 1)); [|lia].
    rewrite IH by (try lia; intros j Hj; apply Hf; lia).
    cbn [seq map]. now rewrite <- app_assoc.
Qed.

End Retry.

Lemma totalDelay_backoff (baseDelay : Z) (k : nat) :
  totalDelay (map (backoffDelay baseDelay) (seq 0 k))
  = baseDelay * (2 ^ Z.of_nat k - 1).
Proof.
  induction k as [|k IH]; [cbn; lia|].
  rewrite seq_S, map_app. unfold totalDelay in *.
  rewrite fold_right_app. cbn [map fold_right Nat.add].
  assert (G : forall (l : list Z) (x : Z),
             fold_right Z.add x l = fold_right Z.add 0 l + x).
  { induction l as [|y l IHl]; intros x; cbn [fold_right]; [lia|].
    rewrite IHl. lia. }
  rewrite G, IH. unfold backoffDelay.
  rewrite Nat2Z.inj_succ, Z.pow_succ_r by lia. lia.
Qed.

(** X1: [retryWithBackoff] returns the first success, having slept
    [baseDelay * 2^i] after each earlier failure; when every one of the
    [maxRetries] attempts fails it rejects with the last error without
    sleeping after it, so that the delays add up to
    [baseDelay * (2^(maxRetries-1) - 1)]; with no attempt allowed it
    rejects with [undefined]. *)
Theorem retryWithBackoff_outcome {A : Type} (fn : nat -> result A)
        (maxRetries : nat) (baseDelay : Z) :
  (forall k a,
      (k < maxRetries)%nat -> fn k = Ok a ->
      (forall j, (j < k)%nat -> exists e, fn j = Throw e) ->
      Utils.retryWithBackoff fn maxRetries baseDelay
      = (inl a, map (backoffDelay baseDelay) (seq 0 k)))
  /\ (forall e,
        (1 <= maxRetries)%nat -> fn (maxRetries - 1)%nat = Throw e ->
        (forall j, (j < maxRetries)%nat -> exists e', fn j = Throw e') ->
        Utils.retryWithBackoff fn maxRetries baseDelay
        = (inr (Some e),
           map (backoffDelay baseDelay) (seq 0 (maxRetries - 1)))
        /\ totalDelay (snd (Utils.retryWithBackoff fn maxRetries baseDelay))
           = baseDelay * (2 ^ Z.of_nat (maxRetries - 1) - 1))
  /\ (maxRetries = 0%nat ->
      Utils.retryWithBackoff fn maxRetries baseDelay = (inr None, [])).
Proof.
  split; [|split].
  - intros k a Hk Ha Hf. unfold Utils.retryWithBackoff.
    rewrite (retryFrom_success fn maxRetries baseDelay k a Ha)
      by (try lia; intros j Hj; apply Hf; lia).
    now rewrite Nat.sub_0_r.
  - intros e Hm He Hf.
    assert (E : Utils.retryWithBackoff fn maxRetries baseDelay
                = (inr (Some e),
                   map (backoffDelay baseDelay) (seq 0 (maxRetries - 1)))).
    { unfold Utils.retryWithBackoff.
      destruct maxRetries as [|m]; [lia|].
      rewrite (retryFrom_exhausted fn (S m) baseDelay e He)
        by (try lia; intros j Hj; apply Hf; lia).
      cbn [app]. now rewrite Nat.sub_succ, Nat.sub_0_r. }
    split; [exact E|]. rewrite E. cbn [snd]. apply totalDelay_backoff.
  - intros ->. reflexivity.
Qed.

(** ** The transports and the network *)

Ltac run_cases :=
  repeat match goal with
         | |- context [match ?x with _ => _ end] => destruct x
         end; reflexivity.

Lemma makeRpcCall_log (ctx : Context) (method : jsstring)
      (params : list JsValue) (u : jsstring) :
  CeloClient.getRpcUrl (celoApi ctx) = Ok u ->
  snd (Async.run (CeloClient.makeRpcCall method params) ctx)
  = [rpcRequest u method params (now ctx)].
Proof.
  intros Hu.
  unfold Async.run, CeloClient.makeRpcCall, Async.bind, Async.credentials,
    Async.lift, Async.dateNow, Async.request, Async.throw.
  fold (celoApi ctx). rewrite Hu. cbn [app].
  fold (rpcRequest u method params (now ctx)).
  destruct (httpRequest ctx (rpcRequest u method params (now ctx))) as [r|e];
    [|reflexivity].
  destruct (Js.getProp r (str "error")) as [er|]; [|reflexivity].
  destruct (Js.truthy er); run_cases.
Qed.

(** X2: once the RPC URL resolves, [makeRpcCall] performs exactly one
    HTTP request whatever the node answers: a JSON POST to that URL
    whose body carries protocol version 2.0, the method, the parameters
    and [Date.now()] as id.  A failure of the HTTP layer is passed on
    unchanged, and a failure to resolve the URL is raised before any
    request. *)
Theorem makeRpcCall_single_request (ctx : Context) (method : jsstring)
        (params : list JsValue) :
  (forall u,
      CeloClient.getRpcUrl (celoApi ctx) = Ok u ->
      snd (Async.run (CeloClient.makeRpcCall method params) ctx)
      = [rpcRequest u method params (now ctx)]
      /\ (forall e,
            httpRequest ctx (rpcRequest u method params (now ctx)) = Throw e ->
            fst (Async.run (CeloClient.makeRpcCall method params) ctx)
            = Throw e))
  /\ (forall e,
        CeloClient.getRpcUrl (celoApi ctx) = Throw e ->
        Async.run (CeloClient.makeRpcCall method params) ctx = (Throw e, [])).
Proof.
  split.
  - intros u Hu. split; [now apply makeRpcCall_log|].
    intros e He.
    unfold Async.run, CeloClient.makeRpcCall, Async.bind, Async.credentials,
      Async.lift, Async.dateNow, Async.request, Async.throw.
    fold (celoApi ctx). rewrite Hu.
    fold (rpcRequest u method params (now ctx)). now rewrite He.
  - intros e He.
    unfold Async.run, CeloClient.makeRpcCall, Async.bind, Async.credentials,
      Async.lift.
    fold (celoApi ctx). now rewrite He.
Qed.

Lemma queryValue_setProp (name v : jsstring) (qs : list (jsstring * jsstring)) :
  queryValue name (Js.setProp name v qs) = Some v.
Proof.
  induction qs as [|[k x] qs IH]; cbn [Js.setProp queryValue].
  - now rewrite eqb_refl.
  - destruct (eqb k name) eqn:E; cbn [queryValue]; rewrite E; auto.
Qed.

Lemma queryValue_setProp_other (name other v : jsstring)
      (qs : list (jsstring * jsstring)) :
  other <> name ->
  queryValue other (Js.setProp name v qs) = queryValue other qs.
Proof.
  intros Hne. induction qs as [|[k x] qs IH]; cbn [Js.setProp queryValue].
  - apply eqb_neq in Hne.
    destruct (eqb name other) eqn:E; [|reflexivity].
    apply eqb_eq in E. subst. now rewrite eqb_refl in Hne.
  - destruct (eqb k name) eqn:E; cbn [queryValue].
    + apply eqb_eq in E. subst k.
      destruct (eqb name other) eqn:E2; [|reflexivity].
      apply eqb_eq in E2. congruence.
    + now rewrite IH.
Qed.

(** X3: [makeExplorerCall] on the [custom] network fails with
    [Explorer API not available for this network] before any request.
    With an explorer URL it performs exactly one GET on it; the query is
    the caller's, and when a Celoscan key is configured the query
    carries it under [apikey], replacing a caller-supplied [apikey] and
    leaving every other parameter as it was. *)
Theorem makeExplorerCall_request (ctx : Context)
        (params : list (jsstring * jsstring)) :
  (network (celoApi ctx) = str "custom" ->
   Async.run (CeloClient.makeExplorerCall params) ctx
   = (Throw (Error (str "Explorer API not available for this network")), []))
  /\ (forall u,
        CeloClient.getExplorerApiUrl (celoApi ctx) = Ok u -> u <> [] ->
        exists qs,
          snd (Async.run (CeloClient.makeExplorerCall params) ctx)
          = [explorerRequest u qs]
          /\ (present (celoscanApiKey (celoApi ctx)) = false -> qs = params)
          /\ (forall key,
                celoscanApiKey (celoApi ctx) = Some key -> key <> [] ->
                queryValue (str "apikey") qs = Some key
                /\ forall other,
                    other <> str "apikey" ->
                    queryValue other qs = queryValue other params)).
Proof.
  split.
  - intros Hn.
    unfold Async.run, CeloClient.makeExplorerCall, Async.bind,
      Async.credentials, Async.lift, Async.throw.
    fold (celoApi ctx). unfold CeloClient.getExplorerApiUrl.
    rewrite Hn. reflexivity.
  - intros u Hu Hne.
    exists (if present (celoscanApiKey (celoApi ctx))
            then Js.setProp (str "apikey")
                   (match celoscanApiKey (celoApi ctx) with
                    | Some k => k | None => [] end) params
            else params).
    split; [|split].
    + unfold Async.run, CeloClient.makeExplorerCall, Async.bind,
        Async.credentials, Async.lift, Async.request, Async.throw.
      fold (celoApi ctx). rewrite Hu.
      apply eqb_neq in Hne. rewrite Hne. cbn [app].
      unfold explorerRequest.
      match goal with
      | |- context [httpRequest ctx ?r] => destruct (httpRequest ctx r) as [r0|]
      end; [|reflexivity].
      destruct (Js.getProp r0 (str "status")); [|reflexivity].
      destruct (Js.getProp r0 (str "message")); [|reflexivity].
      destruct (Js.isString _ _ && negb _); run_cases.
    + intros Hp. now rewrite Hp.
    + intros key Hk Hkne. rewrite Hk.
      destruct key as [|c key]; [contradiction|]. cbn [present].
      split; [apply queryValue_setProp|].
      intros other Ho. now apply queryValue_setProp_other.
Qed.

(** X4: [signTransaction] never returns a signature and never touches
    the network: without a private key it fails asking for one, with a
    private key it fails because signing is not implemented. *)
Theorem signTransaction_never_signs (ctx : Context) (transaction : JsValue) :
  (present (privateKey (celoApi ctx)) = false ->
   Async.run (CeloTransport.signTransaction transaction) ctx
   = (Throw (Error (str "Private key is required for signing transactions")),
      []))
  /\ (present (privateKey (celoApi ctx)) = true ->
      Async.run (CeloTransport.signTransaction transaction) ctx
      = (Throw (Error (str "Transaction signing requires additional setup. Please use a signing service or implement proper transaction signing.")),
         []))
  /\ (forall signed log,
        Async.run (CeloTransport.signTransaction transaction) ctx
        <> (Ok signed, log)).
Proof.
  unfold Async.run, CeloTransport.signTransaction, Async.bind, Async.credentials,
    Async.throw.
  fold (celoApi ctx).
  destruct (present (privateKey (celoApi ctx))); cbn [negb];
    repeat split; try discriminate; intros; discriminate.
Qed.

(** ** Phone numbers *)

Lemma filter_fixed {T} (f : T -> bool) (l : list T) :
  forallb f l = true -> filter f l = l.
Proof.
  induction l as [|x l IH]; cbn [forallb filter]; [reflexivity|].
  intros H. apply andb_true_iff in H. destruct H as [Hx Hl].
  rewrite Hx. f_equal. auto.
Qed.

Lemma forallb_filter {T} (f : T -> bool) (l : list T) :
  forallb f (filter f l) = true.
Proof.
  induction l as [|x l IH]; cbn [forallb filter]; [reflexivity|].
  destruct (f x) eqn:E; [|exact IH]. cbn [forallb]. now rewrite E.
Qed.

Lemma normalizePhoneNumber_fixed (phoneNumber : jsstring) :
  startsWith (str "+") (Utils.normalizePhoneNumber phoneNumber) = true
  /\ forallb phoneChar (Utils.normalizePhoneNumber phoneNumber) = true
  /\ Utils.normalizePhoneNumber (Utils.normalizePhoneNumber phoneNumber)
     = Utils.normalizePhoneNumber phoneNumber.
Proof.
  assert (K : forall n,
             startsWith (str "+") n = true -> forallb phoneChar n = true ->
             Utils.normalizePhoneNumber n = n).
  { intros n Hs Hf. unfold Utils.normalizePhoneNumber. cbv zeta.
    fold phoneChar. rewrite (filter_fixed phoneChar n Hf), Hs. reflexivity. }
  assert (R : startsWith (str "+") (Utils.normalizePhoneNumber phoneNumber)
              = true
              /\ forallb phoneChar (Utils.normalizePhoneNumber phoneNumber)
                 = true).
  { unfold Utils.normalizePhoneNumber. cbv zeta. fold phoneChar.
    pose proof (forallb_filter phoneChar phoneNumber) as F.
    set (f := filter phoneChar phoneNumber) in *.
    destruct (startsWith (str "+") f) eqn:S; cbn [negb].
    - split; assumption.
    - destruct (length f =? 10)%nat; split; try reflexivity; cbn; exact F. }
  destruct R as [R1 R2]. repeat split; auto.
Qed.

(** X5: the result of [normalizePhoneNumber] starts with [+], consists
    of digits and plus signs only, and is left unchanged by a second
    normalization. *)
Theorem normalizePhoneNumber_normal (phoneNumber : jsstring) :
  let normalized := Utils.normalizePhoneNumber phoneNumber in
  startsWith (str "+") normalized = true
  /\ forallb phoneChar normalized = true
  /\ Utils.normalizePhoneNumber normalized = normalized.
Proof. cbv zeta. apply normalizePhoneNumber_fixed. Qed.

(** ** Hexadecimal strings *)

Ltac each_char c :=
  destruct c as [[] [] [] [] [] [] [] []].

Lemma isHexDigit_lowerChar (c : ascii) :
  isHexDigit c = true ->
  isHexDigit (lowerChar c) = true /\ lowerChar (lowerChar c) = lowerChar c.
Proof. each_char c; intros H; try discriminate H; split; reflexivity. Qed.

Lemma isHexDigit_digitVal (c : ascii) :
  isHexDigit c = true ->
  exists d, BigInt.digitVal c = Some d /\ 0 <= d < 16.
Proof.
  intros H.
  assert (B : match BigInt.digitVal c with
              | Some d => (0 <=? d) && (d <? 16)
              | None => false
              end = true)
    by (revert H; each_char c; intros H; try discriminate H; reflexivity).
  destruct (BigInt.digitVal c) as [d|]; [|discriminate].
  exists d. apply andb_true_iff in B. destruct B as [B1 B2].
  apply Z.leb_le in B1. apply Z.ltb_lt in B2. auto.
Qed.

Lemma digitVal_not_whitespace (c : ascii) (d : Z) :
  BigInt.digitVal c = Some d -> isWhiteSpace c = false.
Proof. each_char c; intros H; try reflexivity; discriminate H. Qed.

Lemma isHexDigit_digitChar (d : Z) :
  0 <= d < 16 ->
  isHexDigit (BigInt.digitChar d) = true
  /\ lowerChar (BigInt.digitChar d) = BigInt.digitChar d.
Proof.
  intros H. rewrite <- (Z2Nat.id d) by lia.
  assert (K : (Z.to_nat d < 16)%nat) by lia.
  generalize dependent (Z.to_nat d). clear H d. intros k K.
  do 16 (destruct k as [|k]; [split; reflexivity|]). lia.
Qed.

Lemma matchesHexOfLength_inv (k : nat) (s : jsstring) :
  matchesHexOfLength k s = true ->
  exists h, s = str "0x" ++ h /\ length h = k
            /\ forallb isHexDigit h = true.
Proof.
  unfold matchesHexOfLength. rewrite !andb_true_iff, Nat.eqb_eq.
  intros [[S L] F].
  destruct s as [|a [|b h]]; try discriminate S.
  { cbn [startsWith str list_ascii_of_string] in S.
    rewrite andb_false_r in S. discriminate S. }
  cbn [startsWith str list_ascii_of_string] in S.
  rewrite !andb_true_iff, !Ascii.eqb_eq in S. destruct S as (<- & <- & _).
  exists h. cbn [skipn] in *. auto.
Qed.

Lemma matchesHexOfLength_intro (k : nat) (h : jsstring) :
  length h = k -> forallb isHexDigit h = true ->
  matchesHexOfLength k (str "0x" ++ h) = true.
Proof.
  intros L F. unfold matchesHexOfLength.
  cbn [str list_ascii_of_string app skipn startsWith Ascii.eqb Bool.eqb andb].
  rewrite F, andb_true_r. now apply Nat.eqb_eq.
Qed.

Lemma forallb_hex_lower (h : jsstring) :
  forallb isHexDigit h = true ->
  forallb isHexDigit (toLowerCase h) = true
  /\ toLowerCase (toLowerCase h) = toLowerCase h.
Proof.
  induction h as [|c h IH]; cbn [forallb toLowerCase map]; [auto|].
  rewrite andb_true_iff. intros [Hc Hh].
  destruct (isHexDigit_lowerChar c Hc) as [L1 L2].
  destruct (IH Hh) as [I1 I2]. unfold toLowerCase in *.
  rewrite L1, I1, L2, I2. auto.
Qed.

(** X6: [formatAddress] accepts exactly the strings [isValidAddress]
    accepts.  An accepted address comes back in lower case, is still a
    valid address and is a fixed point of [formatAddress]; any other
    string is rejected with [Invalid address format: <string>]. *)
Theorem formatAddress_canonical (address : jsstring) :
  (CeloTransport.isValidAddress address = true ->
   Utils.formatAddress address = Ok (toLowerCase address)
   /\ CeloTransport.isValidAddress (toLowerCase address) = true
   /\ Utils.formatAddress (toLowerCase address) = Ok (toLowerCase address))
  /\ (CeloTransport.isValidAddress address = false ->
      Utils.formatAddress address
      = Throw (Error (str "Invalid address format: " ++ address))).
Proof.
  unfold CeloTransport.isValidAddress, Utils.formatAddress. split.
  - intros V. rewrite V. cbn [negb].
    destruct (matchesHexOfLength_inv 40 address V) as (h & -> & L & F).
    destruct (forallb_hex_lower h F) as [F1 F2].
    assert (E : toLowerCase (str "0x" ++ h) = str "0x" ++ toLowerCase h)
      by reflexivity.
    assert (V' : matchesHexOfLength 40 (str "0x" ++ toLowerCase h) = true).
    { apply matchesHexOfLength_intro; [|exact F1].
      unfold toLowerCase. now rewrite length_map. }
    rewrite E, V'. cbn [negb].
    replace (toLowerCase (str "0x" ++ toLowerCase h))
      with (str "0x" ++ toLowerCase (toLowerCase h)) by reflexivity.
    rewrite F2. auto.
  - intros V. now rewrite V.
Qed.

Lemma parseDigitsFrom_chars (radix : Z) (s : jsstring) :
  forall acc v,
    BigInt.parseDigitsFrom radix s acc = Some v ->
    Forall (fun c => isWhiteSpace c = false) s.
Proof.
  induction s as [|c s IH]; intros acc v H; [constructor|].
  cbn [BigInt.parseDigitsFrom] in H.
  destruct (BigInt.digitVal c) as [d|] eqn:D; [|discriminate].
  destruct (d <? radix); [|discriminate].
  constructor; [eapply digitVal_not_whitespace; eassumption|].
  eapply IH; eassumption.
Qed.

(** [BigInt] reads a [0x] literal as the value of its digits. *)
Lemma ofString_hex_literal (w : jsstring) (v : Z) :
  BigInt.parseDigits 16 w = Some v ->
  BigInt.ofString (str "0x" ++ w) = Some v.
Proof.
  intros P. unfold BigInt.ofString.
  assert (W : Forall (fun c => isWhiteSpace c = false) w).
  { unfold BigInt.parseDigits in P. destruct w; [discriminate|].
    eapply parseDigitsFrom_chars; eassumption. }
  assert (N : w <> []) by (intros ->; discriminate P).
  rewrite trim_fixed.
  - cbv zeta. cbn [str list_ascii_of_string app BigInt.radixPrefix
                    Ascii.eqb Bool.eqb orb andb]. exact P.
  - reflexivity.
  - change (str "0x" ++ w) with ("0"%char :: "x"%char :: w).
    cbn [rev]. apply Forall_rev in W.
    destruct (rev w) as [|x t] eqn:E.
    + apply (f_equal (@rev ascii)) in E. rewrite rev_involutive in E.
      contradiction.
    + cbn [app hd]. now inversion W.
Qed.

Lemma hex_digits_chars (v : Z) :
  0 <= v ->
  forallb isHexDigit (map BigInt.digitChar (BigInt.digits 16 v)) = true.
Proof.
  intros Hv. apply forallb_forall. intros c Hc.
  apply in_map_iff in Hc. destruct Hc as (d & <- & Hd).
  pose proof (digits_range 16 ltac:(lia) v Hv) as R.
  rewrite Forall_forall in R. apply isHexDigit_digitChar. auto.
Qed.

Lemma startsWith_0x_decimal (s : jsstring) :
  decimalString s -> startsWith (str "0x") s = false.
Proof.
  intros D. destruct D as [|a r Ha D]; [reflexivity|].
  destruct D as [|b r Hb D].
  - cbn. now rewrite andb_false_r.
  - cbn [str list_ascii_of_string startsWith].
    destruct (Ascii.eqb_spec "x" b) as [<-|_]; [discriminate Hb|].
    now rewrite andb_false_r.
Qed.

Lemma toString_nonneg (radix v : Z) :
  0 <= v ->
  BigInt.toString radix v = map BigInt.digitChar (BigInt.digits radix v).
Proof.
  intros H. unfold BigInt.toString.
  destruct (Z.ltb_spec v 0); [lia | reflexivity].
Qed.

(** X7: for a non-negative integer [v] given as a Number, a BigInt or a
    decimal string, [toHex] returns [0x] followed by the minimal
    hexadecimal numeral of [v]; the result satisfies [isHex], is
    returned unchanged by a second [toHex], and [fromHex] gives [v]
    back.  The hexadecimal form of a negative integer is not accepted by
    [fromHex]. *)
Theorem toHex_fromHex (v : Z) :
  let quantity := str "0x" ++ BigInt.toString 16 v in
  (forall value,
      value = VNumber v \/ value = VBigInt v ->
      Utils.toHex value = Ok quantity)
  /\ (0 <= v ->
      Utils.toHex (VString (BigInt.toString 10 v)) = Ok quantity
      /\ Utils.isHex quantity = true
      /\ Utils.toHex (VString quantity) = Ok quantity
      /\ Utils.fromHex quantity = Ok v)
  /\ (v < 0 ->
      Utils.isHex quantity = false
      /\ exists e, Utils.fromHex quantity = Throw (SyntaxError e)).
Proof.
  cbv zeta. split; [|split].
  - intros value [-> | ->]; reflexivity.
  - intros Hv. repeat split.
    + unfold Utils.toHex.
      assert (S0 : startsWith (str "0x") (BigInt.toString 10 v) = false).
      { rewrite toString_nonneg by exact Hv.
        now apply startsWith_0x_decimal, decimalString_digits. }
      rewrite S0. cbn [Js.toBigInt]. now rewrite fromString_toString.
    + unfold Utils.isHex. rewrite toString_nonneg by exact Hv.
      cbn [str list_ascii_of_string app skipn startsWith Ascii.eqb Bool.eqb
             andb].
      now apply hex_digits_chars.
    + unfold Utils.fromHex, BigInt.fromString.
      rewrite ofString_hex_literal with (v := v); [reflexivity|].
      rewrite toString_nonneg by exact Hv.
      apply parseDigits_digits; lia.
  - intros Hv. unfold BigInt.toString.
    destruct (Z.ltb_spec v 0); [|lia]. split.
    + reflexivity.
    + unfold Utils.fromHex, BigInt.fromString, BigInt.ofString.
      set (s := map BigInt.digitChar (BigInt.digits 16 (- v))).
      assert (Hs : s <> []).
      { intros E. apply map_eq_nil in E. now apply digits_nonempty in E. }
      assert (Hh : forallb isHexDigit s = true)
        by (apply hex_digits_chars; lia).
      rewrite trim_fixed.
      * cbv zeta. cbn [str list_ascii_of_string app BigInt.radixPrefix
                        Ascii.eqb Bool.eqb orb andb BigInt.parseDigits
                        BigInt.parseDigitsFrom].
        eexists. reflexivity.
      * reflexivity.
      * change (str "0x" ++ "-"%char :: s)
          with ("0"%char :: "x"%char :: "-"%char :: s).
        cbn [rev].
        destruct (rev s) as [|x t] eqn:E.
        { apply (f_equal (@rev ascii)) in E. rewrite rev_involutive in E.
          contradiction. }
        cbn [app hd].
        assert (Hx : In x s) by (apply in_rev; rewrite E; now left).
        rewrite forallb_forall in Hh. specialize (Hh x Hx).
        destruct (isHexDigit_digitVal x Hh) as (d & Hd & _).
        eapply digitVal_not_whitespace; eassumption.
Qed.

(** ** Encoding and decoding ABI words *)

Lemma slice_inside (pre w post : jsstring) (a b : nat) :
  (a <= b <= length w)%nat ->
  slice (pre ++ w ++ post)
        (Z.of_nat (length pre) + Z.of_nat a) (Z.of_nat (length pre) + Z.of_nat b)
  = firstn (b - a) (skipn a w).
Proof.
  intros H.
  rewrite <- !Nat2Z.inj_add.
  rewrite slice_between by (rewrite !length_app; lia).
  replace (length pre + b - (length pre + a))%nat with (b - a)%nat by lia.
  rewrite skipn_app, skipn_all2 by lia.
  replace (length pre + a - length pre)%nat with a by lia.
  cbn [app]. rewrite skipn_app, firstn_app, length_skipn.
  replace (b - a - (length w - a))%nat with 0%nat by lia.
  cbn [firstn]. now rewrite app_nil_r.
Qed.

Lemma slice_word (pre w post : jsstring) :
  length w = 64%nat ->
  slice (pre ++ w ++ post) (Z.of_nat (length pre)) (Z.of_nat (length pre) + 64)
  = w.
Proof.
  intros L.
  pose proof (slice_inside pre w post 0 64 ltac:(lia)) as S.
  cbn [Z.of_nat Pos.of_succ_nat Pos.succ] in S.
  rewrite Z.add_0_r in S. rewrite S. cbn [skipn].
  apply firstn_all2. lia.
Qed.

Lemma slice_word_from (pre w post : jsstring) (a : nat) :
  length w = 64%nat -> (a <= 64)%nat ->
  slice (pre ++ w ++ post)
        (Z.of_nat (length pre) + Z.of_nat a) (Z.of_nat (length pre) + 64)
  = skipn a w.
Proof.
  intros L Ha.
  pose proof (slice_inside pre w post a 64 ltac:(lia)) as S.
  change (Z.of_nat 64) with 64 in S. rewrite S.
  apply firstn_all2. rewrite length_skipn. lia.
Qed.

Lemma encodeParameter_address (count : nat) (h : jsstring) :
  length h = 40%nat ->
  CeloClient.encodeParameter count (str "address") (VString (str "0x" ++ h))
  = Ok (repeat "0"%char 24 ++ toLowerCase h).
Proof.
  intros L.
  assert (E : CeloClient.encodeParameter count (str "address")
                (VString (str "0x" ++ h))
              = Ok (CeloClient.padLeft
                      (replace (str "0x") [] (str "0x" ++ toLowerCase h)) 64))
    by reflexivity.
  rewrite E, replace_prefix. unfold CeloClient.padLeft, padStart, toLowerCase.
  now rewrite length_map, L.
Qed.

Lemma encodeParameter_bytes32 (count : nat) (h : jsstring) :
  length h = 64%nat ->
  CeloClient.encodeParameter count (str "bytes32") (VString (str "0x" ++ h))
  = Ok h.
Proof.
  intros L.
  assert (E : CeloClient.encodeParameter count (str "bytes32")
                (VString (str "0x" ++ h))
              = Ok (CeloClient.padLeft
                      (replace (str "0x") [] (str "0x" ++ h)) 64))
    by reflexivity.
  rewrite E, replace_prefix. unfold CeloClient.padLeft, padStart.
  now rewrite L.
Qed.

Lemma encodeParameter_bool (count : nat) (value : JsValue) :
  CeloClient.encodeParameter count (str "bool") value
  = Ok (repeat "0"%char 63 ++ (if Js.truthy value then str "1" else str "0")).
Proof.
  unfold CeloClient.encodeParameter, CeloClient.padLeft.
  cbn [eqb str list_ascii_of_string Ascii.eqb Bool.eqb andb].
  destruct (Js.truthy value); reflexivity.
Qed.

Lemma length_uint_word (v : Z) :
  0 <= v < 2 ^ 256 ->
  length (CeloClient.padLeft (BigInt.toString 16 v) 64) = 64%nat.
Proof.
  intros H. unfold CeloClient.padLeft.
  rewrite length_padStart, toString_nonneg, length_map by lia.
  pose proof (digits_length_le 16 ltac:(lia) 63 v) as L.
  change (16 ^ Z.of_nat 64) with (2 ^ 256) in L.
  specialize (L ltac:(lia)). lia.
Qed.

Lemma fromString_uint_word (v : Z) :
  0 <= v ->
  BigInt.fromString
    (str "0x" ++ CeloClient.padLeft (BigInt.toString 16 v) 64) = Ok v.
Proof.
  intros H. unfold BigInt.fromString, CeloClient.padLeft.
  rewrite ofString_hex_literal with (v := v); [reflexivity|].
  rewrite toString_nonneg by lia. apply parseDigits_padStart; lia.
Qed.

(** The word of one well-formed parameter: what the encoder appends and
    what the decoder reads back from it, wherever it stands. *)
Lemma abiParam_word (type : jsstring) (value decoded : JsValue) :
  abiParam type value decoded ->
  exists w,
    (forall count, CeloClient.encodeParameter count type value = Ok w)
    /\ length w = 64%nat
    /\ forall pre post rest results,
        CeloClient.decodeFrom (pre ++ w ++ post) (type :: rest)
          (Z.of_nat (length pre)) results
        = CeloClient.decodeFrom (pre ++ w ++ post) rest
            (Z.of_nat (length pre) + 64) (results ++ [decoded]).
Proof.
  intros P. destruct P as [a V | type value v Ht B R | value | h V].
  - destruct (matchesHexOfLength_inv 40 a V) as (h & -> & L & F).
    exists (repeat "0"%char 24 ++ toLowerCase h).
    assert (Lw : length (repeat "0"%char 24 ++ toLowerCase h) = 64%nat).
    { rewrite length_app, repeat_length. unfold toLowerCase.
      rewrite length_map. lia. }
    split; [intros count; now apply encodeParameter_address|].
    split; [exact Lw|].
    intros pre post rest results.
    cbn [CeloClient.decodeFrom eqb str list_ascii_of_string Ascii.eqb
           Bool.eqb andb orb].
    change 24 with (Z.of_nat 24).
    rewrite slice_word_from by (auto; lia).
    rewrite skipn_app, repeat_length.
    rewrite skipn_all2 by (rewrite repeat_length; lia).
    reflexivity.
  - exists (CeloClient.padLeft (BigInt.toString 16 v) 64).
    pose proof (length_uint_word v R) as Lw.
    split; [intros count; now apply encodeParameter_uint|].
    split; [exact Lw|].
    intros pre post rest results.
    assert (E : CeloClient.decodeFrom
                  (pre ++ CeloClient.padLeft (BigInt.toString 16 v) 64 ++ post)
                  (type :: rest) (Z.of_nat (length pre)) results
                = (let? n := BigInt.fromString
                               (str "0x"
                                  ++ slice (pre ++ CeloClient.padLeft
                                                     (BigInt.toString 16 v) 64
                                                ++ post)
                                       (Z.of_nat (length pre))
                                       (Z.of_nat (length pre) + 64)) in
                   CeloClient.decodeFrom
                     (pre ++ CeloClient.padLeft (BigInt.toString 16 v) 64
                          ++ post)
                     rest (Z.of_nat (length pre) + 64)
                     (results ++ [VString (BigInt.toString 10 n)])))
      by (destruct Ht as [-> | ->]; reflexivity).
    rewrite E, slice_word by exact Lw.
    rewrite fromString_uint_word by lia. reflexivity.
  - exists (repeat "0"%char 63
              ++ (if Js.truthy value then str "1" else str "0")).
    assert (Lw : length (repeat "0"%char 63
                           ++ (if Js.truthy value then str "1" else str "0"))
                 = 64%nat)
      by (destruct (Js.truthy value); reflexivity).
    split; [intros count; apply encodeParameter_bool|].
    split; [exact Lw|].
    intros pre post rest results.
    cbn [CeloClient.decodeFrom eqb str list_ascii_of_string Ascii.eqb
           Bool.eqb andb orb].
    change 63 with (Z.of_nat 63).
    rewrite slice_word_from by (auto; lia).
    rewrite skipn_app, repeat_length.
    rewrite skipn_all2 by (rewrite repeat_length; lia).
    destruct (Js.truthy value); reflexivity.
  - destruct (matchesHexOfLength_inv 64 h V) as (w & -> & L & F).
    exists w.
    split; [intros count; now apply encodeParameter_bytes32|].
    split; [exact L|].
    intros pre post rest results.
    cbn [CeloClient.decodeFrom eqb str list_ascii_of_string Ascii.eqb
           Bool.eqb andb orb].
    now rewrite slice_word by exact L.
Qed.

Lemma abi_words (params : list (jsstring * JsValue * JsValue)) :
  Forall wellFormedParam params ->
  exists encoded,
    length encoded = (64 * length params)%nat
    /\ (forall count before encoded0,
          CeloClient.encodeFrom count (map paramType params) (length before)
            (before ++ map paramValue params) encoded0
          = Ok (encoded0 ++ encoded))
    /\ (forall pre post results,
          CeloClient.decodeFrom (pre ++ encoded ++ post) (map paramType params)
            (Z.of_nat (length pre)) results
          = Ok (results ++ map paramDecoded params)).
Proof.
  induction 1 as [|p params Hp _ IH].
  - exists []. split; [reflexivity|]. split.
    + intros. cbn. now rewrite app_nil_r.
    + intros. cbn. now rewrite app_nil_r.
  - destruct IH as (rest & Lr & Er & Dr).
    destruct (abiParam_word _ _ _ Hp) as (w & Ew & Lw & Dw).
    exists (w ++ rest). split; [|split].
    + rewrite length_app. cbn [length]. lia.
    + intros count before encoded0. cbn [map CeloClient.encodeFrom].
      cbv zeta. rewrite nth_middle, Ew. cbn [rbind].
      replace (before ++ paramValue p :: map paramValue params)
        with ((before ++ [paramValue p]) ++ map paramValue params)
        by (now rewrite <- app_assoc).
      replace (S (length before)) with (length (before ++ [paramValue p]))
        by (rewrite length_app; cbn [length]; lia).
      rewrite Er. now rewrite <- app_assoc.
    + intros pre post results. cbn [map].
      rewrite <- app_assoc, Dw.
      replace (pre ++ w ++ rest ++ post) with ((pre ++ w) ++ rest ++ post)
        by (now rewrite <- app_assoc).
      replace (Z.of_nat (length pre) + 64)
        with (Z.of_nat (length (pre ++ w)))
        by (rewrite length_app; lia).
      rewrite Dr. now rewrite <- app_assoc.
Qed.

(** X8: a list of well-formed static parameters (valid addresses,
    integers below [2^256], booleans by truthiness, 32-byte hashes)
    survives the round trip: [encodeParameters] succeeds with 64
    characters per parameter, and [decodeResult] of the [0x]-prefixed
    encoding returns, in order, the lower-cased address, the decimal
    numeral, the boolean and the hash. *)
Theorem encode_decode_round_trip (params : list (jsstring * JsValue * JsValue)) :
  Forall wellFormedParam params ->
  exists encoded,
    CeloClient.encodeParameters (map paramType params)
                                (map paramValue params) = Ok encoded
    /\ length encoded = (64 * length params)%nat
    /\ CeloClient.decodeResult (str "0x" ++ encoded) (map paramType params)
       = Ok (map paramDecoded params).
Proof.
  intros H. destruct (abi_words params H) as (encoded & L & E & D).
  exists encoded. split; [|split].
  - unfold CeloClient.encodeParameters.
    exact (E (length (map paramType params)) [] []).
  - exact L.
  - unfold CeloClient.decodeResult. rewrite replace_prefix.
    pose proof (D [] [] []) as D0. cbn [app length Z.of_nat] in D0.
    now rewrite app_nil_r in D0.
Qed.

Lemma encodeParameters_single (type : jsstring) (value : JsValue)
      (w : jsstring) :
  CeloClient.encodeParameter 1 type value = Ok w ->
  CeloClient.encodeParameters [type] [value] = Ok w.
Proof.
  intros E. unfold CeloClient.encodeParameters.
  cbn [length CeloClient.encodeFrom nth]. now rewrite E.
Qed.

(** X9: the single-value decoders of the helpers invert the encoder: on
    the word encoded for a valid address [decodeAddress] returns the
    address in lower case, on the word of an integer below [2^256]
    [decodeUint256] returns its decimal numeral, on the word of a
    boolean [decodeBool] returns its truth value; [decodeUint256] also
    reads an unpadded [0x] quantity. *)
Theorem helpers_decode_encoded :
  (forall a,
      CeloTransport.isValidAddress a = true ->
      exists w,
        CeloClient.encodeParameters [str "address"] [VString a] = Ok w
        /\ Helpers.decodeAddress (str "0x" ++ w) = toLowerCase a)
  /\ (forall type value v,
        type = str "uint256" \/ type = str "uint" ->
        Js.toBigInt value = Ok v -> 0 <= v < 2 ^ 256 ->
        exists w,
          CeloClient.encodeParameters [type] [value] = Ok w
          /\ Helpers.decodeUint256 (str "0x" ++ w)
             = Ok (BigInt.toString 10 v))
  /\ (forall value,
        exists w,
          CeloClient.encodeParameters [str "bool"] [value] = Ok w
          /\ Helpers.decodeBool (str "0x" ++ w) = Js.truthy value)
  /\ (forall v,
        0 <= v ->
        Helpers.decodeUint256 (str "0x" ++ BigInt.toString 16 v)
        = Ok (BigInt.toString 10 v)).
Proof.
  split; [|split; [|split]].
  - intros a V.
    destruct (matchesHexOfLength_inv 40 a V) as (h & -> & L & F).
    destruct (forallb_hex_lower h F) as [_ F2].
    exists (repeat "0"%char 24 ++ toLowerCase h). split.
    + apply encodeParameters_single. now apply encodeParameter_address.
    + rewrite decodeAddress_low_bytes.
      * rewrite skipn_app, repeat_length.
        rewrite skipn_all2 by (rewrite repeat_length; lia).
        cbn [Nat.sub skipn app]. now rewrite F2.
      * rewrite length_app, repeat_length. unfold toLowerCase.
        rewrite length_map. lia.
  - intros type value v Ht B R.
    exists (CeloClient.padLeft (BigInt.toString 16 v) 64). split.
    + apply encodeParameters_single. now apply encodeParameter_uint.
    + unfold Helpers.decodeUint256. rewrite replace_prefix.
      rewrite fromString_uint_word by lia. reflexivity.
  - intros value.
    exists (repeat "0"%char 63
              ++ (if Js.truthy value then str "1" else str "0")).
    split.
    + apply encodeParameters_single. apply encodeParameter_bool.
    + destruct (Js.truthy value); reflexivity.
  - intros v Hv. unfold Helpers.decodeUint256. rewrite replace_prefix.
    unfold BigInt.fromString.
    rewrite ofString_hex_literal with (v := v); [reflexivity|].
    rewrite toString_nonneg by exact Hv. apply parseDigits_digits; lia.
Qed.

(** ** Dynamic and unknown types *)

Lemma encodeParameter_dynamic (count : nat) (type : jsstring)
      (value : JsValue) :
  type = str "string" \/ type = str "bytes" ->
  CeloClient.encodeParameter count type value
  = Ok (CeloClient.padLeft (BigInt.toString 16 (Z.of_nat count * 32)) 64).
Proof. intros [-> | ->]; reflexivity. Qed.

Lemma encodeFrom_dynamic (count : nat) (types : list jsstring) :
  Forall (fun t => t = str "string" \/ t = str "bytes") types ->
  forall i values encoded,
    CeloClient.encodeFrom count types i values encoded
    = Ok (encoded
            ++ concat (repeat (CeloClient.padLeft
                                 (BigInt.toString 16 (Z.of_nat count * 32)) 64)
                              (length types))).
Proof.
  induction 1 as [|t types Ht _ IH]; intros i values encoded.
  - cbn. now rewrite app_nil_r.
  - cbn [CeloClient.encodeFrom]. cbv zeta.
    rewrite encodeParameter_dynamic by exact Ht. cbn [rbind].
    rewrite IH. cbn [length repeat concat]. now rewrite <- app_assoc.
Qed.

(** X10: for the dynamic types [string] and [bytes] the encoder emits
    only the offset word [32 * types.length] and never the payload: the
    encoding of a list of dynamic parameters is the same for all
    values.  A type outside the encoder's list is skipped without error
    and contributes nothing. *)
Theorem encodeParameters_dynamic_and_unknown :
  (forall types values values',
      Forall (fun t => t = str "string" \/ t = str "bytes") types ->
      CeloClient.encodeParameters types values
      = CeloClient.encodeParameters types values'
      /\ CeloClient.encodeParameters types values
         = Ok (concat (repeat (CeloClient.padLeft
                                 (BigInt.toString 16
                                    (Z.of_nat (length types) * 32)) 64)
                              (length types))))
  /\ (forall type value,
        type = str "string" \/ type = str "bytes" ->
        CeloClient.encodeParameters [type] [value]
        = Ok (str "0000000000000000000000000000000000000000000000000000000000000020"))
  /\ (forall type value,
        ~ In type [str "address"; str "uint256"; str "uint"; str "bool";
                   str "bytes32"; str "string"; str "bytes"] ->
        CeloClient.encodeParameters [type] [value] = Ok []).
Proof.
  split; [|split].
  - intros types values values' H. unfold CeloClient.encodeParameters.
    rewrite !(encodeFrom_dynamic _ _ H). auto.
  - intros type value H. apply encodeParameters_single.
    now rewrite encodeParameter_dynamic.
  - intros type value H. apply encodeParameters_single.
    unfold CeloClient.encodeParameter.
    repeat match goal with
           | |- context [eqb type ?s] =>
               let E := fresh "E" in
               destruct (eqb type s) eqn:E;
               [apply eqb_eq in E; subst type; exfalso; apply H; cbn; tauto|]
           end.
    reflexivity.
Qed.

(** ** Function selectors *)

Lemma slice_from_start (s : jsstring) (k : nat) :
  slice s 0 (Z.of_nat k) = firstn k s.
Proof.
  unfold slice. rewrite relIndex_zero. cbn [skipn]. rewrite Nat.sub_0_r.
  unfold relIndex. destruct (Z.ltb_spec (Z.of_nat k) 0); [lia|].
  destruct (Nat.le_gt_cases k (length s)) as [Le|Gt].
  - f_equal. lia.
  - replace (Z.to_nat (Z.min (Z.of_nat k) (Z.of_nat (length s))))
      with (length s) by lia.
    rewrite firstn_all. symmetry. apply firstn_all2. lia.
Qed.

Lemma selector_agrees (sha3_256 : jsstring -> jsstring)
      (functionName : jsstring) (types : list jsstring) (sig : jsstring) :
  sig = functionName ++ str "(" ++ join (str ",") types ++ str ")" ->
  CeloTransport.getFunctionSelector sha3_256 functionName types
  = Utils.createFunctionSelector sha3_256 sig.
Proof.
  intros ->. unfold CeloTransport.getFunctionSelector, CeloTransport.keccak256,
    Utils.createFunctionSelector. cbv zeta.
  change 10 with (Z.of_nat 10). change 8 with (Z.of_nat 8).
  rewrite !slice_from_start. reflexivity.
Qed.

Lemma encodeDataFrom_encodeFrom (count : nat) (types : list jsstring) :
  Forall (fun t => t = str "address" \/ t = str "uint256") types ->
  forall i params encoded,
    Utils.encodeDataFrom types i params encoded
    = CeloClient.encodeFrom count types i params encoded.
Proof.
  induction 1 as [|t types Ht _ IH]; intros i params encoded; [reflexivity|].
  destruct Ht as [-> | ->];
    cbn [Utils.encodeDataFrom CeloClient.encodeFrom]; cbv zeta.
  - change (CeloClient.encodeParameter count (str "address")
              (nth i params VUndefined))
      with (Ok (CeloClient.padLeft
                  (replace (str "0x") []
                     (toLowerCase (Js.toString (nth i params VUndefined))))
                  64) : result jsstring).
    cbn [rbind eqb str list_ascii_of_string Ascii.eqb Bool.eqb andb].
    apply IH.
  - change (eqb (str "uint256") (str "address")) with false.
    change (eqb (str "uint256") (str "uint256")) with true.
    cbv iota.
    assert (E : CeloClient.encodeParameter count (str "uint256")
                  (nth i params VUndefined)
                = (let? n := Js.toBigInt (nth i params VUndefined) in
                   Ok (CeloClient.padLeft (BigInt.toString 16 n) 64)))
      by reflexivity.
    rewrite E.
    destruct (Js.toBigInt (nth i params VUndefined)); cbn [rbind];
      [apply IH | reflexivity].
Qed.

(** X11: for each of the eight functions of its table,
    [encodeFunctionData] of the helpers returns exactly what
    [encodeFunctionCall] of the transport returns for the same name,
    parameter types and values, errors included, whatever the digest
    function. *)
Theorem encodeFunctionData_agrees (sha3_256 : jsstring -> jsstring)
        (functionName sig : jsstring) (types : list jsstring)
        (params : list JsValue) :
  Utils.signatures functionName = Some (sig, types) ->
  Utils.encodeFunctionData sha3_256 functionName params
  = CeloTransport.encodeFunctionCall sha3_256 functionName types params.
Proof.
  intros S.
  assert (K : sig = functionName ++ str "(" ++ join (str ",") types ++ str ")"
              /\ Forall (fun t => t = str "address" \/ t = str "uint256") types).
  { unfold Utils.signatures in S.
    repeat match type of S with
           | (if eqb functionName ?s then _ else _) = _ =>
               let E := fresh "E" in
               destruct (eqb functionName s) eqn:E;
               [apply eqb_eq in E; subst functionName;
                injection S as <- <-;
                split;
                [reflexivity
                |repeat first
                   [apply Forall_nil
                   |apply Forall_cons;
                    [first [left; reflexivity | right; reflexivity]|]]] |]
           end.
    discriminate S. }
  destruct K as [Ksig Kty].
  unfold Utils.encodeFunctionData, CeloTransport.encodeFunctionCall.
  rewrite S. cbv zeta.
  rewrite (selector_agrees sha3_256 functionName types sig Ksig).
  unfold CeloClient.encodeParameters.
  destruct types as [|t types].
  - cbn [CeloClient.encodeFrom rbind]. now rewrite app_nil_r.
  - now rewrite (encodeDataFrom_encodeFrom (length (t :: types)) _ Kty).
Qed.

(** ** Round trips between base units and major units *)

Lemma stripTrailing_decompose (c : ascii) (s : jsstring) :
  s = stripTrailing c s
        ++ repeat c (length s - length (stripTrailing c s)).
Proof.
  induction s as [|x r IH]; [reflexivity|]. cbn [stripTrailing].
  destruct (stripTrailing c r) as [|y t] eqn:E.
  - cbn [app length] in IH. rewrite Nat.sub_0_r in IH.
    destruct (Ascii.eqb_spec x c) as [->|_].
    + cbn [app length]. rewrite Nat.sub_0_r. cbn [repeat]. now f_equal.
    + cbn [app length]. replace (S (length r) - 1)%nat with (length r) by lia.
      now f_equal.
  - cbn [app length] in *.
    replace (S (length r) - S (S (length t)))%nat
      with (length r - S (length t))%nat by lia.
    now f_equal.
Qed.

Lemma length_stripTrailing (c : ascii) (s : jsstring) :
  (length (stripTrailing c s) <= length s)%nat.
Proof.
  rewrite (stripTrailing_decompose c s) at 2. rewrite length_app. lia.
Qed.

Lemma decimalString_stripTrailing (s : jsstring) :
  decimalString s -> decimalString (stripTrailing "0" s).
Proof.
  intros D. rewrite (stripTrailing_decompose "0" s) in D.
  now apply decimalString_app in D.
Qed.

Lemma padded_fraction_restored (s : jsstring) :
  firstn (length s)
         (stripTrailing "0" s
            ++ repeat "0"%char (length s - length (stripTrailing "0" s)))
  = s.
Proof.
  rewrite <- (stripTrailing_decompose "0" s). apply firstn_all.
Qed.

Lemma decValue_toString (n : Z) :
  0 <= n -> decValue (BigInt.toString 10 n) = n.
Proof.
  intros H. pose proof (fromString_toString n) as F.
  rewrite fromString_decimal in F
    by (rewrite toString_nonneg by exact H; now apply decimalString_digits).
  now injection F.
Qed.

Lemma decimalString_toString (n : Z) :
  0 <= n -> decimalString (BigInt.toString 10 n).
Proof.
  intros H. rewrite toString_nonneg by exact H.
  now apply decimalString_digits.
Qed.

Lemma length_toString_le (n : Z) (d : nat) :
  (1 <= d)%nat -> 0 <= n < 10 ^ Z.of_nat d ->
  (length (BigInt.toString 10 n) <= d)%nat.
Proof.
  intros Hd H. rewrite toString_nonneg, length_map by lia.
  destruct d as [|d]; [lia|].
  apply (digits_length_le 10 ltac:(lia) d n H).
Qed.

Lemma parseUnits_whole_value (ip : jsstring) (d : nat) :
  decimalString ip ->
  CeloClient.parseUnits ip d
  = Ok (BigInt.toString 10 (decValue ip * 10 ^ Z.of_nat d)).
Proof.
  intros D.
  rewrite parseUnits_unfold_whole by now apply decimalString_no_point.
  rewrite fromString_decimal
    by (apply decimalString_app; split;
        [exact D | apply decimalString_zeros]).
  cbn [rbind].
  now rewrite decValue_app, decValue_zeros, repeat_length, Z.add_0_r.
Qed.

(** X12: formatting and parsing are inverse up to 22 decimals: for a
    non-negative base amount [v], given as a BigInt or as a string of
    decimal digits, [parseUnits (formatUnits v d) d] is the decimal
    numeral of [v]. *)
Theorem parseUnits_formatUnits (d : nat) :
  (d <= 22)%nat ->
  (forall v,
      0 <= v ->
      exists s,
        CeloClient.formatUnits (inr v) d = Ok s
        /\ CeloClient.parseUnits s d = Ok (BigInt.toString 10 v))
  /\ (forall x,
        decimalString x ->
        exists s,
          CeloClient.formatUnits (inl x) d = Ok s
          /\ CeloClient.parseUnits s d = Ok (canonical x)).
Proof.
  intros Hd.
  assert (K : forall v, 0 <= v ->
                        CeloClient.parseUnits (formatUnitsSpec v d) d
                        = Ok (BigInt.toString 10 v)).
  { intros v Hv. unfold formatUnitsSpec.
    assert (P : 0 < 10 ^ Z.of_nat d) by (apply Z.pow_pos_nonneg; lia).
    pose proof (Z.div_mod v (10 ^ Z.of_nat d) ltac:(lia)) as DM.
    pose proof (Z.mod_pos_bound v (10 ^ Z.of_nat d) P) as RB.
    assert (Q0 : 0 <= v / 10 ^ Z.of_nat d) by (apply Z.div_pos; lia).
    set (q := v / 10 ^ Z.of_nat d) in *.
    set (r := v mod 10 ^ Z.of_nat d) in *.
    destruct (Z.eqb_spec v 0) as [->|NZ].
    - rewrite parseUnits_whole_value by digits_only. reflexivity.
    - destruct (Z.eqb_spec r 0) as [R0|RN].
      + rewrite parseUnits_whole_value by now apply decimalString_toString.
        rewrite decValue_toString by exact Q0. f_equal. f_equal. lia.
      + assert (D1 : (1 <= d)%nat).
        { destruct d; [|lia]. cbn in RB. lia. }
        set (S := padStart d "0" (BigInt.toString 10 r)).
        assert (LS : length S = d).
        { unfold S. rewrite length_padStart.
          pose proof (length_toString_le r d D1 ltac:(lia)). lia. }
        assert (DS : decimalString S).
        { unfold S. apply decimalString_padStart.
          apply decimalString_toString. lia. }
        assert (VS : decValue S = r).
        { unfold S. rewrite decValue_padStart. apply decValue_toString. lia. }
        change (BigInt.toString 10 q ++ str "." ++ stripTrailing "0" S)
          with (BigInt.toString 10 q ++ "."%char :: stripTrailing "0" S).
        rewrite parseUnits_unfold_point.
        * pose proof (padded_fraction_restored S) as R. rewrite LS in R.
          rewrite R.
          rewrite fromString_decimal.
          -- cbn [rbind].
             rewrite decValue_app, LS, VS, decValue_toString by exact Q0.
             f_equal. f_equal. lia.
          -- apply decimalString_app.
             split; [now apply decimalString_toString | exact DS].
        * apply decimalString_no_point. now apply decimalString_toString.
        * apply decimalString_no_point.
          now apply decimalString_stripTrailing. }
  split.
  - intros v Hv. exists (formatUnitsSpec v d).
    split; [now apply formatUnits_exact | now apply K].
  - intros x Dx. exists (formatUnitsSpec (decValue x) d).
    pose proof (decValue_bound x Dx) as [Hv _].
    split; [now apply formatUnits_decimal|].
    rewrite K by exact Hv. f_equal.
    now destruct (toString_decValue x Dx).
Qed.

Lemma split_amount (x : jsstring) :
  Forall amountChar x -> Forall decimalString (split "." x).
Proof.
  induction 1 as [|c r Hc _ IH]; [repeat constructor|].
  cbn [split]. destruct (Ascii.eqb_spec c ".") as [->|Hne].
  - constructor; [constructor | exact IH].
  - destruct Hc as [Hc|Hc]; [|contradiction].
    destruct (split "." r) as [|h t].
    + repeat constructor. exact Hc.
    + inversion IH; subst. constructor; [|assumption].
      constructor; assumption.
Qed.

Lemma decimalString_nth (l : list jsstring) (i : nat) :
  Forall decimalString l -> decimalString (nth i l []).
Proof.
  intros F. revert i. induction F as [|x l Hx _ IH]; intros [|i];
    cbn [nth]; try constructor; auto.
Qed.

Lemma decimalString_hd (l : list jsstring) :
  Forall decimalString l -> decimalString (hd [] l).
Proof. intros F. destruct F; [constructor | assumption]. Qed.

(** X13: on an amount written with digits and decimal points only,
    [parseUnits] of the transport and [parseTokenAmount] of the helpers
    return the same string, for every number of decimals. *)
Theorem parseUnits_parseTokenAmount (amount : jsstring) (decimals : nat) :
  Forall amountChar amount ->
  CeloClient.parseUnits amount decimals
  = Ok (Utils.parseTokenAmount amount decimals).
Proof.
  intros H. pose proof (split_amount amount H) as F.
  unfold CeloClient.parseUnits, Utils.parseTokenAmount. cbv zeta.
  set (combined := hd [] (split "." amount)
                     ++ slice (padEnd decimals "0" (nth 1 (split "." amount) []))
                          0 (Z.of_nat decimals)).
  assert (D : decimalString combined).
  { unfold combined. apply decimalString_app.
    split; [now apply decimalString_hd|].
    rewrite slice_padEnd. apply decimalString_firstn, decimalString_app.
    split; [now apply decimalString_nth | apply decimalString_zeros]. }
  rewrite fromString_decimal by exact D. cbn [rbind].
  destruct (toString_decValue combined D) as [T _]. now rewrite T.
Qed.

(** ** The string-based formatter at any number of decimals *)

Section TokenAmounts.

Variable d : nat.
Hypothesis d_positive : (1 <= d)%nat.

Lemma length_fractionDigitsAt (v : jsstring) :
  length (fractionDigitsAt d v) = d.
Proof.
  unfold fractionDigitsAt. cbv zeta.
  rewrite length_skipn, length_padStart. lia.
Qed.

Lemma length_integerDigitsAt (v : jsstring) :
  length (integerDigitsAt d v) = (Nat.max (d + 1) (length v) - d)%nat.
Proof.
  unfold integerDigitsAt. cbv zeta.
  rewrite length_firstn, length_padStart. lia.
Qed.

Lemma integerDigitsAt_nonempty (v : jsstring) : integerDigitsAt d v <> [].
Proof.
  intros E. pose proof (length_integerDigitsAt v) as L.
  rewrite E in L. cbn [length] in L. lia.
Qed.

Lemma digitsAt_split (v : jsstring) :
  padStart (d + 1) "0" v = integerDigitsAt d v ++ fractionDigitsAt d v.
Proof. symmetry. apply firstn_skipn. Qed.

Lemma decimalString_digitsAt (v : jsstring) :
  decimalString v ->
  decimalString (integerDigitsAt d v) /\ decimalString (fractionDigitsAt d v).
Proof.
  intros D. apply decimalString_app. rewrite <- digitsAt_split.
  now apply decimalString_padStart.
Qed.

Lemma decValue_digitsAt (v : jsstring) :
  decimalString v ->
  decValue v / 10 ^ Z.of_nat d = decValue (integerDigitsAt d v)
  /\ decValue v mod 10 ^ Z.of_nat d = decValue (fractionDigitsAt d v).
Proof.
  intros D. destruct (decimalString_digitsAt v D) as [DA DB].
  pose proof (decValue_bound _ DA) as [PA _].
  pose proof (decValue_bound _ DB) as PB.
  rewrite length_fractionDigitsAt in PB.
  assert (V : decValue v = decValue (integerDigitsAt d v) * 10 ^ Z.of_nat d
                           + decValue (fractionDigitsAt d v)).
  { rewrite <- (decValue_padStart (d + 1) v), digitsAt_split, decValue_app,
      length_fractionDigitsAt. reflexivity. }
  split.
  - symmetry.
    apply Z.div_unique with (r := decValue (fractionDigitsAt d v)); lia.
  - symmetry.
    apply Z.mod_unique with (q := decValue (integerDigitsAt d v)); lia.
Qed.

Lemma formatTokenAmount_parts_at (v : jsstring) :
  v <> str "0" -> v <> [] ->
  Helpers.formatTokenAmount v d =
    if eqb (stripTrailing "0" (fractionDigitsAt d v)) []
    then integerDigitsAt d v
    else integerDigitsAt d v ++ str "."
           ++ stripTrailing "0" (fractionDigitsAt d v).
Proof.
  intros N0 N1. unfold Helpers.formatTokenAmount.
  apply eqb_neq in N0. apply eqb_neq in N1. rewrite N0, N1.
  cbn [orb]. cbv zeta.
  assert (L : (d <= length (padStart (d + 1) "0" v))%nat)
    by (rewrite length_padStart; lia).
  rewrite slice_before_end, sliceFrom_end by lia.
  fold (integerDigitsAt d v). fold (fractionDigitsAt d v).
  pose proof (integerDigitsAt_nonempty v) as NA.
  destruct (integerDigitsAt d v); [contradiction | reflexivity].
Qed.

Lemma formatUnitsSpec_parts_at (v : jsstring) :
  decimalString v -> decValue v <> 0 ->
  formatUnitsSpec (decValue v) d =
    if eqb (stripTrailing "0" (fractionDigitsAt d v)) []
    then canonical (integerDigitsAt d v)
    else canonical (integerDigitsAt d v) ++ str "."
           ++ stripTrailing "0" (fractionDigitsAt d v).
Proof.
  intros D NZ. unfold formatUnitsSpec.
  destruct (Z.eqb_spec (decValue v) 0) as [|_]; [contradiction|].
  destruct (decimalString_digitsAt v D) as [DA DB].
  destruct (decValue_digitsAt v D) as [Q R].
  cbv zeta. rewrite Q, R.
  destruct (toString_decValue _ DA) as [TA _].
  destruct (toString_decValue _ DB) as [TB ZB].
  rewrite TA, TB.
  destruct (Z.eqb_spec (decValue (fractionDigitsAt d v)) 0) as [B0|BN].
  - apply ZB, stripTrailing_nil in B0. now rewrite B0.
  - assert (S0 : stripTrailing "0" (fractionDigitsAt d v) <> []).
    { intros S0. apply stripTrailing_nil, ZB in S0. contradiction. }
    apply eqb_neq in S0. rewrite S0.
    assert (NB : fractionDigitsAt d v <> []).
    { intros N. pose proof (length_fractionDigitsAt v) as L.
      rewrite N in L. cbn [length] in L. lia. }
    pose proof (padStart_canonical (fractionDigitsAt d v) NB) as PC.
    rewrite length_fractionDigitsAt in PC. now rewrite PC.
Qed.

Lemma hd_integerDigitsAt (v : jsstring) :
  (d + 1 < length v)%nat ->
  hd "1"%char (integerDigitsAt d v) = hd "1"%char v.
Proof.
  intros G. unfold integerDigitsAt, padStart. cbv zeta.
  replace (d + 1 - length v)%nat with 0%nat by lia. cbn [repeat app].
  destruct v as [|c r]; [cbn [length] in G; lia|].
  cbn [length] in G |- *.
  replace (S (length r) - d)%nat with (S (length r - d)) by lia.
  reflexivity.
Qed.

Lemma dropZeros_zeros (k : nat) (s : jsstring) :
  dropZeros (repeat "0"%char k ++ s) = dropZeros s.
Proof. induction k as [|k IH]; [reflexivity | exact IH]. Qed.

Lemma canonical_zeros (k : nat) : canonical (repeat "0"%char k) = str "0".
Proof.
  unfold canonical. pose proof (dropZeros_zeros k []) as Z0.
  rewrite app_nil_r in Z0. now rewrite Z0.
Qed.

Lemma canonical_padStart (k : nat) (s : jsstring) :
  canonical (padStart k "0" s) = canonical s.
Proof. unfold canonical, padStart. now rewrite dropZeros_zeros. Qed.

Lemma all_zeros_stripTrailing (s : jsstring) :
  stripTrailing "0" s = [] -> s = repeat "0"%char (length s).
Proof.
  intros E. pose proof (stripTrailing_decompose "0" s) as D.
  rewrite E in D. cbn [app length] in D. now rewrite Nat.sub_0_r in D.
Qed.

Lemma parseTokenAmount_whole (ip : jsstring) :
  ~ In "."%char ip ->
  Utils.parseTokenAmount ip d = canonical (ip ++ repeat "0"%char d).
Proof.
  intros H. unfold Utils.parseTokenAmount, canonical. cbv zeta.
  rewrite split_without by exact H. cbn [hd nth].
  rewrite slice_padEnd. cbn [length app]. rewrite Nat.sub_0_r.
  rewrite firstn_all2 by (rewrite repeat_length; lia). reflexivity.
Qed.

Lemma parseTokenAmount_point (ip fp : jsstring) :
  ~ In "."%char ip -> ~ In "."%char fp ->
  Utils.parseTokenAmount (ip ++ "."%char :: fp) d
  = canonical (ip ++ firstn d (fp ++ repeat "0"%char (d - length fp))).
Proof.
  intros Hi Hf. unfold Utils.parseTokenAmount, canonical. cbv zeta.
  rewrite split_at_first, split_without by assumption. cbn [hd nth].
  now rewrite slice_padEnd.
Qed.

(** X14: at one or more decimals, parsing what [formatTokenAmount]
    printed for a string of decimal digits gives the digits back
    without their leading zeros. *)
Theorem parseTokenAmount_formatTokenAmount (v : jsstring) :
  decimalString v ->
  Utils.parseTokenAmount (Helpers.formatTokenAmount v d) d = canonical v.
Proof.
  intros D.
  assert (Z0 : Utils.parseTokenAmount (str "0") d = str "0").
  { rewrite parseTokenAmount_whole by no_point.
    change (str "0" ++ repeat "0"%char d) with (repeat "0"%char (S d)).
    apply canonical_zeros. }
  destruct (list_eq_dec ascii_dec v (str "0")) as [->|N0]; [exact Z0|].
  destruct (list_eq_dec ascii_dec v []) as [->|N1]; [exact Z0|].
  rewrite formatTokenAmount_parts_at by assumption.
  destruct (decimalString_digitsAt v D) as [DA DB].
  pose proof (length_fractionDigitsAt v) as LB.
  rewrite <- (canonical_padStart (d + 1) v), digitsAt_split.
  destruct (eqb (stripTrailing "0" (fractionDigitsAt d v)) []) eqn:E.
  - apply eqb_eq in E. apply all_zeros_stripTrailing in E.
    rewrite LB in E.
    rewrite parseTokenAmount_whole by now apply decimalString_no_point.
    now rewrite <- E.
  - change (integerDigitsAt d v ++ str "."
              ++ stripTrailing "0" (fractionDigitsAt d v))
      with (integerDigitsAt d v
              ++ "."%char :: stripTrailing "0" (fractionDigitsAt d v)).
    rewrite parseTokenAmount_point
      by (apply decimalString_no_point;
          first [exact DA | now apply decimalString_stripTrailing]).
    pose proof (padded_fraction_restored (fractionDigitsAt d v)) as R.
    rewrite LB in R. now rewrite R.
Qed.

(** X15: at 1 to 22 decimals [formatUnits] and [formatTokenAmount] return
    the same string on every string of decimal digits that is at most
    [d + 1] characters long or does not start with the digit 0. *)
Theorem formatTokenAmount_agrees_formatUnits (v : jsstring) :
  (d <= 22)%nat ->
  decimalString v ->
  (length v <= d + 1)%nat \/ hd "1"%char v <> "0"%char ->
  CeloClient.formatUnits (inl v) d = Ok (Helpers.formatTokenAmount v d).
Proof.
  intros Hd D C. rewrite formatUnits_decimal by assumption. f_equal.
  destruct (list_eq_dec ascii_dec v (str "0")) as [->|N0]; [reflexivity|].
  destruct (list_eq_dec ascii_dec v []) as [->|N1]; [reflexivity|].
  rewrite formatTokenAmount_parts_at by assumption.
  destruct (decimalString_digitsAt v D) as [DA DB].
  destruct (decValue_digitsAt v D) as [Q R].
  assert (P : 0 < 10 ^ Z.of_nat d) by (apply Z.pow_pos_nonneg; lia).
  pose proof (length_integerDigitsAt v) as LA.
  assert (CA : canonical (integerDigitsAt d v) = integerDigitsAt d v).
  { destruct (Nat.le_gt_cases (length v) (d + 1)) as [Le|Gt].
    - destruct (integerDigitsAt d v) as [|a [|]]; cbn [length] in LA; try lia.
      apply canonical_single.
    - destruct C as [C|C]; [lia|].
      apply canonical_nonzero_head; [apply integerDigitsAt_nonempty|].
      now rewrite hd_integerDigitsAt. }
  destruct (Z.eq_dec (decValue v) 0) as [Z0|NZ].
  - rewrite Z0. cbn [formatUnitsSpec Z.eqb].
    rewrite Z0 in Q, R. rewrite Z.div_0_l in Q by lia.
    rewrite Z.mod_0_l in R by lia.
    destruct (toString_decValue _ DA) as [TA _].
    destruct (toString_decValue _ DB) as [_ ZB].
    symmetry in R. apply ZB, stripTrailing_nil in R. rewrite R.
    cbn [eqb]. rewrite <- CA, <- TA, <- Q. reflexivity.
  - rewrite formatUnitsSpec_parts_at by assumption. now rewrite CA.
Qed.

End TokenAmounts.

(** X16: at 0 decimals [formatTokenAmount] prints every digit after the
    point: the result is [0.] followed by the value without its
    trailing zeros, where [formatUnits] returns the canonical integer. *)
Theorem formatTokenAmount_zero_decimals (v : jsstring) :
  decimalString v -> decValue v <> 0 ->
  Helpers.formatTokenAmount v 0 = str "0." ++ stripTrailing "0" v
  /\ CeloClient.formatUnits (inl v) 0 = Ok (canonical v)
  /\ CeloClient.formatUnits (inl v) 0 <> Ok (Helpers.formatTokenAmount v 0).
Proof.
  intros D NZ.
  assert (N0 : v <> str "0") by (intros ->; now elim NZ).
  assert (N1 : v <> []) by (intros ->; now elim NZ).
  assert (F : Helpers.formatTokenAmount v 0 = str "0." ++ stripTrailing "0" v).
  { unfold Helpers.formatTokenAmount.
    apply eqb_neq in N0. apply eqb_neq in N1. rewrite N0, N1.
    cbn [orb Nat.add]. cbv zeta.
    assert (P : padStart 1 "0" v = v).
    { unfold padStart. destruct v as [|c r]; [now apply eqb_neq in N1|].
      cbn [length]. now replace (1 - Datatypes.S (length r))%nat with 0%nat by lia. }
    rewrite P. cbn [Z.of_nat Z.opp].
    assert (S0 : slice v 0 0 = []).
    { unfold slice. rewrite relIndex_zero. reflexivity. }
    assert (S1 : sliceFrom v 0 = v).
    { unfold sliceFrom. change 0 with (Z.of_nat 0).
      rewrite slice_between by lia. cbn [skipn].
      rewrite Nat.sub_0_r. apply firstn_all. }
    rewrite S0, S1.
    destruct (toString_decValue v D) as [_ ZV].
    assert (T : stripTrailing "0" v <> []).
    { intros T. apply stripTrailing_nil, ZV in T. contradiction. }
    apply eqb_neq in T. rewrite T. reflexivity. }
  assert (U : CeloClient.formatUnits (inl v) 0 = Ok (canonical v)).
  { rewrite formatUnits_decimal by (auto; lia). f_equal.
    unfold formatUnitsSpec.
    destruct (Z.eqb_spec (decValue v) 0) as [|_]; [contradiction|].
    cbn [Z.of_nat Z.pow Z.pow_pos Pos.iter]. cbv zeta.
    rewrite Z.mod_1_r, Z.div_1_r. cbn [Z.eqb].
    now destruct (toString_decValue v D). }
  split; [exact F|]. split; [exact U|].
  rewrite U, F. intros E. injection E as E.
  assert (I : In "."%char (canonical v))
    by (rewrite E; cbn; tauto).
  revert I. apply decimalString_no_point.
  destruct (toString_decValue v D) as [<- _].
  apply decimalString_toString. now apply decValue_bound.
Qed.

(** X17: [formatUnits] reads a [0x] quantity as the BigInt it denotes:
    on the hexadecimal form of a non-negative [v] it returns what it
    returns on [v], at every number of decimals. *)
Theorem formatUnits_hex_quantity (v : Z) (d : nat) :
  0 <= v ->
  CeloClient.formatUnits (inl (str "0x" ++ BigInt.toString 16 v)) d
  = CeloClient.formatUnits (inr v) d.
Proof.
  intros Hv. unfold CeloClient.formatUnits.
  rewrite fromString_toString.
  unfold BigInt.fromString at 1.
  rewrite ofString_hex_literal with (v := v); [reflexivity|].
  rewrite toString_nonneg by exact Hv. apply parseDigits_digits; lia.
Qed.

(** X18: with at least one character kept on each side and an address
    long enough, [truncateAddress] keeps the first [chars + 2] and the
    last [chars] characters around three dots, [2 * chars + 5]
    characters in all; with [chars = 0] the whole address follows the
    dots. *)
Theorem truncateAddress_shape (address : jsstring) (chars : nat) :
  ((1 <= chars)%nat -> (chars + 2 <= length address)%nat ->
   Utils.truncateAddress address chars
   = firstn (chars + 2) address ++ str "..."
       ++ skipn (length address - chars) address
   /\ length (Utils.truncateAddress address chars) = (2 * chars + 5)%nat)
  /\ Utils.truncateAddress address 0
     = firstn 2 address ++ str "..." ++ address.
Proof.
  split.
  - intros H1 H2.
    assert (E : Utils.truncateAddress address chars
                = firstn (chars + 2) address ++ str "..."
                    ++ skipn (length address - chars) address).
    { unfold Utils.truncateAddress.
      replace (Z.of_nat chars + 2) with (Z.of_nat (chars + 2)) by lia.
      rewrite slice_from_start, sliceFrom_end by lia. reflexivity. }
    split; [exact E|]. rewrite E, !length_app, length_firstn, length_skipn.
    cbn [length str list_ascii_of_string]. lia.
  - unfold Utils.truncateAddress. cbn [Z.of_nat Z.opp Z.add].
    change 2 with (Z.of_nat 2). rewrite slice_from_start.
    assert (S1 : sliceFrom address 0 = address).
    { unfold sliceFrom. change 0 with (Z.of_nat 0).
      rewrite slice_between by lia. cbn [skipn].
      rewrite Nat.sub_0_r. apply firstn_all. }
    now rewrite S1.
Qed.

(** ** Hashing phone numbers *)

(** X19: the hash of a phone number depends on the number only through
    its normalized form, so two spellings with the same normalization
    hash alike; an empty pepper counts as no pepper; the identifier
    keeps the number as it was entered. *)
Theorem hashPhoneNumber_normalized (sha256 : jsstring -> jsstring)
        (phoneNumber : jsstring) (pepper : option jsstring) :
  Utils.hash (Utils.hashPhoneNumber sha256 phoneNumber pepper)
  = Utils.hash (Utils.hashPhoneNumber sha256
                  (Utils.normalizePhoneNumber phoneNumber) pepper)
  /\ (forall other,
        Utils.normalizePhoneNumber other
        = Utils.normalizePhoneNumber phoneNumber ->
        Utils.hash (Utils.hashPhoneNumber sha256 other pepper)
        = Utils.hash (Utils.hashPhoneNumber sha256 phoneNumber pepper))
  /\ Utils.hash (Utils.hashPhoneNumber sha256 phoneNumber (Some []))
     = Utils.hash (Utils.hashPhoneNumber sha256 phoneNumber None)
  /\ Utils.original (Utils.hashPhoneNumber sha256 phoneNumber pepper)
     = phoneNumber.
Proof.
  unfold Utils.hashPhoneNumber. cbn [Utils.hash Utils.original].
  destruct (normalizePhoneNumber_fixed phoneNumber) as (_ & _ & I).
  repeat split.
  - now rewrite I.
  - intros other E. now rewrite E.
Qed.

(** ** Decoding an empty payload *)

Lemma slice_nil (from to : Z) : slice [] from to = [].
Proof. unfold slice. now rewrite skipn_nil, firstn_nil. Qed.

Lemma decodeFrom_empty (types : list jsstring) :
  forallb (fun t => negb (isUintType t)) types = true ->
  forall offset results,
    CeloClient.decodeFrom [] types offset results
    = Ok (results ++ flat_map emptyDecoded types).
Proof.
  induction types as [|t types IH]; intros H offset results.
  - cbn. now rewrite app_nil_r.
  - cbn [forallb] in H. apply andb_true_iff in H. destruct H as [Ht H].
    unfold isUintType in Ht. apply negb_true_iff in Ht.
    cbn [CeloClient.decodeFrom flat_map]. rewrite Ht, !slice_nil.
    unfold emptyDecoded.
    destruct (eqb t (str "address")); [rewrite IH by exact H;
                                       now rewrite <- app_assoc|].
    destruct (eqb t (str "bool")); [rewrite IH by exact H;
                                    now rewrite <- app_assoc|].
    destruct (eqb t (str "bytes32")); [rewrite IH by exact H;
                                       now rewrite <- app_assoc|].
    rewrite IH by exact H. reflexivity.
Qed.

Lemma decodeFrom_empty_uint (before : list jsstring) :
  forallb (fun t => negb (isUintType t)) before = true ->
  forall type after offset results,
    isUintType type = true ->
    CeloClient.decodeFrom [] (before ++ type :: after) offset results
    = Throw (SyntaxError (str "Cannot convert 0x to a BigInt")).
Proof.
  induction before as [|t before IH]; intros H type after offset results U.
  - cbn [app CeloClient.decodeFrom]. unfold isUintType in U.
    destruct (eqb type (str "address")) eqn:A.
    + apply eqb_eq in A. subst type. discriminate U.
    + rewrite U, slice_nil. reflexivity.
  - cbn [forallb] in H. apply andb_true_iff in H. destruct H as [Ht H].
    unfold isUintType in Ht. apply negb_true_iff in Ht.
    cbn [app CeloClient.decodeFrom]. rewrite Ht.
    destruct (eqb t (str "address")); [now apply IH|].
    destruct (eqb t (str "bool")); [now apply IH|].
    destruct (eqb t (str "bytes32")); now apply IH.
Qed.

(** X20: on the empty payload [0x], as returned by a call to an address
    without code, [decodeResult] does not fail for [address], [bool]
    and [bytes32]: it returns [0x], [false] and [0x]; a [uint256] or
    [uint] among the types makes it throw a SyntaxError.  The helpers
    behave alike: [decodeAddress] gives [0x], [decodeBool] false,
    [decodeUint256] throws. *)
Theorem decodeResult_empty_payload (types : list jsstring) :
  (forallb (fun t => negb (isUintType t)) types = true ->
   CeloClient.decodeResult (str "0x") types
   = Ok (flat_map emptyDecoded types))
  /\ (existsb isUintType types = true ->
      CeloClient.decodeResult (str "0x") types
      = Throw (SyntaxError (str "Cannot convert 0x to a BigInt")))
  /\ Helpers.decodeAddress (str "0x") = str "0x"
  /\ Helpers.decodeBool (str "0x") = false
  /\ Helpers.decodeUint256 (str "0x")
     = Throw (SyntaxError (str "Cannot convert 0x to a BigInt")).
Proof.
  split; [|split; [|repeat split]].
  - intros H. unfold CeloClient.decodeResult.
    change (replace (str "0x") [] (str "0x")) with (@nil ascii).
    now rewrite decodeFrom_empty.
  - intros H. unfold CeloClient.decodeResult.
    change (replace (str "0x") [] (str "0x")) with (@nil ascii).
    assert (S : exists before type after,
               types = before ++ type :: after
               /\ forallb (fun t => negb (isUintType t)) before = true
               /\ isUintType type = true).
    { induction types as [|t types IH]; [discriminate H|].
      cbn [existsb] in H. destruct (isUintType t) eqn:U.
      - exists [], t, types. auto.
      - destruct (IH H) as (b & ty & a & -> & Hb & Hty).
        exists (t :: b), ty, a. cbn [forallb app]. rewrite U, Hb. auto. }
    destruct S as (before & type & after & -> & Hb & Hty).
    now apply decodeFrom_empty_uint.
Qed.

(** ** The RPC wrappers *)

(** X21: each RPC wrapper performs exactly one request, the one
    [makeRpcCall] sends for its fixed method name and its arguments in
    order; [getBlock] sends a numeric block as a [0x] quantity and a
    string block as it is. *)
Theorem rpc_wrappers_request (ctx : Context) (u : jsstring) :
  CeloClient.getRpcUrl (celoApi ctx) = Ok u ->
  let sent {T} (call : Async.M T) := snd (Async.run call ctx) in
  (forall transaction,
      sent (CeloTransport.estimateGas transaction)
      = [rpcRequest u (str "eth_estimateGas") [transaction] (now ctx)])
  /\ (forall address,
        sent (CeloTransport.getNonce address)
        = [rpcRequest u (str "eth_getTransactionCount")
             [VString address; VString (str "latest")] (now ctx)])
  /\ sent CeloTransport.getGasPrice
     = [rpcRequest u (str "eth_gasPrice") [] (now ctx)]
  /\ sent CeloTransport.getBlockNumber
     = [rpcRequest u (str "eth_blockNumber") [] (now ctx)]
  /\ (forall n includeTransactions,
        sent (CeloTransport.getBlock (inl n) includeTransactions)
        = [rpcRequest u (str "eth_getBlockByNumber")
             [VString (str "0x" ++ BigInt.toString 16 n);
              VBool includeTransactions] (now ctx)])
  /\ (forall block includeTransactions,
        sent (CeloTransport.getBlock (inr block) includeTransactions)
        = [rpcRequest u (str "eth_getBlockByNumber")
             [VString block; VBool includeTransactions] (now ctx)])
  /\ (forall to data,
        sent (CeloTransport.callContract to data)
        = [rpcRequest u (str "eth_call")
             [VObject [(str "to", VString to); (str "data", VString data)];
              VString (str "latest")] (now ctx)])
  /\ (forall filter,
        sent (CeloTransport.getLogs filter)
        = [rpcRequest u (str "eth_getLogs") [filter] (now ctx)]).
Proof.
  intros Hu sent. unfold sent.
  repeat split; intros;
    unfold CeloTransport.estimateGas, CeloTransport.getNonce, CeloTransport.getGasPrice,
      CeloTransport.getBlockNumber, CeloTransport.getBlock, CeloTransport.callContract,
      CeloTransport.getLogs;
    now apply makeRpcCall_log.
Qed.

(** ** Instances of the further properties *)

Ltac amount_chars :=
  repeat first
    [apply Forall_nil
    |apply Forall_cons; [first [left; reflexivity | right; reflexivity]|]].

Lemma sampleParams_wellFormed : Forall wellFormedParam sampleParams.
Proof.
  repeat apply Forall_cons; try apply Forall_nil; unfold wellFormedParam;
    cbn [paramType paramValue paramDecoded fst snd].
  - apply abiAddress. reflexivity.
  - apply (abiUint _ _ 1000000000000000000);
      [left; reflexivity | reflexivity | lia].
  - apply (abiBool (VBool true)).
  - apply abiBytes32. reflexivity.
Defined.

Lemma encode_decode_round_trip_witness :
  exists encoded,
    CeloClient.encodeParameters (map paramType sampleParams)
                                (map paramValue sampleParams) = Ok encoded
    /\ length encoded = (64 * length sampleParams)%nat
    /\ CeloClient.decodeResult (str "0x" ++ encoded)
         (map paramType sampleParams)
       = Ok (map paramDecoded sampleParams).
Proof. exact (encode_decode_round_trip sampleParams sampleParams_wellFormed). Defined.

Lemma helpers_decode_encoded_witness :
  exists w,
    CeloClient.encodeParameters [str "address"] [VString sampleAddress] = Ok w
    /\ Helpers.decodeAddress (str "0x" ++ w) = toLowerCase sampleAddress.
Proof. exact (proj1 helpers_decode_encoded sampleAddress eq_refl). Defined.

Lemma encodeParameters_dynamic_and_unknown_witness :
  CeloClient.encodeParameters [str "string"] [VString (str "Celo Dollar")]
  = Ok (str "0000000000000000000000000000000000000000000000000000000000000020")
  /\ CeloClient.encodeParameters [str "uint8"] [VNumber 7] = Ok [].
Proof.
  split.
  - apply (proj1 (proj2 encodeParameters_dynamic_and_unknown)).
    left. reflexivity.
  - apply (proj2 (proj2 encodeParameters_dynamic_and_unknown)).
    cbn. intuition discriminate.
Defined.

Lemma encodeFunctionData_agrees_witness :
  Utils.encodeFunctionData sampleDigest (str "balanceOf") [VString sampleAddress]
  = CeloTransport.encodeFunctionCall sampleDigest (str "balanceOf")
      [str "address"] [VString sampleAddress].
Proof.
  apply (encodeFunctionData_agrees sampleDigest (str "balanceOf")
           (str "balanceOf(address)")).
  reflexivity.
Defined.

Lemma parseUnits_formatUnits_witness :
  exists s,
    CeloClient.formatUnits (inr 1500000000000000000) 18 = Ok s
    /\ CeloClient.parseUnits s 18 = Ok (str "1500000000000000000").
Proof.
  refine (proj1 (parseUnits_formatUnits 18 _) 1500000000000000000 _); lia.
Defined.

Lemma parseUnits_parseTokenAmount_witness :
  CeloClient.parseUnits (str "1.5") 18
  = Ok (Utils.parseTokenAmount (str "1.5") 18).
Proof. apply parseUnits_parseTokenAmount. amount_chars. Defined.

Lemma parseTokenAmount_formatTokenAmount_witness :
  Utils.parseTokenAmount
    (Helpers.formatTokenAmount (str "1500000000000000000") 18) 18
  = str "1500000000000000000".
Proof.
  refine (parseTokenAmount_formatTokenAmount 18 _ (str "1500000000000000000") _).
  - lia.
  - digits_only.
Defined.

Lemma formatTokenAmount_agrees_formatUnits_witness :
  CeloClient.formatUnits (inl (str "1500000000")) 9
  = Ok (Helpers.formatTokenAmount (str "1500000000") 9).
Proof.
  refine (formatTokenAmount_agrees_formatUnits 9 _ (str "1500000000") _ _ _).
  - lia.
  - lia.
  - digits_only.
  - left. cbn. lia.
Defined.

Lemma formatTokenAmount_zero_decimals_witness :
  Helpers.formatTokenAmount (str "5") 0 = str "0.5"
  /\ CeloClient.formatUnits (inl (str "5")) 0 = Ok (str "5").
Proof.
  destruct (formatTokenAmount_zero_decimals (str "5")) as (F & U & _).
  - digits_only.
  - discriminate.
  - split; [exact F | exact U].
Defined.

Lemma formatUnits_hex_quantity_witness :
  CeloClient.formatUnits (inl (str "0x3b9aca00")) 9
  = CeloClient.formatUnits (inr 1000000000) 9.
Proof. apply (formatUnits_hex_quantity 1000000000 9). lia. Defined.

Lemma toHex_fromHex_witness :
  Utils.toHex (VString (str "100")) = Ok (str "0x64")
  /\ Utils.fromHex (str "0x64") = Ok 100.
Proof.
  destruct (proj1 (proj2 (toHex_fromHex 100)) ltac:(lia)) as (T & _ & _ & F).
  split; [exact T | exact F].
Defined.

Lemma formatAddress_canonical_witness :
  Utils.formatAddress sampleAddress
  = Ok (str "0xabcdef1234567890abcdef1234567890abcdef12").
Proof. exact (proj1 (proj1 (formatAddress_canonical sampleAddress) eq_refl)). Defined.

Lemma truncateAddress_shape_witness :
  Utils.truncateAddress sampleAddress 6 = str "0xABCDEF...CDEF12"
  /\ length (Utils.truncateAddress sampleAddress 6) = 17%nat.
Proof.
  refine (proj1 (truncateAddress_shape sampleAddress 6) _ _).
  - lia.
  - cbn. lia.
Defined.

Lemma hashPhoneNumber_normalized_witness :
  Utils.hash (Utils.hashPhoneNumber sampleDigest (str "(555) 123-4567") None)
  = Utils.hash (Utils.hashPhoneNumber sampleDigest (str "5551234567") None).
Proof.
  apply (proj1 (proj2 (hashPhoneNumber_normalized sampleDigest
                         (str "5551234567") None))).
  reflexivity.
Defined.

Lemma makeRpcCall_single_request_witness :
  snd (Async.run (CeloClient.makeRpcCall (str "eth_blockNumber") [])
         (hostAnswering mainnetCredentials (VObject invalidParamsFields)))
  = [rpcRequest (str "https://forno.celo.org") (str "eth_blockNumber") []
       1700000000000].
Proof.
  refine (proj1 (proj1 (makeRpcCall_single_request
                          (hostAnswering mainnetCredentials
                                         (VObject invalidParamsFields))
                          (str "eth_blockNumber") [])
                   (str "https://forno.celo.org") _)).
  reflexivity.
Defined.

Lemma makeExplorerCall_request_witness :
  Async.run (CeloClient.makeExplorerCall [(str "module", str "account")])
            (hostAnswering customCredentials VNull)
  = (Throw (Error (str "Explorer API not available for this network")), [])
  /\ exists qs,
      snd (Async.run
             (CeloClient.makeExplorerCall
                [(str "apikey", str "mine"); (str "module", str "account")])
             (hostAnswering keyedCredentials (VObject noTransactionsFields)))
      = [explorerRequest (str "https://api.celoscan.io/api") qs]
      /\ queryValue (str "apikey") qs = Some (str "KEY")
      /\ queryValue (str "module") qs = Some (str "account").
Proof.
  split.
  - refine (proj1 (makeExplorerCall_request
                     (hostAnswering customCredentials VNull) _) _).
    reflexivity.
  - destruct (proj2 (makeExplorerCall_request
                       (hostAnswering keyedCredentials
                                      (VObject noTransactionsFields))
                       [(str "apikey", str "mine");
                        (str "module", str "account")])
                (str "https://api.celoscan.io/api") eq_refl
                ltac:(discriminate))
      as (qs & L & _ & K).
    exists qs. split; [exact L|].
    destruct (K (str "KEY") eq_refl ltac:(discriminate)) as [K1 K2].
    split; [exact K1|].
    rewrite (K2 (str "module") ltac:(discriminate)). reflexivity.
Defined.

Lemma signTransaction_never_signs_witness :
  Async.run (CeloTransport.signTransaction VNull)
            (hostAnswering mainnetCredentials VNull)
  = (Throw (Error (str "Private key is required for signing transactions")),
     []).
Proof.
  refine (proj1 (signTransaction_never_signs
                   (hostAnswering mainnetCredentials VNull) VNull) _).
  reflexivity.
Defined.

Lemma retryWithBackoff_outcome_witness :
  Utils.retryWithBackoff flakyCall 3 1000 = (inl 42, [1000; 2000]).
Proof.
  refine (proj1 (retryWithBackoff_outcome flakyCall 3 1000) 2%nat 42 _ _ _).
  - lia.
  - reflexivity.
  - intros j Hj. destruct j as [|[|j]]; [eexists; reflexivity.. | lia].
Defined.

Lemma decodeResult_empty_payload_witness :
  CeloClient.decodeResult (str "0x") [str "address"; str "bool"]
  = Ok [VString (str "0x"); VBool false]
  /\ CeloClient.decodeResult (str "0x") [str "address"; str "uint256"]
     = Throw (SyntaxError (str "Cannot convert 0x to a BigInt")).
Proof.
  split.
  - refine (proj1 (decodeResult_empty_payload [str "address"; str "bool"]) _).
    reflexivity.
  - refine (proj1 (proj2 (decodeResult_empty_payload
                            [str "address"; str "uint256"])) _).
    reflexivity.
Defined.

Lemma rpc_wrappers_request_witness :
  snd (Async.run (CeloTransport.getBlock (inl 17280) false)
         (hostAnswering mainnetCredentials VNull))
  = [rpcRequest (str "https://forno.celo.org") (str "eth_getBlockByNumber")
       [VString (str "0x4380"); VBool false] 1700000000000].
Proof.
  destruct (rpc_wrappers_request (hostAnswering mainnetCredentials VNull)
              (str "https://forno.celo.org") eq_refl)
    as (_ & _ & _ & _ & B & _).
  exact (B 17280 false).
Defined.

Lemma normalizePhoneNumber_normal_witness :
  Utils.normalizePhoneNumber (str "(555) 123-4567") = str "+15551234567"
  /\ Utils.normalizePhoneNumber
       (Utils.normalizePhoneNumber (str "(555) 123-4567"))
     = Utils.normalizePhoneNumber (str "(555) 123-4567").
Proof.
  split; [reflexivity|].
  exact (proj2 (proj2 (normalizePhoneNumber_normal (str "(555) 123-4567")))).
Defined.
